(** * FLORIS flow field engine: a shallow embedding of [flow_field.py]

    The development follows [src/flow_field.py] method by method.

    - numpy arrays of float64 are one-dimensional: flat lists of real
      numbers ([list R]), whose shape is their length; arithmetic on two
      arrays follows numpy's broadcasting and raises [ValueError] on
      shapes that do not go together; rounding, NaN and infinities of
      IEEE arithmetic are not modelled;
    - the flow field object is a record threaded through a state monad
      that also carries Python exceptions; the state survives a raise,
      as the attributes of a Python object do;
    - turbines are shared mutable objects: they live in one store (the
      list [turbines]) and the sorted turbine map refers to them by
      position in that store;
    - the wake models, the turbine class, the turbine map and the grid
      helpers are collaborators of the flow field whose code is not part
      of [flow_field.py]; they are taken abstractly (class
      [Collaborators]). *)

From Stdlib Require Import Reals Lra Lia ZArith String.
From stdpp Require Import base decidable option list strings.

Open Scope R_scope.

(** ** Decidable comparisons on float values *)

#[global] Instance R_eq_decision : EqDecision R := Req_dec_T.
#[global] Instance Rle_decision (a b : R) : Decision (a <= b) := Rle_dec a b.
#[global] Instance Rlt_decision (a b : R) : Decision (a < b) := Rlt_dec a b.
#[global] Instance Rgt_decision (a b : R) : Decision (a > b) := Rgt_dec a b.

(** ** numpy helpers *)

(** [np.zeros(np.shape(a))] *)
Definition np_zeros_like (a : list R) : list R := (fun _ => 0) <$> a.

(** An operation on two arrays: element by element when the shapes are
    the same, with an array of one element broadcast over the other
    array otherwise; [None] stands for the [ValueError] numpy raises on
    operands that cannot be broadcast together. *)
Definition np_broadcast (f : R -> R -> R) (a b : list R)
    : option (list R) :=
  if (length a =? length b)%nat then Some (zip_with f a b)
  else match a, b with
       | [a0], _ => Some (f a0 <$> b)
       | _, [b0] => Some ((fun ai => f ai b0) <$> a)
       | _, _ => None
       end.

(** [a - b], [a + b], [a * b] on two arrays *)
Definition np_sub : list R -> list R -> option (list R) :=
  np_broadcast Rminus.
Definition np_add : list R -> list R -> option (list R) :=
  np_broadcast Rplus.
Definition np_mul : list R -> list R -> option (list R) :=
  np_broadcast Rmult.

(** [np.sum] of a boolean array: the number of [True] entries. *)
Definition np_count_true (bs : list bool) : Z :=
  Z.of_nat (length (filter (fun b => b = true) bs)).

(** [np.min] and [np.max]; [None] stands for the [ValueError] numpy
    raises on an empty array. *)
Definition np_min (a : list R) : option R :=
  match a with
  | [] => None
  | a0 :: r => Some (foldl Rmin a0 r)
  end.

Definition np_max (a : list R) : option R :=
  match a with
  | [] => None
  | a0 :: r => Some (foldl Rmax a0 r)
  end.

(** [np.unique(a).size == 1] *)
Definition np_unique_size_is_1 (a : list R) : bool :=
  match a with
  | [] => false
  | a0 :: r => forallb (fun b => bool_decide (b = a0)) r
  end.

(** [np.where(np.logical_and(yloc, xloc))[0]] for
    [xloc = (rx == cx)] and [yloc = (ry == cy)]: the positions at which
    both arrays match, in increasing order. *)
Fixpoint np_where_both (i : nat) (rx ry : list R) (cx cy : R) : list nat :=
  match rx, ry with
  | a :: rx', b :: ry' =>
      if bool_decide (b = cy) && bool_decide (a = cx)
      then i :: np_where_both (S i) rx' ry' cx cy
      else np_where_both (S i) rx' ry' cx cy
  | _, _ => []
  end.

(** Modelled from the spec: the degree-based trig helpers [sind] and
    [cosd] of the utilities module, which is not part of the sources. *)
Definition sind (a : R) : R := sin (a * PI / 180).
Definition cosd (a : R) : R := cos (a * PI / 180).

(** ** Data model *)

(** Modelled from the spec: [Vec3] of the utilities module (not part of
    the sources): a point with its coordinates in the wind-aligned
    frame, [x1prime] and [x2prime]. *)
Record Vec3 := mkVec3 {
  x1 : R; x2 : R; x3 : R;
  x1prime : R; x2prime : R
}.

(** [Vec3(a, b, c)]: a fresh point has not been rotated. *)
Definition Vec3_new (a b c : R) : Vec3 := mkVec3 a b c a b.

Record WindMap := mkWindMap {
  grid_wind_speed : list R;
  grid_wind_direction : list R;
  turbine_wind_direction : list R;
  turbine_turbulence_intensity : list R
}.

(** The descriptors of the wake model bundle that [flow_field.py]
    reads; [model_parameters] stands for whatever else the models keep. *)
Record Wake := mkWake {
  velocity_model_grid_resolution : option Vec3;
  velocity_model_string : string;
  turbulence_model_string : string;
  model_parameters : list R
}.

(** Python exceptions that [flow_field.py] can raise by itself. *)
Inductive Exn :=
| TypeError       (* int() of an array that has not exactly one element *)
| IndexError      (* an array indexed beyond its end *)
| ValueError      (* np.min / np.max of an empty array; operands that
                     cannot be broadcast together *)
| ReferenceError. (* a turbine reference that is not in the store *)

Section Engine.

(** What a turbine is made of besides the attributes the flow field
    reads and writes (power curve, yaw angle, ...). *)
Context {Cfg : Type}.

Record Turbine := mkTurbine {
  turbulence_intensity : R;
  rotor_diameter : R;
  grid_point_count : Z;
  velocities : list R;
  definition : Cfg
}.

Definition set_turbulence_intensity (ti : R) (t : Turbine) : Turbine :=
  mkTurbine ti (rotor_diameter t) (grid_point_count t) (velocities t)
            (definition t).

Definition set_velocities (vs : list R) (t : Turbine) : Turbine :=
  mkTurbine (turbulence_intensity t) (rotor_diameter t) (grid_point_count t)
            vs (definition t).

Record FlowField := mkFlowField {
  wind_shear : R;
  wind_veer : R;
  reference_wind_height : R;
  reference_turbine_diameter : R;
  wake : Wake;
  wind_map : WindMap;
  x : list R; y : list R; z : list R;
  u : list R; v : list R; w : list R;
  u_initial : list R; v_initial : list R; w_initial : list R;
  (* self.turbine_map: the coordinates, in input order, and the turbine
     objects, in the same order *)
  coords : list Vec3;
  turbines : list Turbine;
  (* self.wake_list, keyed by turbine; None while the attribute is unset *)
  wake_list : option (list nat)
}.

Definition set_parameters (shear veer height diameter : R) (wk : Wake)
    (wm : WindMap) (ff : FlowField) : FlowField :=
  mkFlowField shear veer height diameter wk wm
    (x ff) (y ff) (z ff) (u ff) (v ff) (w ff)
    (u_initial ff) (v_initial ff) (w_initial ff)
    (coords ff) (turbines ff) (wake_list ff).

Definition set_xyz (x' y' z' : list R) (ff : FlowField) : FlowField :=
  mkFlowField (wind_shear ff) (wind_veer ff) (reference_wind_height ff)
    (reference_turbine_diameter ff) (wake ff) (wind_map ff)
    x' y' z' (u ff) (v ff) (w ff)
    (u_initial ff) (v_initial ff) (w_initial ff)
    (coords ff) (turbines ff) (wake_list ff).

Definition set_uvw (u' v' w' : list R) (ff : FlowField) : FlowField :=
  mkFlowField (wind_shear ff) (wind_veer ff) (reference_wind_height ff)
    (reference_turbine_diameter ff) (wake ff) (wind_map ff)
    (x ff) (y ff) (z ff) u' v' w'
    (u_initial ff) (v_initial ff) (w_initial ff)
    (coords ff) (turbines ff) (wake_list ff).

Definition set_uvw_initial (u' v' w' : list R) (ff : FlowField) : FlowField :=
  mkFlowField (wind_shear ff) (wind_veer ff) (reference_wind_height ff)
    (reference_turbine_diameter ff) (wake ff) (wind_map ff)
    (x ff) (y ff) (z ff) (u ff) (v ff) (w ff)
    u' v' w'
    (coords ff) (turbines ff) (wake_list ff).

Definition set_coords (cs : list Vec3) (ff : FlowField) : FlowField :=
  mkFlowField (wind_shear ff) (wind_veer ff) (reference_wind_height ff)
    (reference_turbine_diameter ff) (wake ff) (wind_map ff)
    (x ff) (y ff) (z ff) (u ff) (v ff) (w ff)
    (u_initial ff) (v_initial ff) (w_initial ff)
    cs (turbines ff) (wake_list ff).

Definition set_turbines (ts : list Turbine) (ff : FlowField) : FlowField :=
  mkFlowField (wind_shear ff) (wind_veer ff) (reference_wind_height ff)
    (reference_turbine_diameter ff) (wake ff) (wind_map ff)
    (x ff) (y ff) (z ff) (u ff) (v ff) (w ff)
    (u_initial ff) (v_initial ff) (w_initial ff)
    (coords ff) ts (wake_list ff).

Definition set_wake_list (wl : option (list nat)) (ff : FlowField)
    : FlowField :=
  mkFlowField (wind_shear ff) (wind_veer ff) (reference_wind_height ff)
    (reference_turbine_diameter ff) (wake ff) (wind_map ff)
    (x ff) (y ff) (z ff) (u ff) (v ff) (w ff)
    (u_initial ff) (v_initial ff) (w_initial ff)
    (coords ff) (turbines ff) wl.

(** ** The monad of the flow field's methods: state and exceptions *)

Inductive Res (A : Type) :=
| Ok (a : A) (ff : FlowField)
| Raise (e : Exn) (ff : FlowField).
Arguments Ok {A} a ff.
Arguments Raise {A} e ff.

Definition M (A : Type) : Type := FlowField -> Res A.

#[global] Instance M_ret : MRet M := fun A a ff => Ok a ff.

#[global] Instance M_bind : MBind M := fun A B k m ff =>
  match m ff with
  | Ok a ff' => k a ff'
  | Raise e ff' => Raise e ff'
  end.

Definition raise {A} (e : Exn) : M A := fun ff => Raise e ff.
Definition get : M FlowField := fun ff => Ok ff ff.
Definition modify (f : FlowField -> FlowField) : M unit :=
  fun ff => Ok tt (f ff).

(** The object as the call leaves it, returned or raised. *)
Definition state_of {A} (r : Res A) : FlowField :=
  match r with
  | Ok _ ff => ff
  | Raise _ ff => ff
  end.

(** A loop over a Python list whose body may raise, with the loop's
    local variables as accumulator. *)
Fixpoint for_each {A B} (body : B -> A -> M B) (acc : B) (l : list A)
    : M B :=
  match l with
  | [] => mret acc
  | a :: l' => acc' ← body acc a; for_each body acc' l'
  end.

(** [a[i]] on a numpy array or a list, for a non-negative [i]. *)
Definition index {A} (a : list A) (i : nat) : M A :=
  match a !! i with
  | Some r => mret r
  | None => raise IndexError
  end.

(** The result of an operation of numpy that raises [ValueError] when
    it has none. *)
Definition np_result {A} (r : option A) : M A :=
  match r with
  | Some a => mret a
  | None => raise ValueError
  end.

(** Reading and writing a turbine object through its reference. *)
Definition get_turbine (k : nat) : M Turbine :=
  ff ← get;
  match turbines ff !! k with
  | Some t => mret t
  | None => raise ReferenceError
  end.

Definition modify_turbine (k : nat) (f : Turbine -> Turbine) : M unit :=
  modify (fun ff => set_turbines (alter f k (turbines ff)) ff).

(** ** Collaborators

    The code of these is not in [flow_field.py]; every one is a pure
    function of the arguments the flow field passes, the flow field
    itself included where the source passes [self]. A method that
    updates a turbine returns the new value of the one attribute it
    writes. *)
Class Collaborators := {
  (* self.wake.* *)
  velocity_function :
    Wake -> list R -> list R -> list R -> Turbine -> Vec3 -> list R ->
    FlowField -> list R * list R * list R;
  (* self.wake.velocity_model.calculate_VW, when the model has it *)
  calculate_VW :
    option (Wake -> list R -> list R -> Vec3 -> Turbine -> FlowField ->
            list R -> list R -> list R -> list R * list R);
  deflection_function :
    Wake -> list R -> list R -> list R -> Turbine -> Vec3 -> FlowField ->
    list R;
  turbulence_function : Wake -> R -> Vec3 -> Vec3 -> Turbine -> R;
  combination_function : Wake -> list R -> list R -> list R;
  (* Turbine.update_velocities: the new [velocities] *)
  updated_velocities :
    Turbine -> list R -> Vec3 -> FlowField -> list R -> list R -> list R ->
    list R;
  (* Turbine.calculate_swept_area_velocities with additional_wind_speed:
     (freestream_velocities, wake_velocities) *)
  calculate_swept_area_velocities :
    Turbine -> list R -> Vec3 -> list R -> list R -> list R -> list R ->
    list R * list R;
  (* TurbineMap.rotated(angles, center): the coordinates of the receiver
     after the call (it stores x1prime, x2prime in them) and those of the
     map returned *)
  rotated : list R -> Vec3 -> list Vec3 -> list Vec3 * list Vec3;
  (* TurbineMap.sorted_in_x_as_list, on (coordinate, turbine reference) *)
  sorted_in_x_as_list : list (Vec3 * nat) -> list (Vec3 * nat);
  (* FlowField methods that are not in the sources *)
  _rotated_dir :
    list R -> Vec3 -> list Vec3 -> FlowField -> list R * list R * list R;
  _rotated_grid : list R -> Vec3 -> FlowField -> list R * list R * list R;
  set_bounds : option (list R) -> FlowField -> FlowField;
  _compute_initialized_domain :
    option Vec3 -> option (list R * list R * list R) -> FlowField ->
    FlowField;
  (* the float power a ** b *)
  np_power : R -> R -> R
}.

Context `{Collaborators}.

(** Modelled from the spec: [Turbine.reset_velocities] is not part of
    the sources; it resets the turbine's internal velocity accumulator,
    one zero for each of its grid points. *)
Definition reset_velocities (t : Turbine) : Turbine :=
  set_velocities (replicate (Z.to_nat (grid_point_count t)) 0) t.

(** [turbine.update_velocities(u_wake, coord, self, x, y, z)] *)
Definition update_velocities (k : nat) (u_wake : list R) (coord : Vec3)
    (rx ry rz : list R) : M unit :=
  turbine ← get_turbine k;
  ff ← get;
  modify_turbine k
    (set_velocities (updated_velocities turbine u_wake coord ff rx ry rz)).

(** ** Methods of [FlowField] *)

Definition reset_uvw (ff : FlowField) : FlowField :=
  set_uvw (u_initial ff) (v_initial ff) (w_initial ff) ff.

Definition _compute_turbine_velocity_deficit (rx ry rz : list R)
    (turbine : Turbine) (coord : Vec3) (deflection : list R)
    (flow_field : FlowField) : list R * list R * list R :=
  let '(u_deficit, v_deficit, w_deficit) :=
    velocity_function (wake flow_field) rx ry rz turbine coord deflection
                      flow_field in
  match calculate_VW with
  | Some vw =>
      let '(v_deficit, w_deficit) :=
        vw (wake flow_field) v_deficit w_deficit coord turbine flow_field
           rx ry rz in
      (u_deficit, v_deficit, w_deficit)
  | None => (u_deficit, v_deficit, w_deficit)
  end.

Definition _compute_turbine_wake_turbulence (flow_field : FlowField)
    (ambient_TI : R) (coord_ti turbine_coord : Vec3) (turbine : Turbine)
    : R :=
  turbulence_function (wake flow_field) ambient_TI coord_ti turbine_coord
                      turbine.

Definition _compute_turbine_wake_deflection (rx ry rz : list R)
    (turbine : Turbine) (coord : Vec3) (flow_field : FlowField) : list R :=
  deflection_function (wake flow_field) rx ry rz turbine coord flow_field.

(** [count] is a numpy integer, [turbine.grid_point_count] a Python
    integer; [/] converts both sides to float. The method does not touch
    the object; [None] stands for the [ValueError] of the subtraction. *)
Definition _calculate_area_overlap (wake_velocities freestream_velocities
    : list R) (turbine : Turbine) : option R :=
  diffs ← np_sub freestream_velocities wake_velocities;
  let count := np_count_true ((fun d => bool_decide (d <= 0.05)) <$> diffs) in
  Some (IZR (grid_point_count turbine - count)
        / IZR (grid_point_count turbine)).

Definition initialize_velocities : M unit :=
  ff ← get;
  u0 ← np_result
         (np_mul (grid_wind_speed (wind_map ff))
                 ((fun zi => np_power (zi / reference_wind_height ff)
                                      (wind_shear ff)) <$> z ff));
  let v0 := np_zeros_like u0 in
  let w0 := np_zeros_like u0 in
  modify (set_uvw_initial u0 v0 w0);;
  modify (set_uvw u0 v0 w0).

(** The loop that both [reinitialize_flow_field] and [calculate_wake]
    run over [enumerate(self.turbine_map.turbines)]. *)
Definition reinitialize_turbines : M unit :=
  ff ← get;
  for_each (fun _ i =>
      ti ← index (turbine_turbulence_intensity (wind_map ff)) i;
      modify_turbine i
        (fun t => reset_velocities (set_turbulence_intensity ti t)))
    tt (seq 0 (length (turbines ff))).

Definition reinitialize_flow_field
    (wind_shear' wind_veer' : option R) (wake' : option Wake)
    (wind_map' : option WindMap) (with_resolution : option Vec3)
    (bounds_to_set : option (list R))
    (reference_wind_height' reference_turbine_diameter' : option R)
    : M unit :=
  (* reset the given parameters *)
  modify (fun ff =>
    set_parameters
      (default (wind_shear ff) wind_shear')
      (default (wind_veer ff) wind_veer')
      (default (reference_wind_height ff) reference_wind_height')
      (default (reference_turbine_diameter ff) reference_turbine_diameter')
      (default (wake ff) wake')
      (default (wind_map ff) wind_map') ff);;
  ff ← get;
  let with_resolution :=
    match with_resolution with
    | Some r => Some r
    | None => velocity_model_grid_resolution (wake ff)
    end in
  modify (set_bounds bounds_to_set);;
  modify (_compute_initialized_domain with_resolution None);;
  reinitialize_turbines.

(** *** [calculate_wake] *)

(** [int(np.where(np.logical_and(yloc, xloc))[0])]: [int] accepts an
    array of exactly one element. *)
Definition index_of (rx ry : list R) (coord : Vec3) : M nat :=
  match np_where_both 0 rx ry (x1 coord) (x2 coord) with
  | [idx] => mret idx
  | _ => raise TypeError
  end.

(** The center of rotation, with reference to 270 deg as center of the
    flow field. *)
Definition center_of_rotation_of : M Vec3 :=
  ff ← get;
  match np_min (x ff), np_max (x ff), np_min (y ff), np_max (y ff) with
  | Some xmin, Some xmax, Some ymin, Some ymax =>
      mret (Vec3_new ((xmin + xmax) / 2) ((ymin + ymax) / 2) 0)
  | _, _, _, _ => raise ValueError
  end.

(** The grid seen from the current turbine: rotated once for a
    homogeneous wind direction, adjusted for each turbine otherwise. *)
Definition rotated_grid_for (center_of_rotation : Vec3) (rx ry : list R)
    (initial_rotated_x initial_rotated_y : list R) (idx : nat)
    : M (list R * list R) :=
  ff ← get;
  if np_unique_size_is_1 (grid_wind_direction (wind_map ff)) then
    mret (initial_rotated_x, initial_rotated_y)
  else
    twd ← index (turbine_wind_direction (wind_map ff)) idx;
    let wd := (fun g => twd - g) <$> grid_wind_direction (wind_map ff) in
    rx_idx ← index rx idx;
    ry_idx ← index ry idx;
    let xoffset := x1 center_of_rotation - rx_idx in
    let yoffset := x2 center_of_rotation - ry_idx in
    let y_grid_offset :=
      (fun a => xoffset * sind a + yoffset * cosd a - yoffset) <$> wd in
    rotated_y ← np_result (np_sub initial_rotated_y y_grid_offset);
    let xoffsets := (fun a => x1 center_of_rotation - a) <$> initial_rotated_x in
    let yoffsets := (fun a => x2 center_of_rotation - a) <$> initial_rotated_y in
    x_grid_offset ← np_result (
      a ← np_mul xoffsets (cosd <$> wd);
      b ← np_mul yoffsets (sind <$> wd);
      c ← np_sub a b;
      np_sub c xoffsets);
    rotated_x ← np_result (np_sub initial_rotated_x x_grid_offset);
    mret (rotated_x, rotated_y).

(** The test of the turbulence model's name. *)
Definition turbulence_model_allowed (wk : Wake) : bool :=
  bool_decide ("crespo_hernandez"%string = turbulence_model_string wk)
  || bool_decide (turbulence_model_string wk = "ishihara_qian"%string).

(** The test that places [coord_ti] in the wake of the turbine at
    [coord], of rotor diameter [rotor_diameter]. *)
Definition in_influence_zone (coord coord_ti : Vec3) (rotor_diameter : R)
    : Prop :=
  let downstream_influence_length := 15 * rotor_diameter in
  x1 coord_ti > x1 coord
  /\ Rabs (x2 coord - x2 coord_ti) < 2 * rotor_diameter
  /\ x1 coord_ti <= downstream_influence_length + x1 coord.

#[global] Instance in_influence_zone_dec coord coord_ti rotor_diameter :
  Decision (in_influence_zone coord coord_ti rotor_diameter).
Proof. unfold in_influence_zone. apply _. Defined.

(** The new turbulence intensity of the downstream turbine. *)
Definition updated_turbulence_intensity (ti_added ambient current : R) : R :=
  Rmax (sqrt (ti_added ^ 2 + ambient ^ 2)) current.

(** The local variables of [calculate_wake] that are fixed when its
    loop over the sorted turbines starts. *)
Record WakeLocals := mkWakeLocals {
  center_of_rotation : Vec3;
  sorted_map : list (Vec3 * nat);
  rx : list R;
  ry : list R;
  initial_rotated_x : list R;
  initial_rotated_y : list R;
  rotated_z : list R
}.

(** The area overlap of the wake of [turbine], of u-deficit
    [turb_u_wake], on the swept area of [turbine_ti] at [coord_ti];
    [None] stands for the [ValueError] of a subtraction. *)
Definition area_overlap_on (ff : FlowField) (rotated_x rotated_y rotated_z
    : list R) (turb_u_wake : list R) (turbine : Turbine) (coord_ti : Vec3)
    (turbine_ti : Turbine) : option R :=
  (* only assess the effects of the current wake *)
  additional_wind_speed ← np_sub (u_initial ff) turb_u_wake;
  let '(freestream_velocities, wake_velocities) :=
    calculate_swept_area_velocities turbine_ti (u_initial ff) coord_ti
      rotated_x rotated_y rotated_z additional_wind_speed in
  _calculate_area_overlap wake_velocities freestream_velocities turbine.

(** The body of the inner loop over [sorted_map]: the wake of the
    turbine [k] at [coord], of u-deficit [turb_u_wake], on the turbine
    [k_ti] at [coord_ti]. *)
Definition propagate_turbulence_to (track_n_upstream_wakes : bool)
    (lc : WakeLocals) (rotated_x rotated_y : list R)
    (coord : Vec3) (k : nat) (turb_u_wake : list R)
    (entry : Vec3 * nat) : M unit :=
  let '(coord_ti, k_ti) := entry in
  idx ← index_of (rx lc) (ry lc) coord_ti;
  turbine ← get_turbine k;
  if decide (in_influence_zone coord coord_ti (rotor_diameter turbine)) then
    turbine_ti ← get_turbine k_ti;
    ff ← get;
    area_overlap ← np_result
      (area_overlap_on ff rotated_x rotated_y (rotated_z lc) turb_u_wake
                       turbine coord_ti turbine_ti);
    if decide (area_overlap > 0) then
      ambient ← index (turbine_turbulence_intensity (wind_map ff)) idx;
      let ti_calculation :=
        _compute_turbine_wake_turbulence ff ambient coord_ti coord turbine in
      (* multiply by area overlap *)
      let ti_added := area_overlap * ti_calculation in
      modify_turbine k_ti (fun t =>
        set_turbulence_intensity
          (updated_turbulence_intensity ti_added ambient
                                        (turbulence_intensity t)) t);;
      if track_n_upstream_wakes then
        (* increment by one for each upstream wake *)
        modify (fun ff => set_wake_list (alter S k_ti <$> wake_list ff) ff)
      else mret tt
    else mret tt
  else mret tt.

(** The turbulence step of one turbine, behind the model gate. *)
Definition propagate_turbulence (track_n_upstream_wakes : bool)
    (lc : WakeLocals) (rotated_x rotated_y : list R)
    (coord : Vec3) (k : nat) (turb_u_wake : list R) : M unit :=
  ff ← get;
  if turbulence_model_allowed (wake ff) then
    for_each (fun _ entry =>
        propagate_turbulence_to track_n_upstream_wakes lc
          rotated_x rotated_y coord k turb_u_wake entry)
      tt (sorted_map lc)
  else mret tt.

(** The body of the loop over [sorted_map] up to the combination: it
    returns the deficit of the current turbine. *)
Definition turbine_wake (track_n_upstream_wakes : bool) (lc : WakeLocals)
    (u_wake : list R) (entry : Vec3 * nat)
    : M (list R * list R * list R) :=
  let '(coord, k) := entry in
  idx ← index_of (rx lc) (ry lc) coord;
  '(rotated_x, rotated_y) ←
    rotated_grid_for (center_of_rotation lc) (rx lc) (ry lc)
                     (initial_rotated_x lc) (initial_rotated_y lc) idx;
  (* update the turbine based on the velocity at its hub *)
  update_velocities k u_wake coord rotated_x rotated_y (rotated_z lc);;
  (* get the wake deflection field *)
  turbine ← get_turbine k;
  ff ← get;
  let deflection :=
    _compute_turbine_wake_deflection rotated_x rotated_y (rotated_z lc)
                                     turbine coord ff in
  (* get the velocity deficit accounting for the deflection *)
  let '(turb_u_wake, turb_v_wake, turb_w_wake) :=
    _compute_turbine_velocity_deficit rotated_x rotated_y (rotated_z lc)
                                      turbine coord deflection ff in
  propagate_turbulence track_n_upstream_wakes lc rotated_x rotated_y
                       coord k turb_u_wake;;
  mret (turb_u_wake, turb_v_wake, turb_w_wake).

(** Storing the lateral and vertical components of a turbine's wake:
    [self.v] is assigned before the sum for [self.w] is computed. *)
Definition store_vw (turb_v_wake turb_w_wake : list R) : M unit :=
  ff ← get;
  if bool_decide (velocity_model_string (wake ff) = "curl"%string) then
    modify (set_uvw (u ff) turb_v_wake turb_w_wake)
  else
    v' ← np_result (np_add (v ff) turb_v_wake);
    modify (fun ff => set_uvw (u ff) v' (w ff) ff);;
    ff ← get;
    w' ← np_result (np_add (w ff) turb_w_wake);
    modify (fun ff => set_uvw (u ff) (v ff) w' ff).

(** One iteration of the loop over [sorted_map]; [u_wake] is the
    loop's local variable. *)
Definition wake_loop_body (no_wake track_n_upstream_wakes : bool)
    (lc : WakeLocals) (u_wake : list R) (entry : Vec3 * nat) : M (list R) :=
  '(turb_u_wake, turb_v_wake, turb_w_wake) ←
    turbine_wake track_n_upstream_wakes lc u_wake entry;
  (* combine this turbine's wake into the full wake field *)
  if no_wake then mret u_wake
  else
    ff ← get;
    store_vw turb_v_wake turb_w_wake;;
    mret (combination_function (wake ff) u_wake turb_u_wake).

(** [calculate_wake] up to the center of rotation: the resets of the
    velocities, of the wake counters and of the turbines. *)
Definition begin_wake (points : option (list R * list R * list R))
    (track_n_upstream_wakes : bool) : M unit :=
  ff ← get;
  (if velocity_model_grid_resolution (wake ff) is Some _
   then modify reset_uvw else mret tt);;
  (if points is Some _
   (* add points to flow field grid points *)
   then modify (_compute_initialized_domain None points) else mret tt);;
  (if track_n_upstream_wakes
   (* keep track of the wakes upstream of each turbine *)
   then modify (fun ff =>
          set_wake_list (Some ((fun _ => 0%nat) <$> turbines ff)) ff)
   else mret tt);;
  (* reinitialize the turbines *)
  reinitialize_turbines.

(** [calculate_wake] from there to its loop: the rotation of the farm
    and of the grid, the sorting. *)
Definition rotate_farm : M WakeLocals :=
  center ← center_of_rotation_of;
  (* rotate the turbines into the frame of the wind direction *)
  ff ← get;
  let '(own_coords, rotated_coords) :=
    rotated (turbine_wind_direction (wind_map ff)) center (coords ff) in
  modify (set_coords own_coords);;
  (* rotate the discrete grid and turbine map *)
  ff ← get;
  let '(initial_rotated_x, initial_rotated_y, rotated_z) :=
    _rotated_dir (grid_wind_direction (wind_map ff)) center
                 rotated_coords ff in
  (* sort the turbine map *)
  let sorted_map :=
    sorted_in_x_as_list (zip rotated_coords (seq 0 (length (turbines ff)))) in
  (* empty the stored variables of v and w *)
  modify (set_uvw (u ff) (np_zeros_like (u ff)) (np_zeros_like (u ff)));;
  mret (mkWakeLocals center sorted_map
          (x1prime <$> own_coords) (x2prime <$> own_coords)
          initial_rotated_x initial_rotated_y rotated_z).

Definition prepare_wake (points : option (list R * list R * list R))
    (track_n_upstream_wakes : bool) : M WakeLocals :=
  begin_wake points track_n_upstream_wakes;;
  rotate_farm.

(** [calculate_wake] after its loop. *)
Definition finish_wake (no_wake : bool) (lc : WakeLocals) (u_wake : list R)
    : M unit :=
  (* apply the velocity deficit field to the freestream *)
  (if no_wake then mret tt
   else
     ff ← get;
     u' ← np_result (np_sub (u_initial ff) u_wake);
     modify (set_uvw u' (v ff) (w ff)));;
  (* rotate the grid if it is curl *)
  ff ← get;
  if bool_decide (velocity_model_string (wake ff) = "curl"%string) then
    let '(x', y', z') :=
      _rotated_grid ((fun g => -1 * g) <$> grid_wind_direction (wind_map ff))
                    (center_of_rotation lc) ff in
    modify (set_xyz x' y' z')
  else mret tt.

Definition calculate_wake (no_wake : bool)
    (points : option (list R * list R * list R))
    (track_n_upstream_wakes : bool) : M unit :=
  lc ← prepare_wake points track_n_upstream_wakes;
  ff ← get;
  u_wake ← for_each (wake_loop_body no_wake track_n_upstream_wakes lc)
                    (np_zeros_like (u ff)) (sorted_map lc);
  finish_wake no_wake lc u_wake.

(** ** Specification vocabulary *)

(** Weakest preconditions.

    [wp m Q E ff]: run from [ff], [m] either returns [a] in a state
    that satisfies [Q a] or raises in a state that satisfies [E]. *)
Definition wp {A} (m : M A) (Q : A -> FlowField -> Prop)
    (E : FlowField -> Prop) (ff : FlowField) : Prop :=
  match m ff with
  | Ok a ff' => Q a ff'
  | Raise _ ff' => E ff'
  end.

(** The two writes of the turbulence step. *)
Definition ti_updated (k_ti : nat) (ti_added ambient : R) (ff : FlowField)
    : FlowField :=
  set_turbines
    (alter (fun t => set_turbulence_intensity
                       (updated_turbulence_intensity ti_added ambient
                                                     (turbulence_intensity t))
                       t)
           k_ti (turbines ff)) ff.

Definition wake_counted (k_ti : nat) (ff : FlowField) : FlowField :=
  set_wake_list (alter S k_ti <$> wake_list ff) ff.

(** What the turbulence step knows when it writes: the wake of the
    turbine [k] at [coord] reaches the turbine [k_ti] at [coord_ti]. *)
Record wake_reaches (lc : WakeLocals) (rotated_x rotated_y turb_u_wake
    : list R) (coord : Vec3) (k : nat) (coord_ti : Vec3) (k_ti : nat)
    (ti_added ambient : R) (ff : FlowField) : Prop := {
  reach_allowed : turbulence_model_allowed (wake ff) = true;
  reach_entry : (coord_ti, k_ti) ∈ sorted_map lc;
  reach_zone : exists turbine, turbines ff !! k = Some turbine
    /\ in_influence_zone coord coord_ti (rotor_diameter turbine)
    /\ exists turbine_ti area_overlap,
         turbines ff !! k_ti = Some turbine_ti
         /\ area_overlap_on ff rotated_x rotated_y (rotated_z lc) turb_u_wake
                            turbine coord_ti turbine_ti = Some area_overlap
         /\ area_overlap > 0
         /\ ti_added = area_overlap
              * _compute_turbine_wake_turbulence ff ambient coord_ti coord
                                                 turbine;
  reach_ambient : exists idx,
    np_where_both 0 (rx lc) (ry lc) (x1 coord_ti) (x2 coord_ti) = [idx]
    /\ turbine_turbulence_intensity (wind_map ff) !! idx = Some ambient
}.

(** What the loop over [enumerate(self.turbine_map.turbines)] does to
    one turbine, and to the whole list when the wind map has an entry
    for every turbine. *)
Definition refresh (ti : R) (t : Turbine) : Turbine :=
  reset_velocities (set_turbulence_intensity ti t).

Definition refreshed (tti : list R) (ts : list Turbine) : list Turbine :=
  zip_with refresh tti ts ++ drop (length tti) ts.

(** Two turbines that differ at most in what a call leaves behind: the
    turbulence intensity and the velocity accumulator. *)
Definition same_definition (t t' : Turbine) : Prop :=
  rotor_diameter t = rotor_diameter t'
  /\ grid_point_count t = grid_point_count t'
  /\ definition t = definition t'.

(** Two flow fields that are identical but for the state of their
    turbines. *)
Definition same_engine (ff ff' : FlowField) : Prop :=
  exists ts', ff' = set_turbines ts' ff
              /\ Forall2 same_definition (turbines ff) ts'.

(** The object when [calculate_wake] reaches the loop that
    reinitializes the turbines. *)
Definition before_refresh (points : option (list R * list R * list R))
    (track : bool) (ff : FlowField) : FlowField :=
  let ff1 :=
    if velocity_model_grid_resolution (wake ff) is Some _
    then reset_uvw ff else ff in
  let ff2 :=
    if points is Some _
    then _compute_initialized_domain None points ff1 else ff1 in
  if track
  then set_wake_list (Some ((fun _ => 0%nat) <$> turbines ff2)) ff2
  else ff2.

(** An invariant of everything [calculate_wake] does once the farm is
    rotated: the writes of its loop and of its last lines keep it. *)
Record wake_stable (no_wake track : bool) (lc : WakeLocals)
    (I : FlowField -> Prop) : Prop := {
  stable_velocities : forall ff k vs,
    I ff -> I (set_turbines (alter (set_velocities vs) k (turbines ff)) ff);
  stable_vw : forall ff v' w', I ff -> I (set_uvw (u ff) v' w' ff);
  stable_turbulence :
    forall rotated_x rotated_y turb_u_wake coord k ff coord_ti k_ti
           ti_added ambient,
    (coord, k) ∈ sorted_map lc ->
    wake_reaches lc rotated_x rotated_y turb_u_wake coord k coord_ti k_ti
                 ti_added ambient ff ->
    I ff ->
    I (ti_updated k_ti ti_added ambient ff)
    /\ (track = true ->
        I (wake_counted k_ti (ti_updated k_ti ti_added ambient ff)));
  stable_u : no_wake = false -> forall ff u',
    I ff -> I (set_uvw u' (v ff) (w ff) ff);
  stable_xyz : forall ff x' y' z', I ff -> I (set_xyz x' y' z' ff)
}.

(** The turbulence intensity of the turbine [j], or its counter of
    upstream wakes, differs between two states of the flow field. *)
Definition turbine_changed (j : nat) (ff ff' : FlowField) : Prop :=
  turbulence_intensity <$> turbines ff' !! j
    <> turbulence_intensity <$> turbines ff !! j
  \/ wake_list ff' ≫= (fun wl => wl !! j)
    <> wake_list ff ≫= (fun wl => wl !! j).

(** The flow field when the turbulence step of the turbine [k] at
    [coord] has gone through the entries [pre] of the sorted map and
    examines the next one. *)
Definition turbulence_step_at (track : bool) (lc : WakeLocals)
    (rotated_x rotated_y : list R) (coord : Vec3) (k : nat)
    (turb_u_wake : list R) (pre : list (Vec3 * nat)) (ff : FlowField)
    : FlowField :=
  state_of (for_each (fun _ entry =>
                propagate_turbulence_to track lc rotated_x rotated_y
                                        coord k turb_u_wake entry)
              tt pre ff).

(** No turbine of the sorted map stands in the influence zone of
    another. *)
Definition isolated_turbines (lc : WakeLocals) (ff : FlowField) : Prop :=
  forall coord k coord_ti k_ti turbine,
    (coord, k) ∈ sorted_map lc -> (coord_ti, k_ti) ∈ sorted_map lc ->
    turbines ff !! k = Some turbine ->
    ~ in_influence_zone coord coord_ti (rotor_diameter turbine).

(** The update of the turbulence intensity as the specification words
    it: the root-sum-of-squares of the added turbulence with the
    turbine's existing intensity, or that intensity if it is larger. *)
Definition claimed_turbulence_intensity (ti_added existing : R) : R :=
  Rmax existing (sqrt (ti_added ^ 2 + existing ^ 2)).

(** The u-deficit of each sorted turbine, in the order of the loop of
    [calculate_wake(no_wake=False)]: the loop, with the deficits it
    combines recorded next to [u_wake]. *)
Definition deficit_loop_body (track_n_upstream_wakes : bool)
    (lc : WakeLocals) (acc : list R * list (list R)) (entry : Vec3 * nat)
    : M (list R * list (list R)) :=
  let '(u_wake, deficits) := acc in
  '(turb_u_wake, turb_v_wake, turb_w_wake) ←
    turbine_wake track_n_upstream_wakes lc u_wake entry;
  ff ← get;
  store_vw turb_v_wake turb_w_wake;;
  mret (combination_function (wake ff) u_wake turb_u_wake,
        deficits ++ [turb_u_wake]).

Definition sorted_turbine_deficits (track_n_upstream_wakes : bool)
    (lc : WakeLocals) : M (list (list R)) :=
  ff ← get;
  acc ← for_each (deficit_loop_body track_n_upstream_wakes lc)
                 (np_zeros_like (u ff), []) (sorted_map lc);
  mret acc.2.

(** The ambient velocities as [initialize_velocities] leaves them:
    [v_initial] and [w_initial] are zeros of the shape of [u_initial],
    and [u], [v] and [w] are copies of the three. *)
Definition ambient_initialized (ff : FlowField) : Prop :=
  v_initial ff = replicate (length (u_initial ff)) 0
  /\ w_initial ff = replicate (length (u_initial ff)) 0
  /\ u ff = u_initial ff /\ v ff = v_initial ff /\ w ff = w_initial ff.

(** No turbine has a lower turbulence intensity in [ff2] than in
    [ff1]. *)
Definition intensity_never_decreases (ff1 ff2 : FlowField) : Prop :=
  forall i t1 t2,
    turbines ff1 !! i = Some t1 -> turbines ff2 !! i = Some t2 ->
    turbulence_intensity t1 <= turbulence_intensity t2.

(** [FlowField.__init__]: every parameter is given, and the resolution
    is the one the wake's velocity model declares. *)
Definition __init__ (wind_shear' wind_veer' : R) (wake' : Wake)
    (wind_map' : WindMap)
    (reference_wind_height' reference_turbine_diameter' : R) : M unit :=
  reinitialize_flow_field (Some wind_shear') (Some wind_veer') (Some wake')
    (Some wind_map') (velocity_model_grid_resolution wake') None
    (Some reference_wind_height') (Some reference_turbine_diameter').

(** What the loop of [calculate_wake] keeps of the flow field [ff0] it
    starts from: the number of turbines, the wind map and the shape of
    the velocity fields. *)
Definition same_farm (ff0 s : FlowField) : Prop :=
  length (turbines s) = length (turbines ff0) /\ wind_map s = wind_map ff0.

Definition same_shape (ff0 s : FlowField) : Prop :=
  length (u s) = length (u ff0)
  /\ length (u_initial s) = length (u ff0)
  /\ length (v s) = length (u ff0)
  /\ length (w s) = length (u ff0).

(** The fields that [calculate_wake] combines in its loop have the shape
    of [u]: the ambient velocity [u_initial]; the rotated grid and the
    wind direction of the grid, where the wind direction is not
    homogeneous; the deficits of the velocity model; what the
    combination model returns; and the two samples of a swept area. *)
Record fields_conform (lc : WakeLocals) (ff0 : FlowField) : Prop := {
  conform_initial : length (u_initial ff0) = length (u ff0);
  conform_grid :
    np_unique_size_is_1 (grid_wind_direction (wind_map ff0)) = true
    \/ (length (initial_rotated_x lc)
        = length (grid_wind_direction (wind_map ff0))
        /\ length (initial_rotated_y lc)
           = length (grid_wind_direction (wind_map ff0)));
  conform_deficit : forall rx ry rz turbine coord deflection s,
    length (u s) = length (u ff0) ->
    let deficit :=
      _compute_turbine_velocity_deficit rx ry rz turbine coord deflection s
    in
    length deficit.1.1 = length (u ff0)
    /\ length deficit.1.2 = length (u ff0)
    /\ length deficit.2 = length (u ff0);
  conform_combination : forall wk a b,
    length a = length (u ff0) -> length b = length (u ff0) ->
    length (combination_function wk a b) = length (u ff0);
  conform_swept : forall turbine u_init coord rx ry rz additional,
    length u_init = length additional ->
    let samples :=
      calculate_swept_area_velocities turbine u_init coord rx ry rz
                                      additional in
    length samples.1 = length samples.2
}.


(** The v- and w-deficits of each sorted turbine, in the order of the
    loop of [calculate_wake(no_wake=False)]: the loop, with the deficits
    it stores recorded next to [u_wake]. *)
Definition vw_loop_body (track_n_upstream_wakes : bool)
    (lc : WakeLocals) (acc : list R * list (list R * list R))
    (entry : Vec3 * nat) : M (list R * list (list R * list R)) :=
  let '(u_wake, deficits) := acc in
  '(turb_u_wake, turb_v_wake, turb_w_wake) ←
    turbine_wake track_n_upstream_wakes lc u_wake entry;
  ff ← get;
  store_vw turb_v_wake turb_w_wake;;
  mret (combination_function (wake ff) u_wake turb_u_wake,
        deficits ++ [(turb_v_wake, turb_w_wake)]).

Definition sorted_turbine_vw_deficits (track_n_upstream_wakes : bool)
    (lc : WakeLocals) : M (list (list R * list R)) :=
  ff ← get;
  acc ← for_each (vw_loop_body track_n_upstream_wakes lc)
                 (np_zeros_like (u ff), []) (sorted_map lc);
  mret acc.2.

(** The sum of an array and of the arrays of a list, added one after
    the other. *)
Definition np_add_all (init : list R) (deficits : list (list R))
    : option (list R) :=
  foldl (fun acc d => a ← acc; np_add a d) (Some init) deficits.

(** What the loop leaves in [v] or [w], from what was there and the
    deficits of the turbines: the last deficit with the curl model, the
    sum of all of them otherwise. *)
Definition stored_deficit (wk : Wake) (init : list R)
    (deficits : list (list R)) : option (list R) :=
  if bool_decide (velocity_model_string wk = "curl"%string)
  then Some (default init (last deficits))
  else np_add_all init deficits.

(** What [calculate_wake(no_wake=True)], called without extra points,
    leaves in [u]. *)
Definition u_without_wakes (ff : FlowField) : list R :=
  if velocity_model_grid_resolution (wake ff) is Some _
  then u_initial ff else u ff.

End Engine.

Arguments Ok {Cfg A} a ff.
Arguments Raise {Cfg A} e ff.

(** * A small farm

    Three turbines in a row, 500 m apart, of rotor diameter 100 m, and a
    grid of one point; the wind comes from 270 deg, so that no rotation
    is needed. Every turbine takes 1 m/s out of the flow (linear
    superposition); a turbine samples the flow at the grid point; the
    turbulence a turbine adds falls with its own inflow. *)
Module Toy.

Definition collaborators : @Collaborators unit := {|
  velocity_function := fun _ _ _ _ _ _ _ _ => ([1], [0], [0]);
  calculate_VW := None;
  deflection_function := fun _ _ _ _ _ _ _ => [0];
  turbulence_function := fun _ _ _ _ turbine =>
    (10 - hd 0 (velocities turbine)) / 100;
  combination_function := fun _ a b => zip_with Rplus a b;
  updated_velocities := fun _ u_wake _ ff _ _ _ =>
    zip_with Rminus (u_initial ff) u_wake;
  calculate_swept_area_velocities := fun _ u_init _ _ _ _ additional =>
    (u_init, additional);
  rotated := fun _ _ cs => (cs, cs);
  sorted_in_x_as_list := fun items => items;
  _rotated_dir := fun _ _ _ ff => (x ff, y ff, z ff);
  _rotated_grid := fun _ _ ff => (x ff, y ff, z ff);
  set_bounds := fun _ ff => ff;
  _compute_initialized_domain := fun _ _ ff => ff;
  np_power := Rpower
|}.

Definition turbine (ti : R) (vs : list R) : @Turbine unit :=
  mkTurbine ti 100 1 vs tt.

Definition wake_models (turbulence_model : string) : Wake :=
  mkWake None "gauss" turbulence_model [].

Definition wind : WindMap := mkWindMap [8] [270] [270; 270; 270] [0; 0; 0].

Definition layout : list Vec3 :=
  [Vec3_new 0 0 90; Vec3_new 500 0 90; Vec3_new 1000 0 90].

(** Two turbines at one place. *)
Definition layout_twice : list Vec3 :=
  [Vec3_new 0 0 90; Vec3_new 0 0 90].

(** The farm with the given turbulence model, turbine coordinates,
    turbines, velocity arrays and wake counters. *)
Definition farm (turbulence_model : string) (cs : list Vec3)
    (ts : list (@Turbine unit)) (u' v' w' : list R)
    (wl : option (list nat)) : @FlowField unit :=
  mkFlowField 0 0 90 100 (wake_models turbulence_model) wind [0] [0] [90]
              u' v' w' [8] [0] [0] cs ts wl.

(** What [calculate_wake] fixes before its loop, for [layout]. *)
Definition locals (cs : list Vec3) : WakeLocals :=
  mkWakeLocals (Vec3_new ((0 + 0) / 2) ((0 + 0) / 2) 0)
               (zip cs (seq 0 (length cs)))
               (x1prime <$> cs) (x2prime <$> cs) [0] [0] [90].

(** The farm as built, after [calculate_wake()], and after
    [calculate_wake(no_wake=True)]. *)
Definition start : @FlowField unit :=
  farm "crespo_hernandez" layout
       [turbine 0 [0]; turbine 0 [0]; turbine 0 [0]] [8] [0] [0] None.

Definition after_wake : @FlowField unit :=
  farm "crespo_hernandez" layout
       [turbine 0 [8]; turbine 0.02 [7]; turbine 0.03 [6]] [5] [0] [0] None.

Definition after_no_wake : @FlowField unit :=
  farm "crespo_hernandez" layout
       [turbine 0 [8]; turbine 0.02 [8]; turbine 0.02 [8]] [5] [0] [0] None.

(** The farm inside [calculate_wake()], when the wake of the second
    turbine is about to be propagated to the third, and just after. *)
Definition before_second_wake : @FlowField unit :=
  farm "crespo_hernandez" layout
       [turbine 0 [8]; turbine 0.02 [7]; turbine 0.02 [0]] [8] [0] [0] None.

Definition after_second_wake : @FlowField unit :=
  farm "crespo_hernandez" layout
       [turbine 0 [8]; turbine 0.02 [7]; turbine 0.03 [0]] [8] [0] [0] None.


(** A turbine with two swept-area sample points. *)
Definition turbine_of_two : @Turbine unit := mkTurbine 0 100 2 [0; 0] tt.

(** The farm on a grid of three points, at heights of 45, 90 and 180 m,
    where the wind map holds wind speeds of 8, 9 and 10 m/s. *)
Definition tall : @FlowField unit :=
  mkFlowField 0 0 90 100 (wake_models "crespo_hernandez")
              (mkWindMap [8; 9; 10] [270; 270; 270] [270; 270; 270]
                         [0; 0; 0])
              [0; 0; 0] [0; 0; 0] [45; 90; 180]
              [8; 9; 10] [0; 0; 0] [0; 0; 0] [8; 9; 10] [0; 0; 0] [0; 0; 0]
              layout [turbine 0 [0]; turbine 0 [0]; turbine 0 [0]] None.

(** The farm after [calculate_wake(track_n_upstream_wakes=True)]: the
    second turbine stands in one wake, the third in two. *)
Definition after_counted_wake : @FlowField unit :=
  farm "crespo_hernandez" layout
       [turbine 0 [8]; turbine 0.02 [7]; turbine 0.03 [6]] [5] [0] [0]
       (Some [0; 1; 2]%nat).

(** The farm with a wind map that holds the turbulence intensity of two
    turbines only, without a grid, and with a velocity model that
    declares a grid resolution. *)
Definition short_of_intensities : @FlowField unit :=
  mkFlowField 0 0 90 100 (wake_models "crespo_hernandez")
              (mkWindMap [8] [270] [270; 270; 270] [0; 0]) [0] [0] [90]
              [8] [0] [0] [8] [0] [0] layout
              [turbine 0 [0]; turbine 0 [0]; turbine 0 [0]] None.

(** The same farm with the third turbine as an earlier call, under
    another wind map, has left it. *)
Definition short_of_intensities_stale : @FlowField unit :=
  mkFlowField 0 0 90 100 (wake_models "crespo_hernandez")
              (mkWindMap [8] [270] [270; 270; 270] [0; 0]) [0] [0] [90]
              [8] [0] [0] [8] [0] [0] layout
              [turbine 0 [0]; turbine 0 [0]; turbine 0.5 [6]] None.

Definition without_grid : @FlowField unit :=
  mkFlowField 0 0 90 100 (wake_models "crespo_hernandez") wind [] [] []
              [] [] [] [] [] [] layout
              [turbine 0 [0]; turbine 0 [0]; turbine 0 [0]] None.

Definition gridded : @FlowField unit :=
  mkFlowField 0 0 90 100
              (mkWake (Some (Vec3_new 10 10 10)) "curl" "crespo_hernandez" [])
              wind [0] [0] [90] [8] [0] [0] [8] [0] [0] layout
              [turbine 0 [0]; turbine 0 [0]; turbine 0 [0]] None.

(** The farm on a grid of two points, with a wind direction that veers
    by 10 deg from the first to the second. *)
Definition veering : @FlowField unit :=
  mkFlowField 0 0 90 100 (wake_models "crespo_hernandez")
              (mkWindMap [8; 8] [270; 280] [270; 270; 270] [0; 0; 0])
              [0; 100] [0; 0] [90; 90]
              [8; 8] [0; 0] [0; 0] [8; 8] [0; 0] [0; 0] layout
              [turbine 0 [0]; turbine 0 [0]; turbine 0 [0]] None.

End Toy.


(** * Reasoning about the methods *)

Section EngineTheory.

Context {Cfg : Type} `{!@Collaborators Cfg}.

#[local] Abbreviation FlowField := (@FlowField Cfg).
#[local] Abbreviation Turbine := (@Turbine Cfg).
#[local] Abbreviation M := (@M Cfg).

(** ** Weakest preconditions *)

Lemma wp_ret {A} (a : A) (Q : A -> FlowField -> Prop) E ff :
  Q a ff -> wp (mret a) Q E ff.
Proof. done. Qed.

Lemma wp_raise {A} e (Q : A -> FlowField -> Prop) E ff :
  E ff -> wp (raise e) Q E ff.
Proof. done. Qed.

Lemma wp_get (Q : FlowField -> FlowField -> Prop) E ff :
  Q ff ff -> wp get Q E ff.
Proof. done. Qed.

Lemma wp_modify f (Q : unit -> FlowField -> Prop) E ff :
  Q tt (f ff) -> wp (modify f) Q E ff.
Proof. done. Qed.

Lemma wp_bind {A B} (m : M A) (k : A -> M B)
    (Q : B -> FlowField -> Prop) E ff :
  wp m (fun a ff' => wp (k a) Q E ff') E ff -> wp (m ≫= k) Q E ff.
Proof.
  unfold wp, mbind, M_bind. by destruct (m ff).
Qed.

Lemma wp_mono {A} (m : M A) (Q Q' : A -> FlowField -> Prop)
    (E E' : FlowField -> Prop) ff :
  wp m Q E ff ->
  (forall a ff', Q a ff' -> Q' a ff') ->
  (forall ff', E ff' -> E' ff') ->
  wp m Q' E' ff.
Proof.
  unfold wp. destruct (m ff); auto.
Qed.

Lemma wp_for_each {A B} (body : B -> A -> M B) (I : B -> FlowField -> Prop)
    E (l : list A) :
  (forall acc a ff, a ∈ l -> I acc ff -> wp (body acc a) I E ff) ->
  forall acc ff, I acc ff -> wp (for_each body acc l) I E ff.
Proof.
  induction l as [|a l IH]; intros Hbody acc ff HI; simpl.
  - by apply wp_ret.
  - apply wp_bind.
    eapply wp_mono; [apply Hbody; [left | done] | | done].
    intros acc' ff' HI'. apply IH; [|done].
    intros ??? Hin. apply Hbody. by right.
Qed.

Lemma wp_index {A} (a : list A) i (Q : A -> FlowField -> Prop) E ff :
  (forall r, a !! i = Some r -> Q r ff) -> E ff -> wp (index a i) Q E ff.
Proof.
  intros HQ HE. unfold index. destruct (a !! i); [by apply wp_ret; auto|done].
Qed.

Lemma wp_get_turbine k (Q : Turbine -> FlowField -> Prop) E ff :
  (forall t, turbines ff !! k = Some t -> Q t ff) -> E ff ->
  wp (get_turbine k) Q E ff.
Proof.
  intros HQ HE. unfold get_turbine, wp, mbind, M_bind, get.
  destruct (turbines ff !! k); simpl; auto.
Qed.

Lemma wp_index_of rx ry coord (Q : nat -> FlowField -> Prop) E ff :
  (forall idx, np_where_both 0 rx ry (x1 coord) (x2 coord) = [idx] ->
               Q idx ff) ->
  E ff -> wp (index_of rx ry coord) Q E ff.
Proof.
  intros HQ HE. unfold index_of.
  destruct (np_where_both _ _ _ _ _) as [|? [|]]; try done.
  by apply wp_ret, HQ.
Qed.

Lemma wp_np_result {A} (r : option A) (Q : A -> FlowField -> Prop) E ff :
  (forall a, r = Some a -> Q a ff) -> E ff -> wp (np_result r) Q E ff.
Proof.
  intros HQ HE. unfold np_result. destruct r; [by apply wp_ret; auto|done].
Qed.

(** One syntax-directed step. *)
Ltac wp_step :=
  cbv beta;
  lazymatch goal with
  | |- wp (mret _) _ _ _ => apply wp_ret
  | |- wp (raise _) _ _ _ => apply wp_raise
  | |- wp get _ _ _ => apply wp_get
  | |- wp (modify _) _ _ _ => apply wp_modify
  | |- wp (modify_turbine _ _) _ _ _ => apply wp_modify
  | |- wp (mbind _ _) _ _ _ => apply wp_bind
  | |- wp (index _ _) _ _ _ => apply wp_index; [intros ? ?|]
  | |- wp (get_turbine _) _ _ _ => apply wp_get_turbine; [intros ? ?|]
  | |- wp (index_of _ _ _) _ _ _ => apply wp_index_of; [intros ? ?|]
  | |- wp (np_result _) _ _ _ => apply wp_np_result; [intros ? ?|]
  | |- wp (if ?b then _ else _) _ _ _ => destruct b eqn:?
  | |- wp (match ?b with _ => _ end) _ _ _ => destruct b eqn:?
  end.

(** ** Invariants of the loops of [calculate_wake] *)

Section TurbulenceInvariant.

Variables (track : bool) (lc : WakeLocals) (I : FlowField -> Prop).
Variables (rotated_x rotated_y turb_u_wake : list R).
Variables (coord : Vec3) (k : nat).

Hypothesis I_turbulence : forall ff coord_ti k_ti ti_added ambient,
  wake_reaches lc rotated_x rotated_y turb_u_wake coord k coord_ti k_ti
               ti_added ambient ff ->
  I ff ->
  I (ti_updated k_ti ti_added ambient ff)
  /\ (track = true ->
      I (wake_counted k_ti (ti_updated k_ti ti_added ambient ff))).

Lemma propagate_turbulence_to_invariant entry ff :
  entry ∈ sorted_map lc ->
  turbulence_model_allowed (wake ff) = true -> I ff ->
  wp (propagate_turbulence_to track lc rotated_x rotated_y coord k
                              turb_u_wake entry)
     (fun _ ff' => I ff' /\ turbulence_model_allowed (wake ff') = true)
     (fun ff' => I ff' /\ turbulence_model_allowed (wake ff') = true) ff.
Proof.
  intros Hin Hgate HI. destruct entry as [coord_ti k_ti].
  unfold propagate_turbulence_to.
  repeat wp_step; try done.
  all: edestruct (I_turbulence ff coord_ti k_ti) as [Hti Hwl];
    [split; eauto 12 | done | ]; auto.
Qed.

Lemma propagate_turbulence_invariant ff :
  I ff ->
  wp (propagate_turbulence track lc rotated_x rotated_y coord k turb_u_wake)
     (fun _ => I) I ff.
Proof.
  intros HI. unfold propagate_turbulence.
  repeat wp_step; try done.
  set (J := fun ff' : FlowField =>
              I ff' /\ turbulence_model_allowed (wake ff') = true).
  apply (wp_mono _ (fun _ => J) _ J); [|by intros ?? []|by intros ? []].
  apply (wp_for_each _ (fun _ => J)); [|done].
  intros _ entry ff' Hin [HI' Hgate].
  by apply propagate_turbulence_to_invariant.
Qed.

End TurbulenceInvariant.

(** [rotated_grid_for] and [center_of_rotation_of] only read. *)
Lemma wp_rotated_grid_for center rx ry irx iry idx
    (Q : list R * list R -> FlowField -> Prop) E ff :
  (forall r, Q r ff) -> E ff ->
  wp (rotated_grid_for center rx ry irx iry idx) Q E ff.
Proof.
  intros HQ HE. unfold rotated_grid_for. repeat wp_step; auto.
Qed.

Lemma wp_center_of_rotation_of (Q : Vec3 -> FlowField -> Prop) E ff :
  (forall c, Q c ff) -> E ff -> wp center_of_rotation_of Q E ff.
Proof.
  intros HQ HE. unfold center_of_rotation_of. repeat wp_step; auto.
Qed.

Section WakeLoopInvariant.

Variables (track : bool) (lc : WakeLocals) (I : FlowField -> Prop).

Hypothesis I_velocities : forall ff k vs,
  I ff -> I (set_turbines (alter (set_velocities vs) k (turbines ff)) ff).

Hypothesis I_vw : forall ff v' w', I ff -> I (set_uvw (u ff) v' w' ff).

Hypothesis I_turbulence :
  forall rotated_x rotated_y turb_u_wake coord k ff coord_ti k_ti
         ti_added ambient,
  (coord, k) ∈ sorted_map lc ->
  wake_reaches lc rotated_x rotated_y turb_u_wake coord k coord_ti k_ti
               ti_added ambient ff ->
  I ff ->
  I (ti_updated k_ti ti_added ambient ff)
  /\ (track = true ->
      I (wake_counted k_ti (ti_updated k_ti ti_added ambient ff))).

Lemma turbine_wake_invariant u_wake entry ff :
  entry ∈ sorted_map lc -> I ff ->
  wp (turbine_wake track lc u_wake entry) (fun _ => I) I ff.
Proof.
  intros Hin HI. destruct entry as [coord k]. unfold turbine_wake.
  wp_step. wp_step; [|done]. wp_step.
  apply wp_rotated_grid_for; [|done]. intros [rotated_x rotated_y].
  unfold update_velocities.
  repeat wp_step; try done; try by apply I_velocities.
  all: eapply wp_mono;
    [apply propagate_turbulence_invariant; [|by apply I_velocities]
    | done | done].
  all: intros; by eapply I_turbulence.
Qed.

Lemma wake_loop_invariant no_wake u_wake ff :
  I ff ->
  wp (for_each (wake_loop_body no_wake track lc) u_wake (sorted_map lc))
     (fun _ => I) I ff.
Proof.
  apply (wp_for_each _ (fun _ => I)).
  intros acc entry ff' Hin HI. unfold wake_loop_body.
  wp_step. eapply wp_mono; [by apply turbine_wake_invariant| |done].
  intros [[tu tv] tw] ff1 HI1. cbv beta iota. unfold store_vw.
  repeat wp_step; try done; by repeat apply I_vw.
Qed.

End WakeLoopInvariant.

Section PrepareInvariant.

Variables (points : option (list R * list R * list R)) (track : bool).
Variable (I : FlowField -> Prop).

Hypothesis I_reset : forall ff, I ff -> I (reset_uvw ff).
Hypothesis I_points : forall ff,
  is_Some points -> I ff -> I (_compute_initialized_domain None points ff).
Hypothesis I_wake_list : forall ff,
  track = true -> I ff ->
  I (set_wake_list (Some ((fun _ => 0%nat) <$> turbines ff)) ff).
Hypothesis I_refresh : forall ff i ti,
  I ff ->
  I (set_turbines
       (alter (fun t => reset_velocities (set_turbulence_intensity ti t)) i
              (turbines ff)) ff).
Hypothesis I_coords : forall ff cs, I ff -> I (set_coords cs ff).
Hypothesis I_vw : forall ff v' w', I ff -> I (set_uvw (u ff) v' w' ff).

Lemma reinitialize_turbines_invariant ff :
  I ff -> wp reinitialize_turbines (fun _ => I) I ff.
Proof.
  intros HI. unfold reinitialize_turbines. wp_step. wp_step.
  apply (wp_for_each _ (fun _ => I)); [|done].
  intros _ i ff' _ HI'. repeat wp_step; auto.
Qed.

Lemma begin_wake_invariant ff :
  I ff -> wp (begin_wake points track) (fun _ => I) I ff.
Proof.
  intros HI. unfold begin_wake.
  wp_step. wp_step. wp_step.
  apply (wp_mono _ (fun _ => I) _ I); [repeat wp_step; auto| |done].
  intros _ ff1 HI1. wp_step.
  apply (wp_mono _ (fun _ => I) _ I); [repeat wp_step; auto| |done].
  intros _ ff2 HI2. wp_step.
  apply (wp_mono _ (fun _ => I) _ I); [repeat wp_step; auto| |done].
  intros _ ff3 HI3. by apply reinitialize_turbines_invariant.
Qed.

Lemma rotate_farm_invariant ff :
  I ff -> wp rotate_farm (fun _ => I) I ff.
Proof.
  intros HI. unfold rotate_farm. wp_step.
  apply wp_center_of_rotation_of; [|done]. intros center.
  repeat wp_step; auto.
Qed.

Lemma prepare_wake_invariant ff :
  I ff -> wp (prepare_wake points track) (fun _ => I) I ff.
Proof.
  intros HI. unfold prepare_wake. wp_step.
  eapply wp_mono; [by apply begin_wake_invariant| |done].
  intros ? ff1 HI1. by apply rotate_farm_invariant.
Qed.

End PrepareInvariant.

Lemma finish_wake_no_wake_invariant (I : FlowField -> Prop) lc u_wake ff :
  (forall ff x' y' z', I ff -> I (set_xyz x' y' z' ff)) ->
  I ff -> wp (finish_wake true lc u_wake) (fun _ => I) I ff.
Proof.
  intros Hxyz HI. unfold finish_wake. repeat wp_step; auto.
Qed.

(** An invariant that says some attributes keep their value is kept by
    the writes to the others. *)
Ltac frame_invariant I :=
  unfold ti_updated, wake_counted; intros; unfold I in *; cbv beta in *;
  destruct_and?; repeat split; intros; simpl in *; congruence.

(** C1: after [reset_uvw()], [calculate_wake(no_wake=True)] leaves
    the [u] array equal to [u_initial] at every grid point, whether the
    call returns or raises; [u_initial] itself is untouched. *)
Theorem no_wake_leaves_u_ambient (track_n_upstream_wakes : bool)
    (ff : FlowField) :
  let ff' :=
    state_of (calculate_wake true None track_n_upstream_wakes (reset_uvw ff))
  in
  u ff' = u_initial ff' /\ u_initial ff' = u_initial ff.
Proof.
  set (I := fun s : FlowField =>
              u s = u_initial ff /\ u_initial s = u_initial ff).
  assert (Hwp : wp (calculate_wake true None track_n_upstream_wakes)
                   (fun _ => I) I (reset_uvw ff)).
  { unfold calculate_wake. wp_step.
    eapply wp_mono; [apply (prepare_wake_invariant _ _ I)| |done];
      try (by frame_invariant I).
    - by intros ? [].
    - intros lc ff1 HI1. do 3 wp_step.
      eapply wp_mono; [apply (wake_loop_invariant _ _ I)| |done];
        try (by frame_invariant I).
      intros u_wake ff2 HI2. cbv beta.
      apply finish_wake_no_wake_invariant; [|done].
      by frame_invariant I. }
  unfold wp in Hwp. simpl.
  destruct (calculate_wake _ _ _ _); simpl; destruct Hwp; split; congruence.
Qed.

(** ** The turbines after [reinitialize_turbines] *)

Lemma set_turbines_set_turbines ts ts' (ff : FlowField) :
  set_turbines ts (set_turbines ts' ff) = set_turbines ts ff.
Proof. done. Qed.

Lemma set_turbines_turbines (ff : FlowField) :
  set_turbines (turbines ff) ff = ff.
Proof. by destruct ff. Qed.

Lemma refresh_loop (tti : list R) (ts pre : list Turbine) (ff : FlowField) :
  for_each (fun (_ : unit) i =>
      ti ← index tti i;
      modify_turbine i
        (fun t => reset_velocities (set_turbulence_intensity ti t)))
    tt (seq (length pre) (length ts)) (set_turbines (pre ++ ts) ff)
  = (if decide (length ts <= length (drop (length pre) tti))%nat
     then Ok tt else Raise IndexError)
      (set_turbines (pre ++ refreshed (drop (length pre) tti) ts) ff).
Proof.
  revert pre. induction ts as [|t ts IH]; intros pre.
  - destruct (decide _) as [_|Hn]; [|simpl in Hn; lia].
    unfold refreshed. by rewrite zip_with_nil_r, drop_nil.
  - simpl. unfold mbind at 1, M_bind at 1, mbind at 1, M_bind at 1.
    unfold index at 1.
    assert (Hl : tti !! length pre = drop (length pre) tti !! 0%nat)
      by (rewrite lookup_drop; f_equal; lia).
    rewrite Hl. clear Hl.
    destruct (drop (length pre) tti) as [|a rest] eqn:Hdrop; simpl.
    + done.
    + unfold modify_turbine at 1, modify at 1.
      rewrite set_turbines_set_turbines.
      simpl turbines.
      replace (alter _ (length pre) (pre ++ t :: ts))
        with ((pre ++ [refresh a t]) ++ ts).
      2:{ symmetry. rewrite <- (Nat.add_0_r (length pre)), alter_app_r.
          simpl. by rewrite <- app_assoc. }
      specialize (IH (pre ++ [refresh a t])).
      rewrite length_app in IH. simpl in IH.
      rewrite Nat.add_1_r in IH. etransitivity; [exact IH|].
      replace (drop (S (length pre)) tti) with rest.
      2:{ rewrite <- Nat.add_1_r, <- drop_drop, Hdrop. done. }
      unfold refreshed. simpl. rewrite <- !app_assoc. simpl.
      repeat case_decide; (done || lia).
Qed.

Lemma reinitialize_turbines_eq (ff : FlowField) :
  let tti := turbine_turbulence_intensity (wind_map ff) in
  reinitialize_turbines ff
  = (if decide (length (turbines ff) <= length tti)%nat
     then Ok tt else Raise IndexError)
      (set_turbines (refreshed tti (turbines ff)) ff).
Proof.
  intros tti. unfold reinitialize_turbines.
  unfold mbind at 1, M_bind at 1, get at 1.
  pose proof (refresh_loop tti (turbines ff) [] ff) as Hloop.
  cbn [length app drop] in Hloop.
  by rewrite set_turbines_turbines in Hloop.
Qed.

(** ** Independence of the turbine state left by earlier calls *)

Lemma same_engine_refl (ff : FlowField) : same_engine ff ff.
Proof.
  exists (turbines ff). split; [by rewrite set_turbines_turbines|].
  apply Forall2_same_length_lookup. split; [done|].
  intros i t t' Ht Ht'. by simplify_eq.
Qed.

Lemma refresh_same_definition ti (t t' : Turbine) :
  same_definition t t' -> refresh ti t = refresh ti t'.
Proof.
  destruct t, t'. intros (?&?&?). simpl in *. subst.
  reflexivity.
Qed.

Lemma refresh_keeps_definition ti (t : Turbine) :
  same_definition t (refresh ti t).
Proof. done. Qed.

Lemma refreshed_same_definition tti (ts ts' : list Turbine) :
  Forall2 same_definition ts ts' ->
  Forall2 same_definition (refreshed tti ts) (refreshed tti ts')
  /\ ((length ts <= length tti)%nat -> refreshed tti ts = refreshed tti ts').
Proof.
  intros Hsame. revert tti.
  induction Hsame as [|t t' ts ts' Ht Hts IH]; intros tti.
  - unfold refreshed. rewrite !zip_with_nil_r, !drop_nil. by split.
  - destruct tti as [|a tti]; unfold refreshed; simpl.
    + split; [by constructor|lia].
    + destruct (IH tti) as [IH1 IH2]. split.
      * constructor; [|done].
        destruct Ht as (?&?&?). by repeat split.
      * intros Hlen. f_equal; [by apply refresh_same_definition|].
        apply IH2. lia.
Qed.

Lemma run_bind {A B} (m : M A) (k : A -> M B) (ff : FlowField) :
  (m ≫= k) ff
  = match m ff with
    | Ok a ff' => k a ff'
    | Raise e ff' => Raise e ff'
    end.
Proof. done. Qed.

Lemma begin_wake_eq points track (ff : FlowField) :
  begin_wake points track ff
  = reinitialize_turbines (before_refresh points track ff).
Proof.
  unfold begin_wake, before_refresh.
  cbv [mbind M_bind get modify mret M_ret].
  by destruct (velocity_model_grid_resolution _), points, track.
Qed.

Lemma before_refresh_same_engine points track (ff ff' : FlowField) :
  (is_Some points -> forall s s',
     same_engine s s' ->
     same_engine (_compute_initialized_domain None points s)
                 (_compute_initialized_domain None points s')) ->
  same_engine ff ff' ->
  same_engine (before_refresh points track ff)
              (before_refresh points track ff').
Proof.
  intros Hdom Hsame. unfold before_refresh.
  assert (Hwake : wake ff' = wake ff) by (by destruct Hsame as (? & -> & _)).
  rewrite Hwake.
  set (ff1 := if velocity_model_grid_resolution (wake ff) is Some _
              then reset_uvw ff else ff).
  set (ff1' := if velocity_model_grid_resolution (wake ff) is Some _
               then reset_uvw ff' else ff').
  assert (H1 : same_engine ff1 ff1').
  { subst ff1 ff1'. destruct (velocity_model_grid_resolution _); [|done].
    destruct Hsame as (ts' & -> & Hts). by exists ts'. }
  clearbody ff1 ff1'.
  set (ff2 := if points is Some _
              then _compute_initialized_domain None points ff1 else ff1).
  set (ff2' := if points is Some _
               then _compute_initialized_domain None points ff1' else ff1').
  assert (H2 : same_engine ff2 ff2').
  { subst ff2 ff2'. destruct points; [|done]. by apply Hdom. }
  clearbody ff2 ff2'.
  destruct track; [|done].
  destruct H2 as (ts' & -> & Hts). exists ts'. split; [|done].
  simpl. unfold set_wake_list, set_turbines. simpl. do 2 f_equal.
  apply Forall2_length in Hts. revert Hts. generalize (turbines ff2).
  clear. intros ts. revert ts'.
  induction ts as [|t ts IH]; intros [|t' ts']; simpl; try done.
  intros [=]. f_equal. by apply IH.
Qed.

Lemma calculate_wake_same_engine no_wake points track (ff ff' : FlowField) :
  (is_Some points -> forall s s',
     same_engine s s' ->
     same_engine (_compute_initialized_domain None points s)
                 (_compute_initialized_domain None points s')) ->
  same_engine ff ff' ->
  let s := before_refresh points track ff in
  (length (turbines s)
   <= length (turbine_turbulence_intensity (wind_map s)))%nat ->
  calculate_wake no_wake points track ff
  = calculate_wake no_wake points track ff'.
Proof.
  intros Hdom Hsame s Hlen.
  unfold calculate_wake, prepare_wake.
  rewrite !run_bind, !begin_wake_eq, !reinitialize_turbines_eq.
  destruct (before_refresh_same_engine points track ff ff' Hdom Hsame)
    as (ts' & -> & Hts).
  fold s in Hts |- *.
  change (turbines (set_turbines ts' s)) with ts'.
  change (wind_map (set_turbines ts' s)) with (wind_map s).
  destruct (refreshed_same_definition
              (turbine_turbulence_intensity (wind_map s)) _ _ Hts)
    as [Hdef Heq].
  rewrite <- (Forall2_length _ _ _ Hts).
  rewrite set_turbines_set_turbines.
  by rewrite <- Heq.
Qed.

(** ** The object when the loop over the sorted turbines starts *)

Lemma refreshed_lookup tti (ts : list Turbine) i t :
  (length ts <= length tti)%nat ->
  refreshed tti ts !! i = Some t ->
  exists a t0, tti !! i = Some a /\ ts !! i = Some t0 /\ t = refresh a t0.
Proof.
  intros Hlen. unfold refreshed.
  rewrite drop_ge, app_nil_r by done.
  rewrite lookup_zip_with. intros Hl.
  destruct (tti !! i) as [a|]; [|done].
  destruct (ts !! i) as [t0|]; [|done].
  simpl in Hl. exists a, t0. by simplify_eq.
Qed.

Lemma rotate_farm_frame (s : FlowField) lc ff0 :
  rotate_farm s = Ok lc ff0 ->
  turbines ff0 = turbines s /\ wind_map ff0 = wind_map s
  /\ wake ff0 = wake s /\ wake_list ff0 = wake_list s
  /\ u_initial ff0 = u_initial s /\ u ff0 = u s.
Proof.
  intros Hrun.
  set (I := fun ff : FlowField =>
    turbines ff = turbines s /\ wind_map ff = wind_map s
    /\ wake ff = wake s /\ wake_list ff = wake_list s
    /\ u_initial ff = u_initial s /\ u ff = u s).
  assert (Hwp : wp rotate_farm (fun _ => I) I s).
  { apply (rotate_farm_invariant I); by frame_invariant I. }
  unfold wp in Hwp. by rewrite Hrun in Hwp.
Qed.

Lemma prepare_wake_ok points track (ff : FlowField) lc ff0 :
  prepare_wake points track ff = Ok lc ff0 ->
  let s := before_refresh points track ff in
  let tti := turbine_turbulence_intensity (wind_map s) in
  (length (turbines s) <= length tti)%nat
  /\ turbines ff0 = refreshed tti (turbines s)
  /\ wind_map ff0 = wind_map s /\ wake ff0 = wake s
  /\ wake_list ff0 = wake_list s
  /\ u_initial ff0 = u_initial s /\ u ff0 = u s.
Proof.
  unfold prepare_wake. rewrite run_bind, begin_wake_eq.
  rewrite reinitialize_turbines_eq. cbv zeta.
  set (s := before_refresh points track ff).
  case_decide as Hlen; [|done]. intros Hrun. split; [done|].
  by apply rotate_farm_frame in Hrun.
Qed.

(** When the loop starts every turbine carries the ambient turbulence
    intensity of the wind map and an empty velocity accumulator. *)
Lemma prepare_wake_refreshes points track (ff : FlowField) lc ff0 :
  prepare_wake points track ff = Ok lc ff0 ->
  forall i t, turbines ff0 !! i = Some t ->
    turbine_turbulence_intensity (wind_map ff0) !! i
      = Some (turbulence_intensity t)
    /\ velocities t = replicate (Z.to_nat (grid_point_count t)) 0.
Proof.
  intros Hrun i t Ht.
  destruct (prepare_wake_ok _ _ _ _ _ Hrun) as (Hlen & Hts & Hwm & _).
  rewrite Hts in Ht. rewrite Hwm.
  apply refreshed_lookup in Ht as (a & t0 & Ha & Ht0 & ->); [|done].
  by rewrite Ha.
Qed.

(** C10, as amended: when the wind map holds a turbulence intensity for
    every turbine, a call of [calculate_wake] begins by overwriting
    each turbine's turbulence intensity with the ambient value of the
    wind map and by resetting its velocity accumulator, whatever
    [no_wake] is; so two calls on flow fields that differ only in the
    turbulence intensities and velocity accumulators of their turbines
    have one outcome: they return or raise alike, and leave the same
    fields and the same turbines. *)
Theorem calculate_wake_forgets_turbine_state no_wake points track
    (ff ff' : FlowField) :
  (is_Some points -> forall s s',
     same_engine s s' ->
     same_engine (_compute_initialized_domain None points s)
                 (_compute_initialized_domain None points s')) ->
  same_engine ff ff' ->
  let s := before_refresh points track ff in
  (length (turbines s)
   <= length (turbine_turbulence_intensity (wind_map s)))%nat ->
  (exists s1,
     begin_wake points track ff = Ok tt s1
     /\ length (turbines s1) = length (turbines s)
     /\ forall i t, turbines s1 !! i = Some t ->
          turbine_turbulence_intensity (wind_map s1) !! i
            = Some (turbulence_intensity t)
          /\ velocities t = replicate (Z.to_nat (grid_point_count t)) 0)
  /\ calculate_wake no_wake points track ff
     = calculate_wake no_wake points track ff'.
Proof.
  intros Hdom Hsame s Hlen. split.
  - rewrite begin_wake_eq, reinitialize_turbines_eq. fold s.
    rewrite decide_True by done.
    eexists. split; [done|]. split.
    + simpl. unfold refreshed.
      rewrite drop_ge, app_nil_r, length_zip_with by done. lia.
    + intros i t Ht. simpl in Ht.
      apply refreshed_lookup in Ht as (a & t0 & Ha & Ht0 & ->); [|done].
      simpl. by rewrite Ha.
  - by apply calculate_wake_same_engine.
Qed.

(** ** Invariants of a whole call *)

Lemma finish_wake_invariant (I : FlowField -> Prop) no_wake lc u_wake ff :
  (no_wake = false -> forall ff u', I ff -> I (set_uvw u' (v ff) (w ff) ff)) ->
  (forall ff x' y' z', I ff -> I (set_xyz x' y' z' ff)) ->
  I ff -> wp (finish_wake no_wake lc u_wake) (fun _ => I) I ff.
Proof.
  intros Hu Hxyz HI. unfold finish_wake. repeat wp_step; auto.
Qed.

Lemma calculate_wake_prepared no_wake points track (ff : FlowField) lc ff0 :
  prepare_wake points track ff = Ok lc ff0 ->
  calculate_wake no_wake points track ff
  = (u_wake ← for_each (wake_loop_body no_wake track lc)
                       (np_zeros_like (u ff0)) (sorted_map lc);
     finish_wake no_wake lc u_wake) ff0.
Proof.
  intros Hrun. unfold calculate_wake. rewrite run_bind, Hrun.
  by rewrite run_bind.
Qed.

Lemma calculate_wake_returns no_wake points track (ff ff' : FlowField) r :
  calculate_wake no_wake points track ff = Ok r ff' ->
  exists lc ff0, prepare_wake points track ff = Ok lc ff0.
Proof.
  unfold calculate_wake. rewrite run_bind.
  destruct (prepare_wake points track ff) as [lc ff0|]; [eauto|done].
Qed.

Lemma calculate_wake_invariant no_wake points track (ff : FlowField) lc ff0
    (I : FlowField -> Prop) :
  prepare_wake points track ff = Ok lc ff0 ->
  wake_stable no_wake track lc I ->
  I ff0 ->
  I (state_of (calculate_wake no_wake points track ff)).
Proof.
  intros Hrun [Hvel Hvw Hti Hu Hxyz] HI.
  rewrite (calculate_wake_prepared _ _ _ _ _ _ Hrun).
  assert (Hwp : wp (u_wake ← for_each (wake_loop_body no_wake track lc)
                                      (np_zeros_like (u ff0)) (sorted_map lc);
                    finish_wake no_wake lc u_wake) (fun _ => I) I ff0).
  { wp_step.
    eapply wp_mono; [by apply (wake_loop_invariant _ _ I)| |done].
    intros u_wake ff2 HI2. cbv beta. by apply finish_wake_invariant. }
  unfold wp in Hwp.
  match type of Hwp with match ?r with _ => _ end => by destruct r end.
Qed.

(** The turbulence intensities of a list of turbines after one of
    them was rewritten. *)
Lemma lookup_alter_turbine (f : Turbine -> Turbine) k (ts : list Turbine) i t :
  alter f k ts !! i = Some t ->
  exists t0, ts !! i = Some t0 /\ (t = t0 \/ (i = k /\ t = f t0)).
Proof.
  rewrite list_lookup_alter. case_decide as Hk.
  - subst. destruct (ts !! i) as [t0|]; [|done].
    intros [= <-]. eauto.
  - eauto.
Qed.


(** ** The gate on the turbulence model *)

Lemma turbulence_model_allowed_false (wk : Wake) :
  turbulence_model_string wk <> "crespo_hernandez"%string ->
  turbulence_model_string wk <> "ishihara_qian"%string ->
  turbulence_model_allowed wk = false.
Proof.
  intros H1 H2. unfold turbulence_model_allowed.
  rewrite bool_decide_eq_false_2 by congruence.
  by rewrite bool_decide_eq_false_2.
Qed.

(** C7: when the name of the turbulence model is neither
    "crespo_hernandez" nor "ishihara_qian", the turbulence step of every
    turbine returns at once, without a write and without an exception,
    and the call leaves every turbine with the ambient turbulence
    intensity of the wind map. *)
Theorem turbulence_propagation_is_gated no_wake points track
    (ff : FlowField) lc ff0 :
  prepare_wake points track ff = Ok lc ff0 ->
  turbulence_model_string (wake ff0) <> "crespo_hernandez"%string ->
  turbulence_model_string (wake ff0) <> "ishihara_qian"%string ->
  (forall rotated_x rotated_y coord k turb_u_wake (s : FlowField),
     wake s = wake ff0 ->
     propagate_turbulence track lc rotated_x rotated_y coord k turb_u_wake s
     = Ok tt s)
  /\ (let ff' := state_of (calculate_wake no_wake points track ff) in
      forall i t, turbines ff' !! i = Some t ->
        turbine_turbulence_intensity (wind_map ff') !! i
        = Some (turbulence_intensity t)).
Proof.
  intros Hprep H1 H2.
  pose proof (turbulence_model_allowed_false _ H1 H2) as Hgate.
  split.
  - intros rotated_x rotated_y coord k tuw s Hwake.
    unfold propagate_turbulence. rewrite run_bind. simpl.
    by rewrite Hwake, Hgate.
  - set (I := fun s : FlowField =>
      wake s = wake ff0 /\
      forall i t, turbines s !! i = Some t ->
        turbine_turbulence_intensity (wind_map s) !! i
        = Some (turbulence_intensity t)).
    cut (I (state_of (calculate_wake no_wake points track ff)));
      [by intros [_ HI]|].
    apply (calculate_wake_invariant _ _ _ _ lc ff0); [done| |].
    + split; try (by intros; unfold I in *; destruct_and?; split).
      * intros s k vs [Hw Hs]. split; [done|]. intros i t Ht. simpl in Ht.
        apply lookup_alter_turbine in Ht as (t0 & Ht0 & [->|[_ ->]]);
          by apply Hs in Ht0.
      * intros rotated_x rotated_y tuw coord k s coord_ti k_ti
               ti_added ambient _ [Hallowed _ _ _] [Hw _].
        congruence.
    + split; [done|]. intros i t Ht.
      by destruct (prepare_wake_refreshes _ _ _ _ _ Hprep i t Ht).
Qed.

(** ** Which turbines the turbulence step writes *)

Lemma for_each_cons {A B} (body : B -> A -> M B) acc a l (ff : FlowField) :
  for_each body acc (a :: l) ff
  = match body acc a ff with
    | Ok acc' s => for_each body acc' l s
    | Raise e s => Raise e s
    end.
Proof. done. Qed.

Lemma fmap_alter_same {A B} (f : A -> B) (g : A -> A) k (l : list A) :
  (forall a, f (g a) = f a) -> f <$> alter g k l = f <$> l.
Proof.
  intros Hfg. revert k. induction l as [|a l IH]; intros [|k]; simpl; [done..| |].
  - by rewrite Hfg.
  - f_equal. apply IH.
Qed.

Lemma turbine_changed_ti_updated j k_ti a amb (ff s : FlowField) :
  j <> k_ti ->
  turbine_changed j ff (ti_updated k_ti a amb s) -> turbine_changed j ff s.
Proof.
  intros Hne. unfold turbine_changed, ti_updated. simpl.
  by rewrite list_lookup_alter_ne.
Qed.

Lemma turbine_changed_wake_counted j k_ti (ff s : FlowField) :
  j <> k_ti ->
  turbine_changed j ff (wake_counted k_ti s) -> turbine_changed j ff s.
Proof.
  intros Hne. unfold turbine_changed, wake_counted. simpl.
  destruct (wake_list s) as [wl|]; simpl; [|done].
  by rewrite list_lookup_alter_ne.
Qed.

Lemma for_each_snoc {A B} (body : B -> A -> M B) acc l a (ff : FlowField) :
  for_each body acc (l ++ [a]) ff
  = match for_each body acc l ff with
    | Ok acc' s => body acc' a s
    | Raise e s => Raise e s
    end.
Proof.
  revert acc ff. induction l as [|b l IH]; intros acc ff; simpl.
  - unfold mbind, M_bind, mret, M_ret. by destruct (body acc a ff).
  - unfold mbind, M_bind. destruct (body acc b ff) as [acc' s|e s]; [|done].
    apply IH.
Qed.

(** One entry of the sorted map in the turbulence step: the turbine it
    writes, if any, and what the step had found. *)
Lemma propagate_turbulence_to_changes track lc rotated_x rotated_y coord k
    turb_u_wake coord_ti k_ti (s : FlowField) j :
  let s' := state_of (propagate_turbulence_to track lc rotated_x rotated_y
                        coord k turb_u_wake (coord_ti, k_ti) s) in
  turbine_changed j s s' ->
  j = k_ti
  /\ exists turbine turbine_ti area_overlap,
       turbines s !! k = Some turbine
       /\ turbines s !! j = Some turbine_ti
       /\ in_influence_zone coord coord_ti (rotor_diameter turbine)
       /\ area_overlap_on s rotated_x rotated_y (rotated_z lc) turb_u_wake
                          turbine coord_ti turbine_ti = Some area_overlap
       /\ area_overlap > 0.
Proof.
  set (P := fun s' : FlowField =>
    turbine_changed j s s' ->
    j = k_ti
    /\ exists turbine turbine_ti area_overlap,
         turbines s !! k = Some turbine
         /\ turbines s !! j = Some turbine_ti
         /\ in_influence_zone coord coord_ti (rotor_diameter turbine)
         /\ area_overlap_on s rotated_x rotated_y (rotated_z lc) turb_u_wake
                            turbine coord_ti turbine_ti = Some area_overlap
         /\ area_overlap > 0).
  assert (Hsame : P s) by (by intros [Hch|Hch]).
  assert (Hwp : wp (propagate_turbulence_to track lc rotated_x rotated_y
                      coord k turb_u_wake (coord_ti, k_ti))
                   (fun _ => P) P s).
  { unfold propagate_turbulence_to. repeat wp_step; try done.
    all: intros Hch; destruct (decide (j = k_ti)) as [->|Hne];
      [by eauto 10|].
    - apply turbine_changed_wake_counted in Hch; [|done].
      apply (turbine_changed_ti_updated j k_ti) in Hch; [|done].
      by apply Hsame.
    - apply (turbine_changed_ti_updated j k_ti) in Hch; [|done].
      by apply Hsame. }
  unfold wp in Hwp. intros s'. subst s'.
  by destruct (propagate_turbulence_to _ _ _ _ _ _ _ _ s).
Qed.

Lemma turbine_changed_trans j (s0 s1 s2 : FlowField) :
  turbine_changed j s0 s2 ->
  turbine_changed j s0 s1 \/ turbine_changed j s1 s2.
Proof.
  unfold turbine_changed.
  destruct (decide (turbulence_intensity <$> turbines s1 !! j
                    = turbulence_intensity <$> turbines s0 !! j)) as [E1|];
    [|by auto].
  destruct (decide (wake_list s1 ≫= (fun wl => wl !! j)
                    = wake_list s0 ≫= (fun wl => wl !! j))) as [E2|];
    [|by auto].
  rewrite E1, E2. by right.
Qed.

Lemma propagate_turbulence_to_keeps_diameter track lc rotated_x rotated_y
    coord k turb_u_wake (l : list (Vec3 * nat)) (ff : FlowField) :
  rotor_diameter <$> turbines (turbulence_step_at track lc rotated_x
                                 rotated_y coord k turb_u_wake l ff)
  = rotor_diameter <$> turbines ff.
Proof.
  set (J := fun s : FlowField =>
    rotor_diameter <$> turbines s = rotor_diameter <$> turbines ff).
  assert (Hwp : wp (for_each (fun _ entry =>
                      propagate_turbulence_to track lc rotated_x rotated_y
                                              coord k turb_u_wake entry)
                    tt l) (fun _ => J) J ff).
  { apply (wp_for_each _ (fun _ => J)); [|done].
    intros _ [coord_ti k_ti] s _ Hs. unfold propagate_turbulence_to.
    repeat wp_step; try done.
    all: unfold J in *; simpl; by rewrite fmap_alter_same. }
  unfold wp in Hwp. unfold turbulence_step_at.
  by destruct (for_each _ _ _ ff).
Qed.

Lemma turbulence_loop_changes track lc rotated_x rotated_y coord k
    turb_u_wake (ff : FlowField) j (l : list (Vec3 * nat)) :
  forall pre s0,
  for_each (fun _ entry =>
      propagate_turbulence_to track lc rotated_x rotated_y coord k
                              turb_u_wake entry) tt pre ff = Ok tt s0 ->
  turbine_changed j s0
    (state_of (for_each (fun _ entry =>
                  propagate_turbulence_to track lc rotated_x rotated_y
                                          coord k turb_u_wake entry)
                tt l s0)) ->
  exists pre' coord_ti post turbine turbine_ti area_overlap,
    pre ++ l = pre' ++ (coord_ti, j) :: post
    /\ let s := turbulence_step_at track lc rotated_x rotated_y coord k
                                   turb_u_wake pre' ff in
       turbines s !! k = Some turbine
       /\ turbines s !! j = Some turbine_ti
       /\ in_influence_zone coord coord_ti (rotor_diameter turbine)
       /\ area_overlap_on s rotated_x rotated_y (rotated_z lc) turb_u_wake
                          turbine coord_ti turbine_ti = Some area_overlap
       /\ area_overlap > 0.
Proof.
  induction l as [|[coord_ti k_ti] l IH]; intros pre s0 Hpre Hch.
  - simpl in Hch. by destruct Hch as [Hch|Hch].
  - rewrite for_each_cons in Hch.
    assert (Hhere : turbine_changed j s0
              (state_of (propagate_turbulence_to track lc rotated_x rotated_y
                           coord k turb_u_wake (coord_ti, k_ti) s0)) ->
            exists pre' coord_ti0 post turbine turbine_ti area_overlap,
              pre ++ (coord_ti, k_ti) :: l = pre' ++ (coord_ti0, j) :: post
              /\ let s := turbulence_step_at track lc rotated_x rotated_y
                            coord k turb_u_wake pre' ff in
                 turbines s !! k = Some turbine
                 /\ turbines s !! j = Some turbine_ti
                 /\ in_influence_zone coord coord_ti0 (rotor_diameter turbine)
                 /\ area_overlap_on s rotated_x rotated_y (rotated_z lc)
                      turb_u_wake turbine coord_ti0 turbine_ti
                    = Some area_overlap
                 /\ area_overlap > 0).
    { intros Hone.
      apply propagate_turbulence_to_changes in Hone
        as (-> & turbine & turbine_ti & ao & ? & ? & ? & ? & ?).
      exists pre, coord_ti, l, turbine, turbine_ti, ao.
      split; [done|]. unfold turbulence_step_at. by rewrite Hpre. }
    destruct (propagate_turbulence_to track lc rotated_x rotated_y coord k
                turb_u_wake (coord_ti, k_ti) s0) as [[] s1|e s1] eqn:Hstep.
    + apply (turbine_changed_trans j s0 s1) in Hch as [Hone|Hrest];
        [by apply Hhere|].
      destruct (IH (pre ++ [(coord_ti, k_ti)]) s1) as
        (pre' & c & post & turbine & turbine_ti & ao & Heq & Hs);
        [by rewrite for_each_snoc, Hpre|done|].
      exists pre', c, post, turbine, turbine_ti, ao.
      split; [|done]. by rewrite <- Heq, <- app_assoc.
    + by apply Hhere.
Qed.

Lemma propagate_turbulence_isolated track lc rotated_x rotated_y coord k
    turb_u_wake (ff : FlowField) :
  (forall coord_ti k_ti turbine,
     (coord_ti, k_ti) ∈ sorted_map lc -> turbines ff !! k = Some turbine ->
     ~ in_influence_zone coord coord_ti (rotor_diameter turbine)) ->
  state_of (propagate_turbulence track lc rotated_x rotated_y coord k
                                 turb_u_wake ff) = ff.
Proof.
  intros Hiso.
  assert (Hwp : wp (propagate_turbulence track lc rotated_x rotated_y coord k
                                         turb_u_wake)
                   (fun _ s => s = ff) (fun s => s = ff) ff).
  { apply (propagate_turbulence_invariant _ _ (fun s => s = ff)); [|done].
    intros s coord_ti k_ti ti_added ambient [_ Hin Hzone _] ->.
    destruct Hzone as (turbine & Hk & Hzone & _).
    by destruct (Hiso coord_ti k_ti turbine). }
  unfold wp in Hwp.
  by destruct (propagate_turbulence _ _ _ _ _ _ _ ff).
Qed.

Lemma length_refreshed tti (ts : list Turbine) :
  (length ts <= length tti)%nat -> length (refreshed tti ts) = length ts.
Proof.
  intros Hlen. unfold refreshed.
  rewrite drop_ge, app_nil_r, length_zip_with by done. lia.
Qed.

Lemma before_refresh_wake_list points (ff : FlowField) :
  let s := before_refresh points true ff in
  wake_list s = Some (replicate (length (turbines s)) 0%nat).
Proof.
  unfold before_refresh. simpl. f_equal.
  match goal with |- _ <$> ?ts = _ => generalize ts end.
  intros ts. induction ts as [|t ts IH]; simpl; [done|]. by f_equal.
Qed.

Lemma calculate_wake_isolated no_wake points (ff : FlowField) lc ff0 :
  prepare_wake points true ff = Ok lc ff0 ->
  isolated_turbines lc ff0 ->
  let ff' := state_of (calculate_wake no_wake points true ff) in
  wake_list ff' = Some (replicate (length (turbines ff')) 0%nat)
  /\ forall i t, turbines ff' !! i = Some t ->
       turbine_turbulence_intensity (wind_map ff') !! i
       = Some (turbulence_intensity t).
Proof.
  intros Hprep Hiso.
  set (I := fun s : FlowField =>
    rotor_diameter <$> turbines s = rotor_diameter <$> turbines ff0
    /\ wake_list s = Some (replicate (length (turbines s)) 0%nat)
    /\ forall i t, turbines s !! i = Some t ->
         turbine_turbulence_intensity (wind_map s) !! i
         = Some (turbulence_intensity t)).
  cut (I (state_of (calculate_wake no_wake points true ff)));
    [by intros (_ & ? & ?)|].
  apply (calculate_wake_invariant _ _ _ _ lc ff0); [done| |].
  - split; try (by intros; unfold I in *; destruct_and?; repeat split).
    + intros s k vs (Hd & Hwl & Hs). repeat split.
      * simpl. by rewrite fmap_alter_same.
      * simpl. by rewrite length_alter.
      * intros i t Ht. simpl in Ht.
        apply lookup_alter_turbine in Ht as (t0 & Ht0 & [->|[_ ->]]);
          by apply Hs in Ht0.
    + intros rotated_x rotated_y tuw coord k s coord_ti k_ti
             ti_added ambient Hin [_ Hin_ti Hzone _] (Hd & _).
      destruct Hzone as (turbine & Hk & Hzone & _).
      assert (Hk0 : exists turbine0, turbines ff0 !! k = Some turbine0
                /\ rotor_diameter turbine0 = rotor_diameter turbine).
      { assert (Hl : (rotor_diameter <$> turbines ff0) !! k
                     = Some (rotor_diameter turbine))
          by (by rewrite <- Hd, list_lookup_fmap, Hk).
        rewrite list_lookup_fmap in Hl.
        destruct (turbines ff0 !! k) as [t0|]; [|done].
        exists t0. split; [done|]. by injection Hl. }
      destruct Hk0 as (turbine0 & Hk0 & HD).
      destruct (Hiso coord k coord_ti k_ti turbine0); try done.
      by rewrite HD.
  - destruct (prepare_wake_ok _ _ _ _ _ Hprep)
      as (Hlen & Hts & Hwm & _ & Hwl & _).
    repeat split.
    + rewrite Hwl, Hts, length_refreshed by done.
      apply before_refresh_wake_list.
    + intros i t Ht.
      by destruct (prepare_wake_refreshes _ _ _ _ _ Hprep i t Ht).
Qed.

(** C6: during the turbulence step of the turbine [k] at [coord], the
    turbulence intensity of a turbine [j], or its counter of upstream
    wakes, changes only if [j] stands in the sorted map at a coordinate
    that is strictly downstream of [coord], less than 2 rotor diameters
    of the turbine [k] from it laterally and at most 15 rotor diameters
    downstream, and if the step, when it examined that entry, found a
    positive area overlap of the wake with the swept area of [j]. When
    no turbine stands in that zone the step changes nothing; and in a
    farm where no turbine stands in the zone of another, a call that
    counts the upstream wakes ends with every counter at 0 and every
    turbine at its ambient turbulence intensity. *)
Theorem turbulence_step_writes_only_the_wake track lc rotated_x rotated_y
    coord k turb_u_wake (ff : FlowField) :
  let ff' :=
    state_of (propagate_turbulence track lc rotated_x rotated_y coord k
                                   turb_u_wake ff) in
  (forall j, turbine_changed j ff ff' ->
     exists pre coord_ti post turbine0 turbine turbine_ti area_overlap,
       sorted_map lc = pre ++ (coord_ti, j) :: post
       /\ turbines ff !! k = Some turbine0
       /\ x1 coord_ti > x1 coord
       /\ Rabs (x2 coord - x2 coord_ti) < 2 * rotor_diameter turbine0
       /\ x1 coord_ti <= 15 * rotor_diameter turbine0 + x1 coord
       /\ let s := turbulence_step_at track lc rotated_x rotated_y coord k
                                      turb_u_wake pre ff in
          turbines s !! k = Some turbine
          /\ turbines s !! j = Some turbine_ti
          /\ area_overlap_on s rotated_x rotated_y (rotated_z lc) turb_u_wake
                             turbine coord_ti turbine_ti = Some area_overlap
          /\ area_overlap > 0)
  /\ ((forall coord_ti k_ti turbine,
         (coord_ti, k_ti) ∈ sorted_map lc -> turbines ff !! k = Some turbine ->
         ~ in_influence_zone coord coord_ti (rotor_diameter turbine)) ->
      ff' = ff)
  /\ (forall no_wake points (ff_in : FlowField) lc_in ff0,
        prepare_wake points true ff_in = Ok lc_in ff0 ->
        isolated_turbines lc_in ff0 ->
        let ff_out := state_of (calculate_wake no_wake points true ff_in) in
        wake_list ff_out = Some (replicate (length (turbines ff_out)) 0%nat)
        /\ forall i t, turbines ff_out !! i = Some t ->
             turbine_turbulence_intensity (wind_map ff_out) !! i
             = Some (turbulence_intensity t)).
Proof.
  intros ff'. split; [|split].
  - intros j Hch. subst ff'. unfold propagate_turbulence in Hch.
    rewrite run_bind in Hch. simpl in Hch.
    destruct (turbulence_model_allowed (wake ff));
      [|by destruct Hch as [Hch|Hch]].
    apply (turbulence_loop_changes _ _ _ _ _ _ _ ff j (sorted_map lc) [] ff)
      in Hch as (pre & coord_ti & post & turbine & turbine_ti & ao & Heq
                 & Hk & Hj & (H1 & H2 & H3) & Hao & Hpos); [|done].
    pose proof (propagate_turbulence_to_keeps_diameter track lc rotated_x
                  rotated_y coord k turb_u_wake pre ff) as Hd.
    assert (Hk0 : exists turbine0, turbines ff !! k = Some turbine0
              /\ rotor_diameter turbine0 = rotor_diameter turbine).
    { assert (Hl : (rotor_diameter <$> turbines ff) !! k
                   = Some (rotor_diameter turbine))
        by (by rewrite <- Hd, list_lookup_fmap, Hk).
      rewrite list_lookup_fmap in Hl.
      destruct (turbines ff !! k) as [t0|]; [|done].
      exists t0. split; [done|]. by injection Hl. }
    destruct Hk0 as (turbine0 & Hk0 & HD).
    exists pre, coord_ti, post, turbine0, turbine, turbine_ti, ao.
    rewrite HD. by repeat split.
  - apply propagate_turbulence_isolated.
  - intros. by eapply calculate_wake_isolated.
Qed.

(** ** The update of the turbulence intensity *)

Lemma propagate_turbulence_to_never_lowers track lc rotated_x rotated_y
    coord k turb_u_wake entry (ff : FlowField) j t :
  turbines ff !! j = Some t ->
  exists t',
    turbines (state_of (propagate_turbulence_to track lc rotated_x rotated_y
                          coord k turb_u_wake entry ff)) !! j = Some t'
    /\ turbulence_intensity t <= turbulence_intensity t'.
Proof.
  intros Ht.
  set (I := fun s : FlowField =>
    exists t', turbines s !! j = Some t'
               /\ turbulence_intensity t <= turbulence_intensity t').
  assert (Hup : forall s k_ti a amb, I s -> I (ti_updated k_ti a amb s)).
  { intros s k_ti a amb (t' & Ht' & Hle). unfold I, ti_updated. simpl.
    rewrite list_lookup_alter. case_decide as Hk; [|by eauto].
    subst. rewrite Ht'. simpl. eexists. split; [done|]. simpl.
    unfold updated_turbulence_intensity.
    etransitivity; [exact Hle|apply Rmax_r]. }
  assert (Hwp : wp (propagate_turbulence_to track lc rotated_x rotated_y
                      coord k turb_u_wake entry) (fun _ => I) I ff).
  { assert (HI : I ff) by (exists t; split; [done|lra]).
    destruct entry as [coord_ti k_ti]. unfold propagate_turbulence_to.
    repeat wp_step; try done; by apply Hup. }
  unfold wp in Hwp.
  by destruct (propagate_turbulence_to _ _ _ _ _ _ _ _ ff).
Qed.

(** C4, as amended: when the wake of the turbine [k] reaches the turbine
    [k_ti] with a positive area overlap, the turbulence intensity of
    [k_ti] becomes the maximum of its current value and of the
    root-sum-of-squares of the added turbulence (the area overlap times
    what the turbulence model returns) with the ambient turbulence
    intensity that the wind map holds at the index of the coordinate of
    [k_ti]; and the body of the turbulence loop never lowers the
    turbulence intensity of a turbine. *)
Theorem turbulence_update_uses_ambient track lc rotated_x rotated_y
    coord k turb_u_wake coord_ti k_ti (ff : FlowField) :
  let r := propagate_turbulence_to track lc rotated_x rotated_y coord k
                                   turb_u_wake (coord_ti, k_ti) ff in
  (forall j t, turbines ff !! j = Some t ->
     exists t', turbines (state_of r) !! j = Some t'
                /\ turbulence_intensity t <= turbulence_intensity t')
  /\ (forall turbine turbine_ti area_overlap ff',
        turbines ff !! k = Some turbine ->
        turbines ff !! k_ti = Some turbine_ti ->
        in_influence_zone coord coord_ti (rotor_diameter turbine) ->
        area_overlap_on ff rotated_x rotated_y (rotated_z lc) turb_u_wake
                        turbine coord_ti turbine_ti = Some area_overlap ->
        area_overlap > 0 ->
        r = Ok tt ff' ->
        exists idx ambient,
          np_where_both 0 (rx lc) (ry lc) (x1 coord_ti) (x2 coord_ti) = [idx]
          /\ turbine_turbulence_intensity (wind_map ff) !! idx = Some ambient
          /\ let ti_added :=
               area_overlap
               * turbulence_function (wake ff) ambient coord_ti coord turbine
             in
             turbulence_intensity <$> turbines ff' !! k_ti
             = Some (Rmax (sqrt (ti_added ^ 2 + ambient ^ 2))
                          (turbulence_intensity turbine_ti))).
Proof.
  intros r. split.
  - intros j t. apply propagate_turbulence_to_never_lowers.
  - intros turbine turbine_ti area_overlap ff' Hk Hk_ti Hzone Hao Hpos.
    subst r. unfold propagate_turbulence_to.
    rewrite run_bind. unfold index_of.
    destruct (np_where_both _ _ _ _ _) as [|idx [|]] eqn:Hidx; try done.
    simpl. rewrite run_bind. unfold get_turbine at 1.
    rewrite run_bind. simpl. rewrite Hk. simpl.
    rewrite decide_True by done.
    rewrite run_bind. unfold get_turbine at 1.
    rewrite run_bind. simpl. rewrite Hk_ti. simpl.
    rewrite run_bind. simpl. rewrite run_bind, Hao. simpl.
    rewrite decide_True by done.
    rewrite run_bind. unfold index.
    destruct (_ !! idx) as [ambient|] eqn:Hamb; [|done].
    simpl. rewrite run_bind. simpl.
    intros Hrun. exists idx, ambient. repeat split; try done.
    assert (Hts : turbines ff'
      = alter (fun t => set_turbulence_intensity
                 (updated_turbulence_intensity
                    (area_overlap * _compute_turbine_wake_turbulence
                                      ff ambient coord_ti coord turbine)
                    ambient (turbulence_intensity t)) t)
              k_ti (turbines ff)).
    { destruct track; simpl in Hrun; by injection Hrun as <-. }
    rewrite Hts, list_lookup_alter, decide_True by done.
    by rewrite Hk_ti.
Qed.

(** ** The accumulated deficit *)

Lemma turbine_wake_keeps_wake track lc u_wake entry (ff : FlowField) :
  wake (state_of (turbine_wake track lc u_wake entry ff)) = wake ff.
Proof.
  set (I := fun s : FlowField => wake s = wake ff).
  assert (Hwp : wp (turbine_wake track lc u_wake entry) (fun _ => I) I ff).
  { destruct entry as [coord k]. unfold turbine_wake.
    wp_step. wp_step; [|done]. wp_step.
    apply wp_rotated_grid_for; [|done]. intros [rotated_x rotated_y].
    unfold update_velocities.
    repeat wp_step; try done.
    all: eapply wp_mono;
      [apply (propagate_turbulence_invariant _ _ I); [|done] | done | done].
    all: by frame_invariant I. }
  unfold wp in Hwp. by destruct (turbine_wake _ _ _ _ ff).
Qed.

Lemma store_vw_keeps_wake turb_v_wake turb_w_wake (s : FlowField) :
  wake (state_of (store_vw turb_v_wake turb_w_wake s)) = wake s.
Proof.
  set (J := fun s' : FlowField => wake s' = wake s).
  assert (Hwp : wp (store_vw turb_v_wake turb_w_wake) (fun _ => J) J s).
  { unfold store_vw. repeat wp_step; done. }
  unfold wp in Hwp. by destruct (store_vw _ _ s).
Qed.

Lemma loop_body_deficit track lc u_wake deficits entry (ff : FlowField) :
  match turbine_wake track lc u_wake entry ff with
  | Ok (tu, tv, tw) s1 =>
      match store_vw tv tw s1 with
      | Ok _ s2 =>
          wake s2 = wake ff
          /\ wake_loop_body false track lc u_wake entry ff
             = Ok (combination_function (wake ff) u_wake tu) s2
          /\ deficit_loop_body track lc (u_wake, deficits) entry ff
             = Ok (combination_function (wake ff) u_wake tu,
                   deficits ++ [tu]) s2
      | Raise e s2 =>
          wake_loop_body false track lc u_wake entry ff = Raise e s2
          /\ deficit_loop_body track lc (u_wake, deficits) entry ff
             = Raise e s2
      end
  | Raise e s1 =>
      wake_loop_body false track lc u_wake entry ff = Raise e s1
      /\ deficit_loop_body track lc (u_wake, deficits) entry ff = Raise e s1
  end.
Proof.
  pose proof (turbine_wake_keeps_wake track lc u_wake entry ff) as Hkeep.
  unfold wake_loop_body, deficit_loop_body. rewrite !run_bind.
  destruct (turbine_wake track lc u_wake entry ff) as [[[tu tv] tw] s1|e s1];
    [|done].
  simpl in Hkeep. rewrite !run_bind. simpl. rewrite !run_bind.
  pose proof (store_vw_keeps_wake tv tw s1) as Hkeep2.
  destruct (store_vw tv tw s1) as [[] s2|e s2]; [|done].
  simpl in *. rewrite Hkeep. repeat split. congruence.
Qed.

Lemma wake_loop_deficits track lc wk (l : list (Vec3 * nat)) :
  forall u_wake deficits (ff : FlowField),
  wake ff = wk ->
  match for_each (wake_loop_body false track lc) u_wake l ff,
        for_each (deficit_loop_body track lc) (u_wake, deficits) l ff with
  | Ok u_wake' s, Ok (u_wake'', deficits') s' =>
      u_wake' = u_wake'' /\ s = s' /\ wake s = wk
      /\ exists new, deficits' = deficits ++ new
           /\ length new = length l
           /\ u_wake' = foldl (combination_function wk) u_wake new
  | Raise e s, Raise e' s' => e = e' /\ s = s'
  | _, _ => False
  end.
Proof.
  induction l as [|entry l IH]; intros u_wake deficits ff Hwk.
  - simpl. repeat split; try done. exists []. by rewrite app_nil_r.
  - rewrite !for_each_cons.
    pose proof (loop_body_deficit track lc u_wake deficits entry ff) as Hbody.
    destruct (turbine_wake track lc u_wake entry ff)
      as [[[tu tv] tw] s1|e s1]; [|by destruct Hbody as [-> ->]].
    destruct (store_vw tv tw s1) as [[] s2|e s2];
      [|by destruct Hbody as [-> ->]].
    destruct Hbody as (Hwk2 & -> & ->).
    rewrite Hwk in *.
    specialize (IH (combination_function wk u_wake tu)
                   (deficits ++ [tu]) s2 Hwk2).
    destruct (for_each (wake_loop_body _ _ _) _ l s2) as [uw' s|e s];
      destruct (for_each (deficit_loop_body _ _) _ l s2)
        as [[uw'' ds'] s'|e' s']; try done.
    destruct IH as (-> & -> & Hwk' & new & -> & Hlen & ->).
    repeat split; try done. exists (tu :: new).
    rewrite <- app_assoc. simpl. repeat split; try done. by f_equal.
Qed.

Lemma finish_wake_with_wake lc u_wake (s ff' : FlowField) :
  finish_wake false lc u_wake s = Ok tt ff' ->
  np_sub (u_initial s) u_wake = Some (u ff')
  /\ u_initial ff' = u_initial s /\ wake ff' = wake s.
Proof.
  unfold finish_wake. repeat (rewrite run_bind; simpl).
  destruct (np_sub (u_initial s) u_wake) as [u'|]; [|done].
  simpl. repeat (rewrite run_bind; simpl).
  repeat case_match; simpl; by intros [= <-].
Qed.


(** ** The lookup of a turbine's coordinate *)

Lemma np_where_both_spec rx ry cx cy n i :
  i ∈ np_where_both n rx ry cx cy
  <-> exists j, i = (n + j)%nat /\ rx !! j = Some cx /\ ry !! j = Some cy.
Proof.
  revert ry n. induction rx as [|a rx IH]; intros [|b ry] n; simpl.
  1-3: split; [by intros ?%elem_of_nil|by intros (j & _ & ? & ?)].
  assert (Hrec : i ∈ np_where_both (S n) rx ry cx cy
    <-> exists j, i = (n + S j)%nat
                  /\ rx !! j = Some cx /\ ry !! j = Some cy).
  { rewrite IH. split; intros (j & -> & ?); exists j; (split; [lia|done]). }
  destruct (bool_decide (b = cy) && bool_decide (a = cx)) eqn:Hab.
  - apply andb_true_iff in Hab as [->%bool_decide_eq_true ->%bool_decide_eq_true].
    rewrite elem_of_cons, Hrec. split.
    + intros [->|(j & -> & ?)]; [exists 0%nat|exists (S j)]; split; (lia || done).
    + intros ([|j] & -> & ?); [left; lia|right; by exists j].
  - rewrite Hrec. split.
    + intros (j & -> & ?). by exists (S j).
    + intros ([|j] & -> & Ha & Hb); [|by exists j].
      simpl in Ha, Hb. simplify_eq.
      by rewrite !bool_decide_eq_true_2 in Hab.
Qed.

Lemma index_of_eq rx ry coord (ff : FlowField) :
  index_of rx ry coord ff
  = match np_where_both 0 rx ry (x1 coord) (x2 coord) with
    | [idx] => Ok idx ff
    | _ => Raise TypeError ff
    end.
Proof.
  unfold index_of. by destruct (np_where_both _ _ _ _ _) as [|? [|]].
Qed.

Lemma turbine_wake_lookup_fails track lc u_wake coord k (ff : FlowField) :
  length (np_where_both 0 (rx lc) (ry lc) (x1 coord) (x2 coord)) <> 1%nat ->
  turbine_wake track lc u_wake (coord, k) ff = Raise TypeError ff.
Proof.
  intros Hlen. unfold turbine_wake. rewrite run_bind, index_of_eq.
  by destruct (np_where_both _ _ _ _ _) as [|? [|]].
Qed.

Lemma wake_loop_lookup_fails no_wake track lc (l : list (Vec3 * nat))
    coord k :
  (coord, k) ∈ l ->
  length (np_where_both 0 (rx lc) (ry lc) (x1 coord) (x2 coord)) <> 1%nat ->
  forall u_wake (ff : FlowField),
    exists e s, for_each (wake_loop_body no_wake track lc) u_wake l ff
                = Raise e s.
Proof.
  intros Hin Hlen. induction l as [|entry l IH]; intros u_wake ff.
  - by apply elem_of_nil in Hin.
  - rewrite for_each_cons.
    destruct (wake_loop_body no_wake track lc u_wake entry ff)
      as [u_wake' s|e s] eqn:Hbody; [|by eauto].
    apply elem_of_cons in Hin as [<-|Hin]; [|by apply IH].
    unfold wake_loop_body in Hbody. rewrite run_bind in Hbody.
    by rewrite turbine_wake_lookup_fails in Hbody.
Qed.

(** C8: the lookup of a coordinate in the stored coordinate arrays
    returns an index only when that index is the one position at which
    both arrays match; when no position or more than one matches it
    raises, and a call of [calculate_wake] whose sorted map holds such a
    coordinate does not return. *)
Theorem coordinate_lookup_is_unique_or_fatal (rx' ry' : list R)
    (coord : Vec3) (ff : FlowField) :
  (forall idx ff', index_of rx' ry' coord ff = Ok idx ff' ->
     ff' = ff
     /\ rx' !! idx = Some (x1 coord) /\ ry' !! idx = Some (x2 coord)
     /\ forall j, rx' !! j = Some (x1 coord) -> ry' !! j = Some (x2 coord) ->
                  j = idx)
  /\ (length (np_where_both 0 rx' ry' (x1 coord) (x2 coord)) <> 1%nat ->
      index_of rx' ry' coord ff = Raise TypeError ff)
  /\ (forall no_wake points track lc ff0 k,
        prepare_wake points track ff = Ok lc ff0 ->
        (coord, k) ∈ sorted_map lc ->
        length (np_where_both 0 (rx lc) (ry lc) (x1 coord) (x2 coord))
          <> 1%nat ->
        exists e s, calculate_wake no_wake points track ff = Raise e s).
Proof.
  split; [|split].
  - intros idx ff'. rewrite index_of_eq.
    destruct (np_where_both _ _ _ _ _) as [|i [|]] eqn:Hw; try done.
    intros [= -> ->]. split; [done|].
    assert (Hin : idx ∈ np_where_both 0 rx' ry' (x1 coord) (x2 coord))
      by (rewrite Hw; left).
    apply np_where_both_spec in Hin as (j & -> & Hx & Hy).
    repeat split; try done.
    intros j' Hx' Hy'.
    assert (Hin : j' ∈ np_where_both 0 rx' ry' (x1 coord) (x2 coord))
      by (apply np_where_both_spec; by exists j').
    rewrite Hw in Hin. by apply list_elem_of_singleton in Hin.
  - intros Hlen. rewrite index_of_eq.
    by destruct (np_where_both _ _ _ _ _) as [|? [|]].
  - intros no_wake points track lc ff0 k Hprep Hin Hlen.
    rewrite (calculate_wake_prepared _ _ _ _ _ _ Hprep), run_bind.
    destruct (wake_loop_lookup_fails no_wake track lc _ _ _ Hin Hlen
                (np_zeros_like (u ff0)) ff0) as (e & s & ->).
    by eauto.
Qed.

(** ** The area overlap *)

Lemma np_count_true_bounds (bs : list bool) :
  (0 <= np_count_true bs <= Z.of_nat (length bs))%Z.
Proof.
  unfold np_count_true. pose proof (length_filter (fun b => b = true) bs). lia.
Qed.

Lemma np_count_true_all (bs : list bool) :
  Forall (fun b => b = true) bs -> np_count_true bs = Z.of_nat (length bs).
Proof.
  intros Hall. unfold np_count_true. do 2 f_equal.
  induction Hall as [|b bs Hb _ IH]; [done|].
  rewrite filter_cons_True by done. by f_equal.
Qed.

Lemma np_count_true_none (bs : list bool) :
  Forall (fun b => b = false) bs -> np_count_true bs = 0%Z.
Proof.
  intros Hall. unfold np_count_true.
  induction Hall as [|b bs Hb _ IH]; [done|].
  rewrite filter_cons_False by (by rewrite Hb). done.
Qed.

Lemma np_broadcast_same f (a : list R) :
  np_broadcast f a a = Some (zip_with f a a).
Proof. unfold np_broadcast. by rewrite Nat.eqb_refl. Qed.


(** ** The ambient velocity profile *)

Lemma reinitialize_turbines_keeps_shear (ff : FlowField) :
  let ff' := state_of (reinitialize_turbines ff) in
  wind_shear ff' = wind_shear ff
  /\ reference_wind_height ff' = reference_wind_height ff.
Proof.
  rewrite reinitialize_turbines_eq. by case_decide.
Qed.

(** Broadcasting, case by case. *)
Lemma np_broadcast_same_shape f (a b : list R) :
  length a = length b -> np_broadcast f a b = Some (zip_with f a b).
Proof. intros Hlen. unfold np_broadcast. by rewrite Hlen, Nat.eqb_refl. Qed.

Lemma np_broadcast_one_l f (a0 : R) (b : list R) :
  np_broadcast f [a0] b = Some (f a0 <$> b).
Proof.
  unfold np_broadcast. destruct (_ =? _)%nat eqn:Hlen; [|done].
  apply Nat.eqb_eq in Hlen. by destruct b as [|b0 [|]].
Qed.

Lemma np_broadcast_one_r f (a : list R) (b0 : R) :
  np_broadcast f a [b0] = Some ((fun ai => f ai b0) <$> a).
Proof.
  unfold np_broadcast. destruct (_ =? _)%nat eqn:Hlen.
  - apply Nat.eqb_eq in Hlen. by destruct a as [|a0 [|]].
  - by destruct a as [|a0 [|]].
Qed.

Lemma np_broadcast_fails f (a b : list R) :
  length a <> length b -> length a <> 1%nat -> length b <> 1%nat ->
  np_broadcast f a b = None.
Proof.
  intros Hne Ha Hb. unfold np_broadcast.
  rewrite (proj2 (Nat.eqb_neq _ _)) by done.
  destruct a as [|a0 [|]], b as [|b0 [|]]; done.
Qed.

Lemma np_broadcast_lookup f (a b c : list R) i x y :
  np_broadcast f a b = Some c ->
  a !! i = Some x -> b !! i = Some y -> c !! i = Some (f x y).
Proof.
  unfold np_broadcast. intros Hc Ha Hb.
  destruct (_ =? _)%nat.
  - injection Hc as <-. by rewrite lookup_zip_with, Ha, Hb.
  - destruct a as [|a0 [|a1 a]].
    + done.
    + injection Hc as <-. rewrite list_lookup_fmap, Hb. simpl.
      destruct i as [|i]; [|done]. by injection Ha as <-.
    + destruct b as [|b0 [|b1 b]]; try done.
      remember (a0 :: a1 :: a) as al.
      injection Hc as <-. rewrite list_lookup_fmap, Ha. simpl.
      destruct i as [|i]; [|done]. by injection Hb as <-.
Qed.

Lemma np_zeros_like_replicate (l : list R) :
  np_zeros_like l = replicate (length l) 0.
Proof.
  unfold np_zeros_like. induction l as [|a l IH]; simpl; [done|]. by f_equal.
Qed.

Lemma initialize_velocities_eq (ff : FlowField) :
  initialize_velocities ff
  = match np_mul (grid_wind_speed (wind_map ff))
                 ((fun zi => np_power (zi / reference_wind_height ff)
                                      (wind_shear ff)) <$> z ff) with
    | Some u0 =>
        Ok tt (set_uvw u0 (np_zeros_like u0) (np_zeros_like u0)
                 (set_uvw_initial u0 (np_zeros_like u0) (np_zeros_like u0)
                                  ff))
    | None => Raise ValueError ff
    end.
Proof.
  unfold initialize_velocities. rewrite run_bind. simpl. rewrite run_bind.
  by destruct (np_mul _ _).
Qed.

Lemma initialize_velocities_returns (ff : FlowField) u0 :
  np_mul (grid_wind_speed (wind_map ff))
         ((fun zi => np_power (zi / reference_wind_height ff)
                              (wind_shear ff)) <$> z ff) = Some u0 ->
  exists ff', initialize_velocities ff = Ok tt ff'
    /\ u_initial ff' = u0 /\ ambient_initialized ff'.
Proof.
  intros Hu0. rewrite initialize_velocities_eq, Hu0.
  eexists. split; [done|]. split; [done|]. unfold ambient_initialized. simpl.
  by rewrite np_zeros_like_replicate.
Qed.

(** C9: after [reinitialize_flow_field] with a wind shear exponent,
    [initialize_velocities] sets [u_initial] at every grid point to the
    wind speed of the wind map there times [z / reference_wind_height]
    to the power of that exponent, whatever the exponent, sets
    [v_initial] and [w_initial] to zeros of the same shape, and copies
    the three into [u], [v] and [w]. This is so when the wind map holds
    a wind speed for every grid point, and when it holds one wind speed,
    which then counts at every grid point; a single height is broadcast
    over the wind speeds in the same way; with any other shapes the
    method raises [ValueError] and writes nothing. The domain helpers,
    whose code is not in the sources, are supposed to leave [wind_shear]
    alone. *)
Theorem initialize_velocities_follows_shear_profile (shear : R)
    wind_veer' wake' wind_map' with_resolution bounds_to_set
    reference_wind_height' reference_turbine_diameter' (ff : FlowField) :
  (forall b s, wind_shear (set_bounds b s) = wind_shear s) ->
  (forall r p s, wind_shear (_compute_initialized_domain r p s)
                 = wind_shear s) ->
  let ff1 :=
    state_of (reinitialize_flow_field (Some shear) wind_veer' wake' wind_map'
                with_resolution bounds_to_set reference_wind_height'
                reference_turbine_diameter' ff) in
  let speeds := grid_wind_speed (wind_map ff1) in
  let profile := fun speed zi =>
    speed * np_power (zi / reference_wind_height ff1) shear in
  wind_shear ff1 = shear
  /\ (length speeds = length (z ff1) ->
      exists ff2,
        initialize_velocities ff1 = Ok tt ff2
        /\ length (u_initial ff2) = length (z ff1)
        /\ (forall i zi, z ff1 !! i = Some zi ->
              exists speed, speeds !! i = Some speed
                /\ u_initial ff2 !! i = Some (profile speed zi))
        /\ ambient_initialized ff2)
  /\ (forall speed, speeds = [speed] ->
      exists ff2,
        initialize_velocities ff1 = Ok tt ff2
        /\ length (u_initial ff2) = length (z ff1)
        /\ (forall i zi, z ff1 !! i = Some zi ->
              u_initial ff2 !! i = Some (profile speed zi))
        /\ ambient_initialized ff2)
  /\ (forall z0, z ff1 = [z0] ->
      exists ff2,
        initialize_velocities ff1 = Ok tt ff2
        /\ length (u_initial ff2) = length speeds
        /\ (forall i speed, speeds !! i = Some speed ->
              u_initial ff2 !! i = Some (profile speed z0))
        /\ ambient_initialized ff2)
  /\ (length speeds <> length (z ff1) ->
      length speeds <> 1%nat -> length (z ff1) <> 1%nat ->
      initialize_velocities ff1 = Raise ValueError ff1).
Proof.
  intros Hbounds Hdomain ff1 speeds profile.
  assert (Hshear : wind_shear ff1 = shear).
  { subst ff1. unfold reinitialize_flow_field.
    repeat (rewrite run_bind; simpl).
    match goal with
    | |- wind_shear (state_of (reinitialize_turbines ?s)) = _ =>
        destruct (reinitialize_turbines_keeps_shear s) as [-> _]
    end.
    by rewrite Hdomain, Hbounds. }
  split; [done|]. split; [|split; [|split]].
  - intros Hlen.
    destruct (initialize_velocities_returns ff1
                (zip_with Rmult speeds
                   ((fun zi => np_power (zi / reference_wind_height ff1)
                                        (wind_shear ff1)) <$> z ff1)))
      as (ff2 & Hrun & Hu & Hrest).
    { apply np_broadcast_same_shape. by rewrite length_fmap. }
    exists ff2. split; [done|]. rewrite Hu, Hshear.
    split; [by rewrite length_zip_with, length_fmap, Hlen, Nat.min_id|].
    split; [|done]. intros i zi Hz.
    destruct (speeds !! i) as [speed|] eqn:Hs.
    + exists speed. split; [done|].
      rewrite lookup_zip_with. fold speeds. by rewrite Hs, list_lookup_fmap, Hz.
    + apply lookup_ge_None in Hs. apply lookup_lt_Some in Hz. lia.
  - intros speed Hone.
    destruct (initialize_velocities_returns ff1
                (Rmult speed <$>
                 ((fun zi => np_power (zi / reference_wind_height ff1)
                                      (wind_shear ff1)) <$> z ff1)))
      as (ff2 & Hrun & Hu & Hrest).
    { fold speeds. rewrite Hone. apply np_broadcast_one_l. }
    exists ff2. split; [done|]. rewrite Hu, Hshear.
    split; [by rewrite !length_fmap|]. split; [|done].
    intros i zi Hz. by rewrite !list_lookup_fmap, Hz.
  - intros z0 Hone.
    destruct (initialize_velocities_returns ff1
                ((fun speed =>
                    speed * np_power (z0 / reference_wind_height ff1)
                                     (wind_shear ff1)) <$> speeds))
      as (ff2 & Hrun & Hu & Hrest).
    { rewrite Hone. apply np_broadcast_one_r. }
    exists ff2. split; [done|]. rewrite Hu, Hshear.
    split; [by rewrite length_fmap|]. split; [|done].
    intros i speed Hs. by rewrite list_lookup_fmap, Hs.
  - intros Hne Hs Hz. rewrite initialize_velocities_eq.
    unfold np_mul. rewrite np_broadcast_fails; [done|..];
      by rewrite ?length_fmap.
Qed.

(** * More about the methods *)

(** ** Calls that fail before the loop *)

Lemma wp_index_found {A} (a : list A) i r (Q : A -> FlowField -> Prop) E ff :
  a !! i = Some r -> Q r ff -> wp (index a i) Q E ff.
Proof. intros Hr HQ. unfold index. by rewrite Hr. Qed.

Lemma wp_get_turbine_found k t (Q : Turbine -> FlowField -> Prop) E ff :
  turbines ff !! k = Some t -> Q t ff -> wp (get_turbine k) Q E ff.
Proof.
  intros Hk HQ. unfold get_turbine, wp. rewrite run_bind. simpl.
  by rewrite Hk.
Qed.

Lemma wp_index_of_found rx ry coord idx (Q : nat -> FlowField -> Prop) E ff :
  np_where_both 0 rx ry (x1 coord) (x2 coord) = [idx] ->
  Q idx ff -> wp (index_of rx ry coord) Q E ff.
Proof. intros Hw HQ. unfold wp. by rewrite index_of_eq, Hw. Qed.

(** ** Calls that return *)

Lemma rotate_farm_zeroes_vw (s : FlowField) lc ff0 :
  rotate_farm s = Ok lc ff0 ->
  v ff0 = np_zeros_like (u ff0) /\ w ff0 = np_zeros_like (u ff0).
Proof.
  unfold rotate_farm, center_of_rotation_of.
  cbv [mbind M_bind get modify mret M_ret raise].
  repeat (case_match; try done); by intros [= _ <-].
Qed.

Lemma wp_np_result_found {A} (r : option A) a
    (Q : A -> FlowField -> Prop) E ff :
  r = Some a -> Q a ff -> wp (np_result r) Q E ff.
Proof. by intros -> HQ. Qed.

Lemma np_broadcast_returns f (a b : list R) :
  length a = length b ->
  exists c, np_broadcast f a b = Some c /\ length c = length a.
Proof.
  intros Hlen. rewrite np_broadcast_same_shape by done.
  eexists. split; [done|]. rewrite length_zip_with. lia.
Qed.

Section NoException.

Variables (track : bool) (lc : WakeLocals) (ff0 : FlowField).

Hypothesis sorted_consistent : forall coord k,
  (coord, k) ∈ sorted_map lc ->
  (k < length (turbines ff0))%nat
  /\ exists idx,
       np_where_both 0 (rx lc) (ry lc) (x1 coord) (x2 coord) = [idx].

Hypothesis intensity_for_each :
  (length (rx lc)
   <= length (turbine_turbulence_intensity (wind_map ff0)))%nat.

Hypothesis direction_for_each :
  (length (rx lc) <= length (turbine_wind_direction (wind_map ff0)))%nat.

Hypothesis conform : fields_conform lc ff0.

Lemma lookup_found coord idx :
  np_where_both 0 (rx lc) (ry lc) (x1 coord) (x2 coord) = [idx] ->
  rx lc !! idx = Some (x1 coord) /\ ry lc !! idx = Some (x2 coord)
  /\ (idx < length (rx lc))%nat.
Proof.
  intros Hw.
  assert (Hin : idx ∈ np_where_both 0 (rx lc) (ry lc) (x1 coord) (x2 coord))
    by (rewrite Hw; left).
  apply np_where_both_spec in Hin as (j & -> & Hx & Hy).
  repeat split; try done. by apply lookup_lt_Some in Hx.
Qed.

Ltac found :=
  first [ eassumption
        | simpl; rewrite list_lookup_alter, decide_True by done;
          match goal with
          | Hl : turbines _ !! _ = Some _ |- _ => by rewrite Hl
          end ].

Ltac safe_step :=
  cbv beta;
  lazymatch goal with
  | |- wp (index _ _) _ _ _ => eapply wp_index_found; [found|]
  | |- wp (get_turbine _) _ _ _ => eapply wp_get_turbine_found; [found|]
  | |- wp (index_of _ _ _) _ _ _ => eapply wp_index_of_found; [found|]
  | |- wp (np_result _) _ _ _ => eapply wp_np_result_found; [eassumption|]
  | |- same_farm _ _ =>
      split; simpl; [by rewrite ?length_alter | done]
  | |- same_shape _ _ => by (unfold same_shape in *; simpl)
  | |- _ /\ _ => split
  | |- _ => wp_step
  end.

(** The area overlap has a value on fields of one shape. *)
Lemma area_overlap_on_returns (s : FlowField) rotated_x rotated_y
    turb_u_wake turbine coord_ti turbine_ti :
  same_shape ff0 s -> length turb_u_wake = length (u ff0) ->
  is_Some (area_overlap_on s rotated_x rotated_y (rotated_z lc) turb_u_wake
                           turbine coord_ti turbine_ti).
Proof.
  intros (_ & Hui & _) Htu. unfold area_overlap_on.
  destruct (np_broadcast_returns Rminus (u_initial s) turb_u_wake)
    as (additional & Hadd & Hlen); [congruence|].
  fold np_sub in Hadd. rewrite Hadd. simpl.
  pose proof (conform_swept _ _ conform turbine_ti (u_initial s) coord_ti
                rotated_x rotated_y (rotated_z lc) additional
                ltac:(by rewrite Hlen)) as Hswept.
  destruct (calculate_swept_area_velocities _ _ _ _ _ _ _)
    as [freestream_velocities wake_velocities].
  simpl in Hswept. unfold _calculate_area_overlap.
  destruct (np_broadcast_returns Rminus freestream_velocities
              wake_velocities Hswept) as (diffs & Hdiffs & _).
  fold np_sub in Hdiffs. rewrite Hdiffs. by eexists.
Qed.

Lemma propagate_turbulence_to_safe rotated_x rotated_y coord k turb_u_wake
    entry (s : FlowField) :
  entry ∈ sorted_map lc -> (k < length (turbines ff0))%nat ->
  length turb_u_wake = length (u ff0) ->
  same_farm ff0 s /\ same_shape ff0 s ->
  wp (propagate_turbulence_to track lc rotated_x rotated_y coord k
                              turb_u_wake entry)
     (fun _ s' => same_farm ff0 s' /\ same_shape ff0 s') (fun _ => False) s.
Proof.
  intros Hin Hk Htu [[Hn Hwm] Hshape]. destruct entry as [coord_ti k_ti].
  destruct (sorted_consistent _ _ Hin) as (Hk_ti & idx & Hw).
  destruct (lookup_found _ _ Hw) as (_ & _ & Hidx).
  destruct (lookup_lt_is_Some_2 (turbines s) k) as [t Ht]; [lia|].
  destruct (lookup_lt_is_Some_2 (turbines s) k_ti) as [t_ti Ht_ti]; [lia|].
  destruct (lookup_lt_is_Some_2
              (turbine_turbulence_intensity (wind_map s)) idx)
    as [a Ha]; [rewrite Hwm; lia|].
  destruct (area_overlap_on_returns s rotated_x rotated_y turb_u_wake
              t coord_ti t_ti Hshape Htu) as [area_overlap Hao].
  unfold propagate_turbulence_to.
  repeat safe_step.
Qed.

Lemma propagate_turbulence_safe rotated_x rotated_y coord k turb_u_wake
    (s : FlowField) :
  (k < length (turbines ff0))%nat ->
  length turb_u_wake = length (u ff0) ->
  same_farm ff0 s /\ same_shape ff0 s ->
  wp (propagate_turbulence track lc rotated_x rotated_y coord k turb_u_wake)
     (fun _ s' => same_farm ff0 s' /\ same_shape ff0 s') (fun _ => False) s.
Proof.
  intros Hk Htu Hs. unfold propagate_turbulence.
  wp_step. wp_step. wp_step; [|done].
  apply (wp_for_each _ (fun _ s' => same_farm ff0 s' /\ same_shape ff0 s'));
    [|done].
  intros _ entry s' Hin Hs'. by apply propagate_turbulence_to_safe.
Qed.

(** The grid seen from a turbine is found on grids of one shape. *)
Lemma rotated_grid_for_returns idx a b (s : FlowField) :
  wind_map s = wind_map ff0 ->
  rx lc !! idx = Some a -> ry lc !! idx = Some b ->
  exists r,
    rotated_grid_for (center_of_rotation lc) (rx lc) (ry lc)
                     (initial_rotated_x lc) (initial_rotated_y lc) idx s
    = Ok r s.
Proof.
  intros Hwm Hrx Hry. unfold rotated_grid_for.
  rewrite run_bind. simpl. rewrite Hwm.
  destruct (np_unique_size_is_1 _) eqn:Hhom; [by eexists|].
  destruct (conform_grid _ _ conform) as [Hone|[Hx Hy]]; [congruence|].
  destruct (lookup_lt_is_Some_2
              (turbine_wind_direction (wind_map ff0)) idx)
    as [twd Htwd]; [apply lookup_lt_Some in Hrx; lia|].
  rewrite run_bind. unfold index at 1. rewrite Htwd. simpl.
  rewrite run_bind. unfold index at 1. rewrite Hrx. simpl.
  rewrite run_bind. unfold index at 1. rewrite Hry. simpl.
  unfold np_sub, np_mul.
  rewrite run_bind, np_broadcast_same_shape
    by (rewrite !length_fmap; lia).
  simpl.
  rewrite run_bind.
  rewrite (np_broadcast_same_shape Rmult)
    by (rewrite !length_fmap; lia).
  simpl.
  rewrite (np_broadcast_same_shape Rmult)
    by (rewrite !length_fmap; lia).
  simpl.
  rewrite (np_broadcast_same_shape Rminus)
    by (rewrite !length_zip_with, !length_fmap; lia).
  simpl.
  rewrite (np_broadcast_same_shape Rminus)
    by (rewrite !length_zip_with, !length_fmap; lia).
  simpl.
  rewrite run_bind.
  rewrite (np_broadcast_same_shape Rminus)
    by (rewrite !length_zip_with, !length_fmap; lia).
  simpl. by eexists.
Qed.

Lemma wp_returned {A} (m : M A) a (s s' : FlowField)
    (Q : A -> FlowField -> Prop) E :
  m s = Ok a s' -> Q a s' -> wp m Q E s.
Proof. intros Hm HQ. unfold wp. by rewrite Hm. Qed.

Lemma turbine_wake_safe u_wake entry (s : FlowField) :
  entry ∈ sorted_map lc ->
  same_farm ff0 s /\ same_shape ff0 s ->
  wp (turbine_wake track lc u_wake entry)
     (fun deficit s' =>
        (same_farm ff0 s' /\ same_shape ff0 s')
        /\ length deficit.1.1 = length (u ff0)
        /\ length deficit.1.2 = length (u ff0)
        /\ length deficit.2 = length (u ff0))
     (fun _ => False) s.
Proof.
  intros Hin [[Hn Hwm] Hshape]. destruct entry as [coord k].
  destruct (sorted_consistent _ _ Hin) as (Hk & idx & Hw).
  destruct (lookup_found _ _ Hw) as (Hx & Hy & Hidx).
  destruct (lookup_lt_is_Some_2 (turbines s) k) as [t Ht]; [lia|].
  destruct (rotated_grid_for_returns idx _ _ s Hwm Hx Hy)
    as ([rotated_x rotated_y] & Hgrid).
  unfold turbine_wake, update_velocities.
  safe_step. safe_step. safe_step.
  eapply wp_returned; [exact Hgrid|]. cbv beta iota.
  repeat safe_step.
  match goal with
  | Hd : _compute_turbine_velocity_deficit ?rx ?ry ?rz ?t ?c ?d ?s0 = _ |- _ =>
      pose proof (conform_deficit _ _ conform rx ry rz t c d s0) as Hlen;
      rewrite Hd in Hlen; simpl in Hlen;
      destruct Hlen as (Hu & Hv & Hw'); [by destruct Hshape|]
  end.
  eapply wp_mono;
    [apply propagate_turbulence_safe; [done|done|]| |done].
  - split; [|by destruct Hshape]. split; simpl; [by rewrite length_alter|done].
  - intros ? s' Hs'. wp_step. by split.
Qed.

Lemma wake_loop_safe no_wake u_wake (s : FlowField) :
  length u_wake = length (u ff0) ->
  same_farm ff0 s /\ same_shape ff0 s ->
  wp (for_each (wake_loop_body no_wake track lc) u_wake (sorted_map lc))
     (fun u_wake' s' =>
        length u_wake' = length (u ff0)
        /\ same_farm ff0 s' /\ same_shape ff0 s')
     (fun _ => False) s.
Proof.
  intros Hacc Hs.
  apply (wp_for_each _ (fun u_wake' s' =>
           length u_wake' = length (u ff0)
           /\ same_farm ff0 s' /\ same_shape ff0 s')); [|done].
  clear u_wake s Hacc Hs.
  intros acc entry s' Hin [Hacc Hs']. unfold wake_loop_body.
  wp_step. eapply wp_mono; [by apply turbine_wake_safe| |done].
  intros [[tu tv] tw] s1 ([Hfarm (Hu & Hui & Hv & Hw)] & Htu & Htv & Htw).
  simpl in Htu, Htv, Htw. cbv beta iota.
  destruct no_wake; [by wp_step|].
  destruct (np_broadcast_returns Rplus (v s1) tv) as (v' & Hv' & Hlv);
    [congruence|].
  destruct (np_broadcast_returns Rplus (w s1) tw) as (w' & Hw' & Hlw);
    [congruence|].
  assert (Hcomb : forall wk,
            length (combination_function wk acc tu) = length (u ff0))
    by (intros wk; by apply (conform_combination _ _ conform)).
  assert (Hshape : same_shape ff0 s1) by done.
  unfold store_vw. repeat safe_step; try apply Hcomb.
  all: unfold same_farm, same_shape in *; simpl;
    repeat split; try tauto; congruence.
Qed.

End NoException.


(** ** What a call leaves alone *)

Lemma finish_wake_gated_invariant (I : FlowField -> Prop) no_wake lc u_wake
    ff :
  (no_wake = false -> forall s u', I s -> I (set_uvw u' (v s) (w s) s)) ->
  (forall s x' y' z',
     velocity_model_string (wake s) = "curl"%string ->
     I s -> I (set_xyz x' y' z' s)) ->
  I ff -> wp (finish_wake no_wake lc u_wake) (fun _ => I) I ff.
Proof.
  intros Hu Hxyz HI. unfold finish_wake.
  wp_step. apply (wp_mono _ (fun _ => I) _ I); [|intros _ s Hs|done].
  { destruct no_wake; repeat wp_step; auto. }
  repeat wp_step; auto.
  match goal with
  | Hb : bool_decide _ = true |- _ => apply bool_decide_eq_true in Hb
  end.
  by apply Hxyz.
Qed.

Lemma calculate_wake_keeps (I : FlowField -> Prop) no_wake track
    (ff : FlowField) :
  (forall s, I s -> I (reset_uvw s)) ->
  (forall s, track = true -> I s ->
     I (set_wake_list (Some ((fun _ => 0%nat) <$> turbines s)) s)) ->
  (forall s i ti, I s ->
     I (set_turbines
          (alter (fun t => reset_velocities (set_turbulence_intensity ti t))
                 i (turbines s)) s)) ->
  (forall s cs, I s -> I (set_coords cs s)) ->
  (forall s v' w', I s -> I (set_uvw (u s) v' w' s)) ->
  (forall s k vs,
     I s -> I (set_turbines (alter (set_velocities vs) k (turbines s)) s)) ->
  (forall s k_ti ti_added ambient, I s ->
     I (ti_updated k_ti ti_added ambient s)
     /\ (track = true ->
         I (wake_counted k_ti (ti_updated k_ti ti_added ambient s)))) ->
  (no_wake = false -> forall s u', I s -> I (set_uvw u' (v s) (w s) s)) ->
  (forall s x' y' z',
     velocity_model_string (wake s) = "curl"%string ->
     I s -> I (set_xyz x' y' z' s)) ->
  I ff -> I (state_of (calculate_wake no_wake None track ff)).
Proof.
  intros Hreset Hwl Hrefresh Hcoords Hvw Hvel Hti Hu Hxyz HI.
  assert (Hwp : wp (calculate_wake no_wake None track) (fun _ => I) I ff).
  { unfold calculate_wake. wp_step.
    eapply wp_mono;
      [apply (prepare_wake_invariant _ _ I); try done; by intros ? []
      | |done].
    intros lc ff1 HI1. do 3 wp_step.
    eapply wp_mono;
      [apply (wake_loop_invariant _ _ I); try done; intros; by apply Hti
      | |done].
    intros u_wake ff2 HI2. cbv beta.
    by apply finish_wake_gated_invariant. }
  unfold wp in Hwp. by destruct (calculate_wake _ _ _ ff).
Qed.

(** X2: [calculate_wake], called without extra points, never writes the
    parameters of the flow field, its wake models, its wind map or the
    ambient velocities [u_initial], [v_initial], [w_initial]; it keeps
    the number of turbines and, of each turbine, the rotor diameter, the
    grid point count and the definition; and it keeps the grid [x], [y],
    [z] unless the velocity model is named "curl". This holds whether
    the call returns or raises. *)
Theorem calculate_wake_frame no_wake track (ff : FlowField) :
  let ff' := state_of (calculate_wake no_wake None track ff) in
  (wind_shear ff' = wind_shear ff /\ wind_veer ff' = wind_veer ff
   /\ reference_wind_height ff' = reference_wind_height ff
   /\ reference_turbine_diameter ff' = reference_turbine_diameter ff
   /\ wake ff' = wake ff /\ wind_map ff' = wind_map ff
   /\ u_initial ff' = u_initial ff /\ v_initial ff' = v_initial ff
   /\ w_initial ff' = w_initial ff)
  /\ Forall2 same_definition (turbines ff) (turbines ff')
  /\ (velocity_model_string (wake ff) <> "curl"%string ->
      x ff' = x ff /\ y ff' = y ff /\ z ff' = z ff).
Proof.
  intros ff'. subst ff'. split; [|split].
  - set (I := fun s : FlowField =>
      wind_shear s = wind_shear ff /\ wind_veer s = wind_veer ff
      /\ reference_wind_height s = reference_wind_height ff
      /\ reference_turbine_diameter s = reference_turbine_diameter ff
      /\ wake s = wake ff /\ wind_map s = wind_map ff
      /\ u_initial s = u_initial ff /\ v_initial s = v_initial ff
      /\ w_initial s = w_initial ff).
    apply (calculate_wake_keeps I); by frame_invariant I.
  - set (I := fun s : FlowField =>
      Forall2 same_definition (turbines ff) (turbines s)).
    apply (calculate_wake_keeps I); try done.
    + intros s i ti Hs. apply Forall2_alter_r; [done|].
      by intros t t' _ _ (? & ? & ?).
    + intros s k vs Hs. apply Forall2_alter_r; [done|].
      by intros t t' _ _ (? & ? & ?).
    + intros s k_ti ti_added ambient Hs.
      assert (I (ti_updated k_ti ti_added ambient s)); [|done].
      apply Forall2_alter_r; [done|]. by intros t t' _ _ (? & ? & ?).
    + apply Forall2_same_length_lookup. split; [done|].
      intros i t t' Ht Ht'. by simplify_eq.
  - intros Hcurl.
    set (I := fun s : FlowField =>
      wake s = wake ff /\ x s = x ff /\ y s = y ff /\ z s = z ff).
    cut (I (state_of (calculate_wake no_wake None track ff)));
      [by intros (_ & ? & ? & ?)|].
    apply (calculate_wake_keeps I); by frame_invariant I.
Qed.

(** X3: [self.wake_list] lives on between calls: a call that does not
    count the upstream wakes leaves it as it was, counters of an earlier
    call included; a call that counts them and returns leaves one
    counter for every turbine. *)
Theorem wake_list_is_kept_or_rebuilt no_wake (ff : FlowField) :
  wake_list (state_of (calculate_wake no_wake None false ff)) = wake_list ff
  /\ (forall points ff',
        calculate_wake no_wake points true ff = Ok tt ff' ->
        exists wl, wake_list ff' = Some wl
                   /\ length wl = length (turbines ff')).
Proof.
  split.
  - set (I := fun s : FlowField => wake_list s = wake_list ff).
    apply (calculate_wake_keeps I); try (by frame_invariant I).
  - intros points ff' Hrun.
    destruct (calculate_wake_returns _ _ _ _ _ _ Hrun) as (lc & ff0 & Hprep).
    set (I := fun s : FlowField =>
      exists wl, wake_list s = Some wl /\ length wl = length (turbines s)).
    assert (HI : I (state_of (calculate_wake no_wake points true ff))).
    { apply (calculate_wake_invariant _ _ _ _ lc ff0); [done| |].
      - split; try done.
        + intros s k vs (wl & Hwl & Hlen). exists wl. simpl.
          by rewrite length_alter.
        + intros rotated_x rotated_y tuw coord k s coord_ti k_ti
                 ti_added ambient _ _ (wl & Hwl & Hlen).
          split; [|intros _]; simpl.
          * exists wl. simpl. by rewrite length_alter.
          * exists (alter S k_ti wl). unfold I. simpl.
            by rewrite Hwl, !length_alter.
      - destruct (prepare_wake_ok _ _ _ _ _ Hprep)
          as (Hlen & Hts & _ & _ & Hwl & _).
        exists (replicate (length (turbines ff0)) 0%nat).
        rewrite length_replicate. split; [|done].
        rewrite Hwl, Hts, length_refreshed by done.
        apply before_refresh_wake_list. }
    by rewrite Hrun in HI.
Qed.

(** ** The lateral and vertical components without wakes *)

Lemma wake_loop_no_wake_invariant track lc (I : FlowField -> Prop) u_wake ff :
  (forall s k vs,
     I s -> I (set_turbines (alter (set_velocities vs) k (turbines s)) s)) ->
  (forall s k_ti ti_added ambient, I s ->
     I (ti_updated k_ti ti_added ambient s)
     /\ (track = true ->
         I (wake_counted k_ti (ti_updated k_ti ti_added ambient s)))) ->
  I ff ->
  wp (for_each (wake_loop_body true track lc) u_wake (sorted_map lc))
     (fun _ => I) I ff.
Proof.
  intros Hvel Hti. apply (wp_for_each _ (fun _ => I)).
  intros acc entry s Hin Hs. unfold wake_loop_body.
  wp_step.
  eapply wp_mono;
    [apply (turbine_wake_invariant track lc I); try done; intros; by apply Hti
    | |done].
  intros [[tu tv] tw] s1 Hs1. by wp_step.
Qed.

(** X4: when [calculate_wake(no_wake=True)] returns, [v] and [w] are
    fields of zeros of the shape of [u]: the call empties them before its
    loop and, without wakes, stores nothing in them; they are not reset
    to [v_initial] and [w_initial]. *)
Theorem no_wake_leaves_vw_empty points track (ff ff' : FlowField) :
  calculate_wake true points track ff = Ok tt ff' ->
  v ff' = np_zeros_like (u ff') /\ w ff' = np_zeros_like (u ff').
Proof.
  intros Hrun.
  destruct (calculate_wake_returns _ _ _ _ _ _ Hrun) as (lc & ff0 & Hprep).
  set (I := fun s : FlowField =>
    v s = np_zeros_like (u s) /\ w s = np_zeros_like (u s)).
  assert (H0 : I ff0).
  { unfold prepare_wake in Hprep. rewrite run_bind in Hprep.
    destruct (begin_wake points track ff) as [[] s|]; [|done].
    by apply rotate_farm_zeroes_vw in Hprep. }
  rewrite (calculate_wake_prepared _ _ _ _ _ _ Hprep) in Hrun.
  assert (Hwp : wp (u_wake ← for_each (wake_loop_body true track lc)
                                      (np_zeros_like (u ff0)) (sorted_map lc);
                    finish_wake true lc u_wake) (fun _ => I) I ff0).
  { wp_step.
    eapply wp_mono;
      [apply (wake_loop_no_wake_invariant track lc I);
       by frame_invariant I| |done].
    intros u_wake s Hs. cbv beta.
    apply finish_wake_no_wake_invariant; [|done]. by frame_invariant I. }
  unfold wp in Hwp. by rewrite Hrun in Hwp.
Qed.

(** ** Calls that raise before the loop *)

Lemma length_refreshed_any tti (ts : list Turbine) :
  length (refreshed tti ts) = length ts.
Proof.
  unfold refreshed.
  rewrite length_app, length_zip_with, length_drop. lia.
Qed.

Lemma refreshed_lookup_lt tti (ts : list Turbine) i a t :
  tti !! i = Some a -> ts !! i = Some t ->
  refreshed tti ts !! i = Some (refresh a t).
Proof.
  intros Ha Ht. unfold refreshed.
  rewrite lookup_app_l.
  - by rewrite lookup_zip_with, Ha, Ht.
  - rewrite length_zip_with.
    apply lookup_lt_Some in Ha. apply lookup_lt_Some in Ht. lia.
Qed.

Lemma refreshed_lookup_ge tti (ts : list Turbine) i :
  (length tti <= i)%nat -> refreshed tti ts !! i = ts !! i.
Proof.
  intros Hi. unfold refreshed.
  destruct (decide (length ts <= length tti)%nat) as [Hle|Hgt].
  - rewrite drop_ge, app_nil_r by done.
    rewrite !lookup_ge_None_2; [done|lia|rewrite length_zip_with; lia].
  - rewrite lookup_app_r; rewrite length_zip_with; [|lia].
    rewrite lookup_drop. f_equal. lia.
Qed.

Lemma before_refresh_no_points track (ff : FlowField) :
  let s := before_refresh None track ff in
  turbines s = turbines ff /\ wind_map s = wind_map ff
  /\ x s = x ff /\ y s = y ff.
Proof.
  unfold before_refresh.
  by destruct (velocity_model_grid_resolution _), track.
Qed.

Lemma calculate_wake_begins no_wake points track (ff : FlowField) :
  let s := before_refresh points track ff in
  let tti := turbine_turbulence_intensity (wind_map s) in
  (length tti < length (turbines s))%nat ->
  calculate_wake no_wake points track ff
  = Raise IndexError (set_turbines (refreshed tti (turbines s)) s).
Proof.
  intros s tti Hlen. unfold calculate_wake, prepare_wake.
  rewrite !run_bind, begin_wake_eq, reinitialize_turbines_eq.
  fold s. fold tti. rewrite decide_False by lia. done.
Qed.

(** X5: when the wind map holds fewer turbulence intensities than the
    farm has turbines, [calculate_wake] raises [IndexError] half-way
    through its reset of the turbines: those that have an entry in the
    wind map are left with that intensity and an empty velocity
    accumulator, the others are left as they were. *)
Theorem calculate_wake_raises_on_short_wind_map no_wake track
    (ff : FlowField) :
  let tti := turbine_turbulence_intensity (wind_map ff) in
  (length tti < length (turbines ff))%nat ->
  exists s,
    calculate_wake no_wake None track ff = Raise IndexError s
    /\ (forall i a t, tti !! i = Some a -> turbines ff !! i = Some t ->
          turbines s !! i
          = Some (reset_velocities (set_turbulence_intensity a t)))
    /\ (forall i, (length tti <= i)%nat ->
          turbines s !! i = turbines ff !! i).
Proof.
  intros tti Hlen.
  destruct (before_refresh_no_points track ff) as (Hts & Hwm & _).
  eexists. split; [|split].
  - apply calculate_wake_begins. by rewrite Hts, Hwm.
  - intros i a t Ha Ht. simpl. rewrite Hts, Hwm.
    by apply refreshed_lookup_lt.
  - intros i Hi. simpl. rewrite Hts, Hwm. by apply refreshed_lookup_ge.
Qed.

(** X6: on a grid without points, [calculate_wake] raises [ValueError]
    when it looks for the center of rotation; by then it has reset every
    turbine to the ambient turbulence intensity of the wind map and, if
    asked to count the upstream wakes, has set the counters to 0. *)
Theorem calculate_wake_raises_on_empty_grid no_wake track (ff : FlowField) :
  (length (turbines ff)
   <= length (turbine_turbulence_intensity (wind_map ff)))%nat ->
  x ff = [] \/ y ff = [] ->
  exists s,
    calculate_wake no_wake None track ff = Raise ValueError s
    /\ (forall i t, turbines s !! i = Some t ->
          turbine_turbulence_intensity (wind_map s) !! i
            = Some (turbulence_intensity t)
          /\ velocities t = replicate (Z.to_nat (grid_point_count t)) 0)
    /\ (track = true ->
        wake_list s = Some (replicate (length (turbines s)) 0%nat)).
Proof.
  intros Hlen Hempty.
  destruct (before_refresh_no_points track ff) as (Hts & Hwm & Hx & Hy).
  set (s0 := before_refresh None track ff) in *.
  set (tti := turbine_turbulence_intensity (wind_map s0)).
  exists (set_turbines (refreshed tti (turbines s0)) s0). split; [|split].
  - unfold calculate_wake, prepare_wake.
    rewrite !run_bind, begin_wake_eq, reinitialize_turbines_eq.
    fold s0. fold tti.
    rewrite decide_True by (by unfold tti; rewrite Hts, Hwm).
    unfold rotate_farm. rewrite run_bind.
    unfold center_of_rotation_of. rewrite run_bind. simpl.
    rewrite Hx, Hy.
    destruct Hempty as [-> | ->]; simpl; [done|].
    by destruct (np_min (x ff)), (np_max (x ff)).
  - intros i t Ht. simpl in *.
    apply refreshed_lookup in Ht as (a & t0 & Ha & Ht0 & ->);
      [|by unfold tti; rewrite Hts, Hwm].
    fold tti. by rewrite Ha.
  - intros ->.
    change (wake_list s0
            = Some (replicate (length (refreshed tti (turbines s0))) 0%nat)).
    rewrite length_refreshed_any. apply before_refresh_wake_list.
Qed.

(** X7: with a velocity model that declares a grid resolution,
    [calculate_wake] starts from the ambient velocities: what an earlier
    call left in [u], [v] and [w] has no effect on its outcome. *)
Theorem calculate_wake_forgets_velocities no_wake points track
    (ff : FlowField) u' v' w' :
  is_Some (velocity_model_grid_resolution (wake ff)) ->
  calculate_wake no_wake points track (set_uvw u' v' w' ff)
  = calculate_wake no_wake points track ff.
Proof.
  intros [r Hr]. unfold calculate_wake, prepare_wake.
  rewrite !run_bind, !begin_wake_eq.
  replace (before_refresh points track (set_uvw u' v' w' ff))
    with (before_refresh points track ff); [done|].
  unfold before_refresh. simpl. by rewrite Hr.
Qed.

(** X8: [reinitialize_flow_field] returns exactly when, once the domain
    is rebuilt, the wind map holds a turbulence intensity for every
    turbine, and raises [IndexError] otherwise; when it returns, every
    turbine carries the intensity the wind map holds for it and an empty
    velocity accumulator. *)
Theorem reinitialize_flow_field_outcome wind_shear' wind_veer' wake'
    wind_map' with_resolution bounds_to_set reference_wind_height'
    reference_turbine_diameter' (ff : FlowField) :
  let r := reinitialize_flow_field wind_shear' wind_veer' wake' wind_map'
             with_resolution bounds_to_set reference_wind_height'
             reference_turbine_diameter' ff in
  let s := state_of r in
  let enough :=
    (length (turbines s)
     <= length (turbine_turbulence_intensity (wind_map s)))%nat in
  (enough -> r = Ok tt s
     /\ forall i t, turbines s !! i = Some t ->
          turbine_turbulence_intensity (wind_map s) !! i
            = Some (turbulence_intensity t)
          /\ velocities t = replicate (Z.to_nat (grid_point_count t)) 0)
  /\ (~ enough -> r = Raise IndexError s).
Proof.
  intros r s enough. subst r s enough.
  unfold reinitialize_flow_field.
  repeat (rewrite run_bind; simpl).
  rewrite reinitialize_turbines_eq.
  match goal with
  | |- context [refreshed ?tti (turbines ?s0)] =>
      set (tti0 := tti); set (s1 := s0)
  end.
  assert (Hst : forall b : bool,
    state_of ((if b then Ok tt else Raise IndexError)
                (set_turbines (refreshed tti0 (turbines s1)) s1))
    = set_turbines (refreshed tti0 (turbines s1)) s1) by (by intros []).
  case_decide as Hlen.
  - split; [|intros []]; simpl; rewrite ?length_refreshed_any; try done.
    intros _. split; [done|]. intros i t Ht.
    apply refreshed_lookup in Ht as (a & t0 & Ha & Ht0 & ->); [|done].
    split; [exact Ha|done].
  - split; [intros Hle; destruct Hlen|done].
    simpl in Hle. by rewrite length_refreshed_any in Hle.
Qed.

(** ** The area overlap as a count *)

Lemma np_count_true_complement (ds : list R) :
  Z.add (np_count_true ((fun d => bool_decide (d <= 0.05)) <$> ds))
        (Z.of_nat (length (filter (fun d => d > 0.05) ds)))
  = Z.of_nat (length ds).
Proof.
  unfold np_count_true. induction ds as [|d ds IH]; [done|].
  rewrite fmap_cons, !filter_cons. simpl.
  case_bool_decide; repeat case_decide; simpl; try lia; lra.
Qed.

Lemma filter_nonempty_Exists (ds : list R) :
  Nat.lt 0 (length (filter (fun d => d > 0.05) ds))
  <-> Exists (fun d => d > 0.05) ds.
Proof.
  induction ds as [|d ds IH]; simpl.
  - split; [lia|by intros ?%Exists_nil].
  - rewrite filter_cons, Exists_cons. case_decide; simpl; [|tauto].
    split; [tauto|lia].
Qed.

(** X9: when the turbine's [grid_point_count] is positive and is the
    number of sample points, the area overlap is the share of the sample
    points at which the freestream velocity exceeds the wake velocity by
    more than 0.05; it is positive exactly when there is such a point,
    and a difference of exactly 0.05 does not count. *)
Theorem area_overlap_counts_points_above_threshold (wake_velocities
    freestream_velocities diffs : list R) (turbine : Turbine) :
  (0 < grid_point_count turbine)%Z ->
  np_sub freestream_velocities wake_velocities = Some diffs ->
  Z.of_nat (length diffs) = grid_point_count turbine ->
  exists area_overlap,
    _calculate_area_overlap wake_velocities freestream_velocities turbine
    = Some area_overlap
    /\ area_overlap
       = INR (length (filter (fun d => d > 0.05) diffs))
         / IZR (grid_point_count turbine)
    /\ (area_overlap > 0 <-> Exists (fun d => d > 0.05) diffs).
Proof.
  intros Hpos Hsub Hlen.
  assert (Hn : 0 < IZR (grid_point_count turbine)) by (by apply IZR_lt).
  unfold _calculate_area_overlap. rewrite Hsub. simpl.
  eexists. split; [done|].
  match goal with |- ?a = _ /\ _ => set (area_overlap := a) end.
  assert (Heq : area_overlap
    = INR (length (filter (fun d => d > 0.05) diffs))
      / IZR (grid_point_count turbine)).
  { subst area_overlap.
    f_equal. rewrite INR_IZR_INZ. f_equal.
    pose proof (np_count_true_complement diffs). lia. }
  split; [done|]. rewrite Heq, <- filter_nonempty_Exists.
  set (n := length (filter (fun d => d > 0.05) diffs)).
  split.
  - intros Hgt. destruct n as [|n]; [|unfold Nat.lt; lia].
    simpl in Hgt. unfold Rdiv in Hgt. rewrite Rmult_0_l in Hgt. lra.
  - intros Hlt. apply Rdiv_lt_0_compat; [|done].
    by apply (lt_INR 0).
Qed.

(** ** The turbines of the front row *)

(** X10: a turbine that no turbine of the sorted map stands upstream of
    ends a call of [calculate_wake] that returns with the ambient
    turbulence intensity of the wind map and, when the upstream wakes
    are counted, with a counter of 0: no wake is propagated to it, not
    even its own. *)
Theorem front_turbine_keeps_ambient_intensity no_wake points track
    (ff ff' : FlowField) lc ff0 (j : nat) :
  prepare_wake points track ff = Ok lc ff0 ->
  (forall coord_j coord k,
     (coord_j, j) ∈ sorted_map lc -> (coord, k) ∈ sorted_map lc ->
     x1 coord_j <= x1 coord) ->
  calculate_wake no_wake points track ff = Ok tt ff' ->
  (forall t, turbines ff' !! j = Some t ->
     turbine_turbulence_intensity (wind_map ff') !! j
     = Some (turbulence_intensity t))
  /\ (track = true -> (j < length (turbines ff'))%nat ->
      wake_list ff' ≫= (fun wl => wl !! j) = Some 0%nat).
Proof.
  intros Hprep Hfront Hrun.
  set (I := fun s : FlowField =>
    (forall t, turbines s !! j = Some t ->
       turbine_turbulence_intensity (wind_map s) !! j
       = Some (turbulence_intensity t))
    /\ length (turbines s) = length (turbines ff0)
    /\ wake_list s ≫= (fun wl => wl !! j)
       = wake_list ff0 ≫= (fun wl => wl !! j)).
  assert (HI : I (state_of (calculate_wake no_wake points track ff))).
  { apply (calculate_wake_invariant _ _ _ _ lc ff0); [done| |].
    - split; try done.
      + intros s k vs (Hti & Hlen & Hwl). split; [|split]; [|simpl|done].
        * intros t Ht. simpl in Ht.
          apply lookup_alter_turbine in Ht as (t0 & Ht0 & [->|[_ ->]]);
            by apply Hti in Ht0.
        * by rewrite length_alter.
      + intros rotated_x rotated_y tuw coord k s coord_ti k_ti
               ti_added ambient Hin Hreach (Hti & Hlen & Hwl).
        assert (Hne : k_ti <> j).
        { intros ->. destruct Hreach as [_ Hentry Hzone _].
          destruct Hzone as (turbine & _ & (Hx & _) & _).
          specialize (Hfront _ _ _ Hentry Hin). lra. }
        assert (Hup : I (ti_updated k_ti ti_added ambient s)).
        { split; [|split]; [|simpl; by rewrite length_alter|done].
          intros t Ht. simpl in Ht.
          rewrite list_lookup_alter_ne in Ht by done. by apply Hti. }
        split; [done|]. intros _.
        destruct Hup as (Hti' & Hlen' & Hwl'). split; [|split]; [done..|].
        rewrite <- Hwl'. simpl.
        destruct (wake_list s) as [wl|]; [|done]. simpl.
        by rewrite list_lookup_alter_ne.
    - split; [|done]. intros t Ht.
      by destruct (prepare_wake_refreshes _ _ _ _ _ Hprep j t Ht). }
  rewrite Hrun in HI. simpl in HI. destruct HI as (Hti & Hlen & Hwl).
  split; [done|]. intros -> Hj. rewrite Hwl.
  destruct (prepare_wake_ok _ _ _ _ _ Hprep)
    as (Hle & Hts & _ & _ & Hwl0 & _).
  rewrite Hwl0, before_refresh_wake_list. simpl.
  apply lookup_replicate_2.
  rewrite Hlen, Hts, length_refreshed_any in Hj. done.
Qed.

(** ** The grid seen from a turbine *)

Lemma sind_0 : sind 0 = 0.
Proof. unfold sind. replace (0 * PI / 180) with 0 by lra. apply sin_0. Qed.

Lemma cosd_0 : cosd 0 = 1.
Proof. unfold cosd. replace (0 * PI / 180) with 0 by lra. apply cos_0. Qed.

(** X11: the grid a turbine sees is the initial rotated grid wherever
    the wind direction of the grid is the wind direction at the turbine:
    the adjustment for a heterogeneous wind direction moves no such
    point, and the flow field is not written. *)
Theorem rotated_grid_keeps_aligned_points center (rx ry irx iry : list R)
    (idx : nat) (ff s : FlowField) rotated_x rotated_y :
  rotated_grid_for center rx ry irx iry idx ff = Ok (rotated_x, rotated_y) s ->
  s = ff
  /\ forall i twd a b,
       turbine_wind_direction (wind_map ff) !! idx = Some twd ->
       grid_wind_direction (wind_map ff) !! i = Some twd ->
       irx !! i = Some a -> iry !! i = Some b ->
       rotated_x !! i = Some a /\ rotated_y !! i = Some b.
Proof.
  unfold rotated_grid_for. rewrite run_bind. simpl.
  destruct (np_unique_size_is_1 _).
  - intros [= <- <- <-]. split; [done|]. by intros i twd a b _ _ -> ->.
  - rewrite run_bind. unfold index at 1.
    destruct (turbine_wind_direction (wind_map ff) !! idx) as [twd0|];
      [|done].
    simpl. rewrite run_bind. unfold index at 1.
    destruct (rx !! idx) as [rx_idx|]; [|done].
    simpl. rewrite run_bind. unfold index at 1.
    destruct (ry !! idx) as [ry_idx|]; [|done].
    simpl. rewrite run_bind.
    destruct (np_sub iry _) as [rotated_y'|] eqn:Hy; [|done].
    simpl. rewrite run_bind.
    destruct (np_mul _ (cosd <$> _)) as [m1|] eqn:Hm1; [|done].
    simpl.
    destruct (np_mul _ (sind <$> _)) as [m2|] eqn:Hm2; [|done].
    simpl.
    destruct (np_sub m1 m2) as [m3|] eqn:Hm3; [|done].
    simpl.
    destruct (np_sub m3 _) as [x_grid_offset|] eqn:Hxo; [|done].
    simpl. rewrite run_bind.
    destruct (np_sub irx x_grid_offset) as [rotated_x'|] eqn:Hx; [|done].
    simpl. intros [= <- <- <-]. split; [done|].
    intros i twd a b [= ->] Hg Ha Hb.
    assert (Hwd : ((fun g => twd - g) <$> grid_wind_direction (wind_map ff))
                  !! i = Some 0)
      by (rewrite list_lookup_fmap, Hg; simpl; f_equal; lra).
    split.
    + eapply np_broadcast_lookup in Hm1;
        [|by rewrite list_lookup_fmap, Ha
         |by rewrite list_lookup_fmap, Hwd].
      eapply np_broadcast_lookup in Hm2;
        [|by rewrite list_lookup_fmap, Hb
         |by rewrite list_lookup_fmap, Hwd].
      eapply np_broadcast_lookup in Hm3; [|exact Hm1|exact Hm2].
      eapply np_broadcast_lookup in Hxo;
        [|exact Hm3|by rewrite list_lookup_fmap, Ha].
      eapply np_broadcast_lookup in Hx; [|exact Ha|exact Hxo].
      rewrite Hx. simpl. rewrite sind_0, cosd_0. f_equal. lra.
    + eapply np_broadcast_lookup in Hy;
        [|exact Hb|by rewrite list_lookup_fmap, Hwd].
      rewrite Hy. simpl. rewrite sind_0, cosd_0. f_equal. lra.
Qed.

(** ** The center of rotation *)

Lemma foldl_Rmin_spec (r : list R) (a0 : R) :
  foldl Rmin a0 r ∈ a0 :: r
  /\ forall a, a ∈ a0 :: r -> foldl Rmin a0 r <= a.
Proof.
  revert a0. induction r as [|b r IH]; intros a0; simpl.
  - split; [left|]. intros a ->%list_elem_of_singleton. lra.
  - destruct (IH (Rmin a0 b)) as [Hin Hle]. split.
    + apply elem_of_cons in Hin as [->|Hin].
      * unfold Rmin. destruct (Rle_dec a0 b); [left|right; left].
      * by do 2 right.
    + intros a Ha.
      assert (Hm : foldl Rmin (Rmin a0 b) r <= Rmin a0 b) by (apply Hle; left).
      apply elem_of_cons in Ha as [->|Ha].
      * etransitivity; [exact Hm|apply Rmin_l].
      * apply elem_of_cons in Ha as [->|Ha].
        -- etransitivity; [exact Hm|apply Rmin_r].
        -- apply Hle. by right.
Qed.

Lemma foldl_Rmax_spec (r : list R) (a0 : R) :
  foldl Rmax a0 r ∈ a0 :: r
  /\ forall a, a ∈ a0 :: r -> a <= foldl Rmax a0 r.
Proof.
  revert a0. induction r as [|b r IH]; intros a0; simpl.
  - split; [left|]. intros a ->%list_elem_of_singleton. lra.
  - destruct (IH (Rmax a0 b)) as [Hin Hle]. split.
    + apply elem_of_cons in Hin as [->|Hin].
      * unfold Rmax. destruct (Rle_dec a0 b); [right; left|left].
      * by do 2 right.
    + intros a Ha.
      assert (Hm : Rmax a0 b <= foldl Rmax (Rmax a0 b) r) by (apply Hle; left).
      apply elem_of_cons in Ha as [->|Ha].
      * etransitivity; [apply Rmax_l|exact Hm].
      * apply elem_of_cons in Ha as [->|Ha].
        -- etransitivity; [apply Rmax_r|exact Hm].
        -- apply Hle. by right.
Qed.

Lemma np_min_max_spec (a : list R) :
  a <> [] ->
  exists lo hi, np_min a = Some lo /\ np_max a = Some hi
    /\ lo ∈ a /\ hi ∈ a /\ forall c, c ∈ a -> lo <= c <= hi.
Proof.
  destruct a as [|a0 r]; [done|]. intros _. simpl.
  destruct (foldl_Rmin_spec r a0) as [Hlo Hle].
  destruct (foldl_Rmax_spec r a0) as [Hhi Hge].
  eexists _, _. repeat split; eauto.
Qed.

(** X12: on a grid that is not empty the center of rotation is the
    middle of the grid's bounding box in x and y, at height 0: no grid
    point is farther from it, in x or in y, than half the extent of the
    grid, whose ends are grid coordinates; finding it writes nothing. *)
Theorem center_of_rotation_is_the_middle_of_the_grid (ff : FlowField) :
  x ff <> [] -> y ff <> [] ->
  exists c xmin xmax ymin ymax,
    center_of_rotation_of ff = Ok c ff
    /\ xmin ∈ x ff /\ xmax ∈ x ff /\ ymin ∈ y ff /\ ymax ∈ y ff
    /\ x1 c = (xmin + xmax) / 2 /\ x2 c = (ymin + ymax) / 2 /\ x3 c = 0
    /\ (forall a, a ∈ x ff -> Rabs (a - x1 c) <= (xmax - xmin) / 2)
    /\ (forall b, b ∈ y ff -> Rabs (b - x2 c) <= (ymax - ymin) / 2).
Proof.
  intros Hx Hy.
  destruct (np_min_max_spec _ Hx) as (xmin & xmax & Hxl & Hxh & ? & ? & Hxb).
  destruct (np_min_max_spec _ Hy) as (ymin & ymax & Hyl & Hyh & ? & ? & Hyb).
  exists (Vec3_new ((xmin + xmax) / 2) ((ymin + ymax) / 2) 0),
    xmin, xmax, ymin, ymax.
  unfold center_of_rotation_of. rewrite run_bind. simpl.
  rewrite Hxl, Hxh, Hyl, Hyh. repeat split; try done.
  - intros a Ha. specialize (Hxb a Ha). simpl.
    apply Rabs_le. lra.
  - intros b Hb. specialize (Hyb b Hb). simpl.
    apply Rabs_le. lra.
Qed.

(** ** The lateral and vertical components with wakes *)

Lemma turbine_wake_keeps_vw track lc u_wake entry (ff : FlowField) :
  let s := state_of (turbine_wake track lc u_wake entry ff) in
  wake s = wake ff /\ v s = v ff /\ w s = w ff.
Proof.
  set (I := fun s : FlowField =>
    wake s = wake ff /\ v s = v ff /\ w s = w ff).
  assert (Hwp : wp (turbine_wake track lc u_wake entry) (fun _ => I) I ff).
  { destruct entry as [coord k]. unfold turbine_wake.
    wp_step. wp_step; [|done]. wp_step.
    apply wp_rotated_grid_for; [|done]. intros [rotated_x rotated_y].
    unfold update_velocities.
    repeat wp_step; try done.
    all: eapply wp_mono;
      [apply (propagate_turbulence_invariant _ _ I); [|done] | done | done].
    all: by frame_invariant I. }
  unfold wp in Hwp. by destruct (turbine_wake _ _ _ _ ff).
Qed.

Lemma np_add_all_none (ds : list (list R)) :
  foldl (fun acc d => a ← acc; np_add a d) None ds = None.
Proof. induction ds as [|d ds IH]; simpl; [done|]. exact IH. Qed.

Lemma stored_deficit_cons wk init d (ds : list (list R)) :
  stored_deficit wk init (d :: ds)
  = init' ← stored_deficit wk init [d]; stored_deficit wk init' ds.
Proof.
  unfold stored_deficit, np_add_all. case_bool_decide; simpl.
  - rewrite last_cons. by destruct (last ds).
  - destruct (np_add init d); simpl; [done|]. apply np_add_all_none.
Qed.

Lemma store_vw_stores turb_v_wake turb_w_wake (s1 s2 : FlowField) :
  store_vw turb_v_wake turb_w_wake s1 = Ok tt s2 ->
  stored_deficit (wake s1) (v s1) [turb_v_wake] = Some (v s2)
  /\ stored_deficit (wake s1) (w s1) [turb_w_wake] = Some (w s2).
Proof.
  unfold store_vw, stored_deficit, np_add_all. rewrite run_bind. simpl.
  destruct (bool_decide _); simpl.
  - by intros [= <-].
  - rewrite run_bind.
    destruct (np_add (v s1) turb_v_wake) as [v'|]; [|done].
    simpl. repeat (rewrite run_bind; simpl).
    destruct (np_add (w s1) turb_w_wake) as [w'|]; [|done].
    simpl. by intros [= <-].
Qed.

Lemma loop_body_vw track lc u_wake deficits entry (ff : FlowField) :
  match turbine_wake track lc u_wake entry ff with
  | Ok (tu, tv, tw) s1 =>
      match store_vw tv tw s1 with
      | Ok _ s2 =>
          wake s2 = wake ff
          /\ stored_deficit (wake ff) (v ff) [tv] = Some (v s2)
          /\ stored_deficit (wake ff) (w ff) [tw] = Some (w s2)
          /\ wake_loop_body false track lc u_wake entry ff
             = Ok (combination_function (wake ff) u_wake tu) s2
          /\ vw_loop_body track lc (u_wake, deficits) entry ff
             = Ok (combination_function (wake ff) u_wake tu,
                   deficits ++ [(tv, tw)]) s2
      | Raise e s2 =>
          wake_loop_body false track lc u_wake entry ff = Raise e s2
          /\ vw_loop_body track lc (u_wake, deficits) entry ff = Raise e s2
      end
  | Raise e s1 =>
      wake_loop_body false track lc u_wake entry ff = Raise e s1
      /\ vw_loop_body track lc (u_wake, deficits) entry ff = Raise e s1
  end.
Proof.
  destruct (turbine_wake_keeps_vw track lc u_wake entry ff)
    as (Hwk & Hv & Hw).
  unfold wake_loop_body, vw_loop_body. rewrite !run_bind.
  destruct (turbine_wake track lc u_wake entry ff) as [[[tu tv] tw] s1|e s1];
    [|done].
  simpl in Hwk, Hv, Hw. rewrite !run_bind. simpl. rewrite !run_bind.
  pose proof (store_vw_keeps_wake tv tw s1) as Hkeep.
  pose proof (store_vw_stores tv tw s1) as Hstore.
  destruct (store_vw tv tw s1) as [[] s2|e s2]; [|done].
  simpl in *. destruct (Hstore s2 eq_refl) as [Hv2 Hw2].
  rewrite Hwk, Hv in Hv2. rewrite Hwk, Hw in Hw2. rewrite Hwk.
  repeat split; try done. congruence.
Qed.

Lemma wake_loop_vw track lc wk (l : list (Vec3 * nat)) :
  forall u_wake deficits (ff : FlowField),
  wake ff = wk ->
  match for_each (wake_loop_body false track lc) u_wake l ff,
        for_each (vw_loop_body track lc) (u_wake, deficits) l ff with
  | Ok u_wake' s, Ok (u_wake'', deficits') s' =>
      s = s' /\ wake s = wk
      /\ exists new, deficits' = deficits ++ new
           /\ length new = length l
           /\ stored_deficit wk (v ff) new.*1 = Some (v s)
           /\ stored_deficit wk (w ff) new.*2 = Some (w s)
  | Raise e s, Raise e' s' => e = e' /\ s = s'
  | _, _ => False
  end.
Proof.
  induction l as [|entry l IH]; intros u_wake deficits ff Hwk.
  - simpl. repeat split; try done. exists []. rewrite app_nil_r.
    unfold stored_deficit. by case_bool_decide.
  - rewrite !for_each_cons.
    pose proof (loop_body_vw track lc u_wake deficits entry ff) as Hbody.
    destruct (turbine_wake track lc u_wake entry ff)
      as [[[tu tv] tw] s1|e s1]; [|by destruct Hbody as [-> ->]].
    destruct (store_vw tv tw s1) as [[] s2|e s2];
      [|by destruct Hbody as [-> ->]].
    destruct Hbody as (Hwk2 & Hv2 & Hw2 & -> & ->).
    rewrite Hwk in *.
    specialize (IH (combination_function wk u_wake tu)
                   (deficits ++ [(tv, tw)]) s2 Hwk2).
    destruct (for_each (wake_loop_body _ _ _) _ l s2) as [uw' s|e s];
      destruct (for_each (vw_loop_body _ _) _ l s2)
        as [[uw'' ds'] s'|e' s']; try done.
    destruct IH as (-> & Hwk' & new & -> & Hlen & Hv & Hw).
    repeat split; try done. exists ((tv, tw) :: new).
    rewrite <- app_assoc. simpl.
    rewrite (stored_deficit_cons wk (v ff)), (stored_deficit_cons wk (w ff)).
    rewrite Hv2, Hw2. simpl. repeat split; try done. by f_equal.
Qed.

Lemma finish_wake_keeps_vw no_wake lc u_wake (s ff' : FlowField) :
  finish_wake no_wake lc u_wake s = Ok tt ff' ->
  v ff' = v s /\ w ff' = w s /\ wake ff' = wake s.
Proof.
  intros Hrun.
  set (J := fun s' : FlowField =>
    v s' = v s /\ w s' = w s /\ wake s' = wake s).
  assert (Hwp : wp (finish_wake no_wake lc u_wake) (fun _ => J) J s).
  { apply finish_wake_invariant; by unfold J; intros; destruct_and?. }
  unfold wp in Hwp. by rewrite Hrun in Hwp.
Qed.

(** X13: when [calculate_wake(no_wake=False)] returns, [v] and [w] hold
    what the loop stored from the v- and w-deficits of the sorted
    turbines: with the curl model the deficit of the last turbine of the
    sorted map alone, with any other model the sum of the deficits of all
    the turbines, added in the order of the sorted map to a field of
    zeros of the shape of [u]; [v_initial] and [w_initial] are not
    added. *)
Theorem vw_are_the_stored_deficits points track (ff ff' : FlowField) :
  calculate_wake false points track ff = Ok tt ff' ->
  exists lc ff0 deficits ff1,
    prepare_wake points track ff = Ok lc ff0
    /\ sorted_turbine_vw_deficits track lc ff0 = Ok deficits ff1
    /\ length deficits = length (sorted_map lc)
    /\ (velocity_model_string (wake ff') = "curl"%string ->
        v ff' = default (np_zeros_like (u ff0)) (last deficits.*1)
        /\ w ff' = default (np_zeros_like (u ff0)) (last deficits.*2))
    /\ (velocity_model_string (wake ff') <> "curl"%string ->
        np_add_all (np_zeros_like (u ff0)) deficits.*1 = Some (v ff')
        /\ np_add_all (np_zeros_like (u ff0)) deficits.*2 = Some (w ff')).
Proof.
  intros Hrun.
  destruct (calculate_wake_returns _ _ _ _ _ _ Hrun) as (lc & ff0 & Hprep).
  assert (Hzero : v ff0 = np_zeros_like (u ff0)
                  /\ w ff0 = np_zeros_like (u ff0)).
  { pose proof Hprep as Hp. unfold prepare_wake in Hp.
    rewrite run_bind in Hp.
    destruct (begin_wake points track ff) as [[] s|]; [|done].
    by apply rotate_farm_zeroes_vw in Hp. }
  destruct Hzero as [Hv0 Hw0].
  rewrite (calculate_wake_prepared _ _ _ _ _ _ Hprep), run_bind in Hrun.
  pose proof (wake_loop_vw track lc (wake ff0) (sorted_map lc)
                (np_zeros_like (u ff0)) [] ff0 eq_refl) as Hloop.
  destruct (for_each (wake_loop_body _ _ _) _ _ ff0) as [uw s|e s]; [|done].
  destruct (for_each (vw_loop_body _ _) _ _ ff0)
    as [[uw' ds] s'|e' s'] eqn:Hdef; [|done].
  destruct Hloop as (<- & Hwk & new & -> & Hlen & Hv & Hw).
  apply finish_wake_keeps_vw in Hrun as (Hv' & Hw' & Hwk').
  exists lc, ff0, new, s. split; [done|]. split.
  { unfold sorted_turbine_vw_deficits. rewrite !run_bind. simpl.
    rewrite run_bind, Hdef. done. }
  split; [done|].
  rewrite Hv', Hw', Hwk', Hwk. rewrite Hv0 in Hv. rewrite Hw0 in Hw.
  unfold stored_deficit in Hv, Hw.
  split; intros Hcurl.
  - rewrite bool_decide_eq_true_2 in Hv, Hw by done.
    by injection Hv as <-; injection Hw as <-.
  - by rewrite bool_decide_eq_false_2 in Hv, Hw.
Qed.

(** ** The axial component without wakes *)

Lemma calculate_wake_keeps_after_resets (I : FlowField -> Prop) no_wake
    points track (ff : FlowField) :
  (forall s i ti, I s ->
     I (set_turbines
          (alter (fun t => reset_velocities (set_turbulence_intensity ti t))
                 i (turbines s)) s)) ->
  (forall s cs, I s -> I (set_coords cs s)) ->
  (forall s v' w', I s -> I (set_uvw (u s) v' w' s)) ->
  (forall s k vs,
     I s -> I (set_turbines (alter (set_velocities vs) k (turbines s)) s)) ->
  (forall s k_ti ti_added ambient, I s ->
     I (ti_updated k_ti ti_added ambient s)
     /\ (track = true ->
         I (wake_counted k_ti (ti_updated k_ti ti_added ambient s)))) ->
  (no_wake = false -> forall s u', I s -> I (set_uvw u' (v s) (w s) s)) ->
  (forall s x' y' z',
     velocity_model_string (wake s) = "curl"%string ->
     I s -> I (set_xyz x' y' z' s)) ->
  I (before_refresh points track ff) ->
  I (state_of (calculate_wake no_wake points track ff)).
Proof.
  intros Hrefresh Hcoords Hvw Hvel Hti Hu Hxyz HI.
  assert (Hwp : wp (calculate_wake no_wake points track) (fun _ => I) I ff).
  { unfold calculate_wake, prepare_wake. wp_step. wp_step.
    assert (Hbegin : wp (begin_wake points track) (fun _ => I) I ff).
    { unfold wp. rewrite begin_wake_eq.
      by apply (reinitialize_turbines_invariant I). }
    eapply wp_mono; [exact Hbegin| |done].
    intros ? ff1 HI1. cbv beta.
    eapply wp_mono; [by apply (rotate_farm_invariant I)| |done].
    intros lc ff2 HI2. do 3 wp_step.
    eapply wp_mono;
      [apply (wake_loop_invariant _ _ I); try done; intros; by apply Hti
      | |done].
    intros u_wake ff3 HI3. cbv beta.
    by apply finish_wake_gated_invariant. }
  unfold wp in Hwp. by destruct (calculate_wake _ _ _ ff).
Qed.

(** X14: [calculate_wake(no_wake=True)], called without extra points,
    never computes [u]: with a velocity model that declares a grid
    resolution it leaves [u] equal to [u_initial], with any other model
    it leaves [u] as it found it, the wakes of an earlier call included.
    This holds whether the call returns or raises. *)
Theorem no_wake_never_computes_u track (ff : FlowField) :
  u (state_of (calculate_wake true None track ff)) = u_without_wakes ff.
Proof.
  set (I := fun s : FlowField => u s = u_without_wakes ff).
  apply (calculate_wake_keeps_after_resets I); try (by frame_invariant I).
  unfold I, u_without_wakes, before_refresh.
  by destruct (velocity_model_grid_resolution _), track.
Qed.

(** ** The constructor *)

(** X15: the constructor is [reinitialize_flow_field] with the six
    parameters and nothing else: the resolution it passes is the one
    [reinitialize_flow_field] takes from the wake by itself, and none of
    the six parameters the object held before has an effect. *)
Theorem constructor_is_a_reinitialization wind_shear' wind_veer' wake'
    wind_map' reference_wind_height' reference_turbine_diameter'
    (ff : FlowField) :
  __init__ wind_shear' wind_veer' wake' wind_map' reference_wind_height'
           reference_turbine_diameter' ff
  = reinitialize_flow_field (Some wind_shear') (Some wind_veer') (Some wake')
      (Some wind_map') None None (Some reference_wind_height')
      (Some reference_turbine_diameter') ff
  /\ forall shear veer height diameter wk wm,
       __init__ wind_shear' wind_veer' wake' wind_map' reference_wind_height'
                reference_turbine_diameter'
                (set_parameters shear veer height diameter wk wm ff)
       = __init__ wind_shear' wind_veer' wake' wind_map'
                  reference_wind_height' reference_turbine_diameter' ff.
Proof.
  split; [|done].
  unfold __init__, reinitialize_flow_field.
  repeat (rewrite run_bind; simpl).
  by destruct (velocity_model_grid_resolution wake').
Qed.

(** ** Special cases of the ambient profile *)

(** X16: with a wind shear exponent of 0 the ambient velocity [u_initial]
    is the wind speed of the wind map at every grid point, and with any
    exponent it is that wind speed at the grid points that lie at the
    reference wind height, provided the power function gives 1 for an
    exponent of 0 and for a base of 1. This is so when the wind map
    holds a wind speed for every grid point, and when it holds one wind
    speed, which then counts at every grid point. *)
Theorem ambient_profile_at_reference_height (ff : FlowField) :
  (forall a, np_power a 0 = 1) ->
  (forall e, np_power 1 e = 1) ->
  reference_wind_height ff <> 0 ->
  let speeds := grid_wind_speed (wind_map ff) in
  (length speeds = length (z ff) ->
   exists ff',
     initialize_velocities ff = Ok tt ff'
     /\ length (u_initial ff') = length (z ff)
     /\ forall i zi, z ff !! i = Some zi ->
          wind_shear ff = 0 \/ zi = reference_wind_height ff ->
          exists speed, speeds !! i = Some speed
            /\ u_initial ff' !! i = Some speed /\ u ff' !! i = Some speed)
  /\ (forall speed, speeds = [speed] ->
      exists ff',
        initialize_velocities ff = Ok tt ff'
        /\ length (u_initial ff') = length (z ff)
        /\ forall i zi, z ff !! i = Some zi ->
             wind_shear ff = 0 \/ zi = reference_wind_height ff ->
             u_initial ff' !! i = Some speed /\ u ff' !! i = Some speed).
Proof.
  intros Hzero Hone Hh speeds.
  assert (Hpow : forall zi,
    wind_shear ff = 0 \/ zi = reference_wind_height ff ->
    np_power (zi / reference_wind_height ff) (wind_shear ff) = 1).
  { intros zi [-> | ->]; [apply Hzero|].
    replace (reference_wind_height ff / reference_wind_height ff)
      with 1 by (by field).
    apply Hone. }
  split.
  - intros Hlen.
    destruct (initialize_velocities_returns ff
                (zip_with Rmult speeds
                   ((fun zi => np_power (zi / reference_wind_height ff)
                                        (wind_shear ff)) <$> z ff)))
      as (ff' & Hrun & Hu & (_ & _ & Hcopy & _)).
    { apply np_broadcast_same_shape. by rewrite length_fmap. }
    exists ff'. split; [done|]. rewrite Hcopy, Hu.
    split; [by rewrite length_zip_with, length_fmap, Hlen, Nat.min_id|].
    intros i zi Hz Hcase.
    destruct (speeds !! i) as [speed|] eqn:Hs.
    + exists speed. split; [done|].
      rewrite lookup_zip_with, Hs, list_lookup_fmap, Hz. simpl.
      rewrite Hpow by done. split; f_equal; lra.
    + apply lookup_ge_None in Hs. apply lookup_lt_Some in Hz. lia.
  - intros speed Hspeed.
    destruct (initialize_velocities_returns ff
                (Rmult speed <$>
                 ((fun zi => np_power (zi / reference_wind_height ff)
                                      (wind_shear ff)) <$> z ff)))
      as (ff' & Hrun & Hu & (_ & _ & Hcopy & _)).
    { fold speeds. rewrite Hspeed. apply np_broadcast_one_l. }
    exists ff'. split; [done|]. rewrite Hcopy, Hu.
    split; [by rewrite !length_fmap|].
    intros i zi Hz Hcase. rewrite !list_lookup_fmap, Hz. simpl.
    rewrite Hpow by done. split; f_equal; lra.
Qed.


(** ** The counters of upstream wakes *)

Section CountedInvariant.

Variables (lc : WakeLocals) (I : FlowField -> Prop).

Hypothesis I_velocities : forall ff k vs,
  I ff -> I (set_turbines (alter (set_velocities vs) k (turbines ff)) ff).

Hypothesis I_vw : forall ff v' w', I ff -> I (set_uvw (u ff) v' w' ff).

(** The two writes of the turbulence step, taken together. *)
Hypothesis I_counted :
  forall rotated_x rotated_y turb_u_wake coord k ff coord_ti k_ti
         ti_added ambient,
  wake_reaches lc rotated_x rotated_y turb_u_wake coord k coord_ti k_ti
               ti_added ambient ff ->
  I ff ->
  I (wake_counted k_ti (ti_updated k_ti ti_added ambient ff)).

Lemma propagate_turbulence_to_counted rotated_x rotated_y coord k
    turb_u_wake entry ff :
  entry ∈ sorted_map lc ->
  turbulence_model_allowed (wake ff) = true -> I ff ->
  wp (propagate_turbulence_to true lc rotated_x rotated_y coord k
                              turb_u_wake entry)
     (fun _ ff' => I ff' /\ turbulence_model_allowed (wake ff') = true)
     (fun ff' => I ff' /\ turbulence_model_allowed (wake ff') = true) ff.
Proof.
  intros Hin Hgate HI. destruct entry as [coord_ti k_ti].
  unfold propagate_turbulence_to.
  repeat wp_step; try done.
  split; [|done].
  eapply (I_counted rotated_x rotated_y turb_u_wake coord k ff coord_ti k_ti);
    [split; eauto 12 | done].
Qed.

Lemma propagate_turbulence_counted rotated_x rotated_y coord k turb_u_wake
    ff :
  I ff ->
  wp (propagate_turbulence true lc rotated_x rotated_y coord k turb_u_wake)
     (fun _ => I) I ff.
Proof.
  intros HI. unfold propagate_turbulence.
  repeat wp_step; try done.
  set (J := fun ff' : FlowField =>
              I ff' /\ turbulence_model_allowed (wake ff') = true).
  apply (wp_mono _ (fun _ => J) _ J); [|by intros ?? []|by intros ? []].
  apply (wp_for_each _ (fun _ => J)); [|done].
  intros _ entry ff' Hin [HI' Hgate].
  by apply propagate_turbulence_to_counted.
Qed.

Lemma turbine_wake_counted u_wake entry ff :
  I ff -> wp (turbine_wake true lc u_wake entry) (fun _ => I) I ff.
Proof.
  intros HI. destruct entry as [coord k]. unfold turbine_wake.
  wp_step. wp_step; [|done]. wp_step.
  apply wp_rotated_grid_for; [|done]. intros [rotated_x rotated_y].
  unfold update_velocities.
  repeat wp_step; try done; try by apply I_velocities.
  all: apply propagate_turbulence_counted; by apply I_velocities.
Qed.

Lemma wake_loop_counted no_wake u_wake ff :
  I ff ->
  wp (for_each (wake_loop_body no_wake true lc) u_wake (sorted_map lc))
     (fun _ => I) I ff.
Proof.
  apply (wp_for_each _ (fun _ => I)).
  intros acc entry ff' Hin HI. unfold wake_loop_body.
  wp_step. eapply wp_mono; [by apply turbine_wake_counted| |done].
  intros [[tu tv] tw] ff1 HI1. cbv beta iota. unfold store_vw.
  repeat wp_step; try done; by repeat apply I_vw.
Qed.

End CountedInvariant.

(** X17: when [calculate_wake] counts the upstream wakes and returns,
    every turbine has a counter, and a turbine whose counter is 0 has
    the ambient turbulence intensity of the wind map: the turbulence
    intensity of a turbine is never written without its counter being
    incremented. *)
Theorem uncounted_turbine_has_ambient_intensity no_wake points
    (ff ff' : FlowField) :
  calculate_wake no_wake points true ff = Ok tt ff' ->
  exists wl,
    wake_list ff' = Some wl /\ length wl = length (turbines ff')
    /\ forall j t, turbines ff' !! j = Some t -> wl !! j = Some 0%nat ->
         turbine_turbulence_intensity (wind_map ff') !! j
         = Some (turbulence_intensity t).
Proof.
  intros Hrun.
  destruct (calculate_wake_returns _ _ _ _ _ _ Hrun) as (lc & ff0 & Hprep).
  set (I := fun s : FlowField =>
    exists wl,
      wake_list s = Some wl /\ length wl = length (turbines s)
      /\ forall j t, turbines s !! j = Some t -> wl !! j = Some 0%nat ->
           turbine_turbulence_intensity (wind_map s) !! j
           = Some (turbulence_intensity t)).
  rewrite (calculate_wake_prepared _ _ _ _ _ _ Hprep) in Hrun.
  assert (Hwp : wp (u_wake ← for_each (wake_loop_body no_wake true lc)
                                      (np_zeros_like (u ff0)) (sorted_map lc);
                    finish_wake no_wake lc u_wake) (fun _ => I) I ff0).
  { wp_step.
    eapply wp_mono; [apply (wake_loop_counted lc I)| |done].
    - intros s k vs (wl & Hwl & Hlen & Hti). exists wl.
      split; [done|]. split; [simpl; by rewrite length_alter|].
      intros j t Ht Hj. simpl in Ht.
      apply lookup_alter_turbine in Ht as (t0 & Ht0 & [->|[_ ->]]);
        exact (Hti _ _ Ht0 Hj).
    - intros s v' w' Hs. exact Hs.
    - intros rotated_x rotated_y tuw coord k s coord_ti k_ti ti_added
             ambient _ (wl & Hwl & Hlen & Hti).
      exists (alter S k_ti wl). simpl. rewrite Hwl. split; [done|].
      split; [by rewrite !length_alter|].
      intros j t Ht Hj.
      destruct (decide (j = k_ti)) as [->|Hne].
      + rewrite list_lookup_alter in Hj. case_decide; [|done].
        destruct (wl !! k_ti); simplify_eq/=.
      + rewrite list_lookup_alter_ne in Hj by done.
        rewrite list_lookup_alter_ne in Ht by done. by apply Hti.
    - destruct (prepare_wake_ok _ _ _ _ _ Hprep)
        as (Hle & Hts & _ & _ & Hwl0 & _).
      exists (replicate (length (turbines ff0)) 0%nat).
      split; [|split].
      + rewrite Hwl0, before_refresh_wake_list.
        by rewrite Hts, length_refreshed_any.
      + by rewrite length_replicate.
      + intros j t Ht _.
        by destruct (prepare_wake_refreshes _ _ _ _ _ Hprep j t Ht).
    - intros u_wake s Hs. cbv beta.
      destruct no_wake.
      + apply finish_wake_no_wake_invariant; [|done]. intros; done.
      + apply finish_wake_invariant; try done. }
  unfold wp in Hwp. by rewrite Hrun in Hwp.
Qed.

(** ** The reset of the turbines, twice *)

Lemma refreshed_idempotent tti (ts : list Turbine) :
  refreshed tti (refreshed tti ts) = refreshed tti ts.
Proof.
  unfold refreshed. revert ts.
  induction tti as [|a tti IH]; intros ts; [done|].
  destruct ts as [|t ts]; [done|].
  simpl. f_equal. apply IH.
Qed.

(** X18: the reset of the turbines is idempotent: after
    [reinitialize_flow_field] has returned, the reset loop with which
    [calculate_wake] starts finds an intensity for every turbine, so that
    it does not raise, and it leaves the turbines as
    [reinitialize_flow_field] left them. *)
Theorem turbine_reset_is_idempotent wind_shear' wind_veer' wake' wind_map'
    with_resolution bounds_to_set reference_wind_height'
    reference_turbine_diameter' track (ff ff1 : FlowField) :
  reinitialize_flow_field wind_shear' wind_veer' wake' wind_map'
    with_resolution bounds_to_set reference_wind_height'
    reference_turbine_diameter' ff = Ok tt ff1 ->
  exists s, begin_wake None track ff1 = Ok tt s
            /\ turbines s = turbines ff1.
Proof.
  unfold reinitialize_flow_field.
  repeat (rewrite run_bind; simpl).
  rewrite reinitialize_turbines_eq.
  match goal with
  | |- context [refreshed ?tti (turbines ?s0)] =>
      set (tti0 := tti); set (s1 := s0)
  end.
  case_decide as Hlen; [|done]. intros [= <-].
  destruct (before_refresh_no_points track
              (set_turbines (refreshed tti0 (turbines s1)) s1))
    as (Hts & Hwm & _).
  rewrite begin_wake_eq, reinitialize_turbines_eq.
  rewrite Hts, Hwm. simpl. fold tti0.
  rewrite decide_True by (by rewrite length_refreshed_any).
  eexists. split; [done|]. simpl. apply refreshed_idempotent.
Qed.

End EngineTheory.

(** * The small farm, run *)

Section ToyRuns.

Import Toy.
#[local] Existing Instance collaborators.

(** Unfolding the methods and the collaborators on the small farm, up
    to the comparisons of real numbers. *)
Ltac run :=
  cbv [calculate_wake prepare_wake begin_wake rotate_farm finish_wake
       wake_loop_body turbine_wake
       store_vw propagate_turbulence propagate_turbulence_to
       rotated_grid_for center_of_rotation_of index_of
       reinitialize_turbines update_velocities reset_velocities
       reinitialize_flow_field set_parameters default
       initialize_velocities set_uvw_initial
       area_overlap_on _calculate_area_overlap
       _compute_turbine_velocity_deficit _compute_turbine_wake_turbulence
       _compute_turbine_wake_deflection turbulence_model_allowed
       reset_uvw for_each index get_turbine modify_turbine
       mbind M_bind mret M_ret get modify raise
       set_turbulence_intensity set_velocities set_uvw set_coords
       set_turbines set_wake_list set_xyz
       turbulence_intensity rotor_diameter grid_point_count velocities
       wind_shear wind_veer reference_wind_height
       reference_turbine_diameter model_parameters definition
       wake wind_map x y z u v w u_initial v_initial w_initial coords
       turbines wake_list
       velocity_model_grid_resolution velocity_model_string
       turbulence_model_string
       grid_wind_speed grid_wind_direction turbine_wind_direction
       turbine_turbulence_intensity
       center_of_rotation sorted_map rx ry initial_rotated_x
       initial_rotated_y rotated_z
       x1 x2 x3 x1prime x2prime Vec3_new
       collaborators velocity_function calculate_VW deflection_function
       turbulence_function combination_function updated_velocities
       calculate_swept_area_velocities rotated sorted_in_x_as_list
       _rotated_dir _rotated_grid set_bounds _compute_initialized_domain
       farm turbine wake_models wind layout layout_twice locals
       start after_wake after_no_wake before_second_wake after_second_wake
       np_zeros_like np_sub np_add np_mul np_min np_max np_unique_size_is_1
       np_broadcast np_result option_bind Nat.eqb
       np_where_both np_count_true
       lookup list_lookup alter list_alter fmap list_fmap zip_with zip
       length seq hd foldl forallb andb orb filter list_filter
       replicate Z.to_nat Pos.to_nat Pos.iter_op Nat.add
       option_fmap option_map
       Z.of_nat Z.sub Z.add Z.opp Z.pos_sub Pos.pred_double Pos.of_succ_nat
       Pos.succ Pos.double_pred_mask Pos.sub_mask Z.double Z.succ_double
       Z.pred_double].

(** The comparisons of the run. *)
Ltac cond :=
  cbv [in_influence_zone x1 x2 x3];
  first [ done | lra
        | unfold Rabs; destruct (Rcase_abs _); repeat split; lra
        | intros (? & ? & ?); unfold Rabs in *; destruct (Rcase_abs _); lra
        | intros ?; lra ].

Ltac decide_one :=
  match goal with
  | |- context [@bool_decide ?P ?d] =>
      first [ rewrite (@bool_decide_eq_true_2 P d) by cond
            | rewrite (@bool_decide_eq_false_2 P d) by cond ]
  | |- context [@decide ?P ?d] =>
      first [ rewrite (@decide_True _ P d) by cond
            | rewrite (@decide_False _ P d) by cond ]
  end.

Lemma sqrt_sum_zero (a : R) : 0 <= a -> sqrt (a ^ 2 + 0 ^ 2) = a.
Proof.
  intros Ha. replace (a ^ 2 + 0 ^ 2) with (a ^ 2) by lra. by apply sqrt_pow2.
Qed.

(** The equalities of real numbers that remain. *)
Ltac real_eq :=
  unfold updated_turbulence_intensity;
  repeat rewrite sqrt_sum_zero by lra;
  unfold Rmax; repeat destruct (Rle_dec _ _); lra.

Ltac state_eq :=
  repeat lazymatch goal with
         | |- @eq R _ _ => real_eq
         | |- _ => f_equal
         end.

Lemma run_with_wakes ti1 ti2 ti3 vs1 vs2 vs3 (u0 v0 w0 : R) :
  calculate_wake false None false
    (farm "crespo_hernandez" layout
          [turbine ti1 vs1; turbine ti2 vs2; turbine ti3 vs3]
          [u0] [v0] [w0] None)
  = Ok tt after_wake.
Proof.
  run. repeat (decide_one; run). state_eq.
Qed.

Lemma run_no_wake ti1 ti2 ti3 vs1 vs2 vs3 (u0 v0 w0 : R) :
  calculate_wake true None false
    (farm "crespo_hernandez" layout
          [turbine ti1 vs1; turbine ti2 vs2; turbine ti3 vs3]
          [u0] [v0] [w0] None)
  = Ok tt (farm "crespo_hernandez" layout
             [turbine 0 [8]; turbine 0.02 [8]; turbine 0.02 [8]]
             [u0] [0] [0] None).
Proof.
  run. repeat (decide_one; run). state_eq.
Qed.


Lemma prepare_toy tm track ti1 ti2 ti3 vs1 vs2 vs3 (u0 v0 w0 : R) wl :
  prepare_wake None track
    (farm tm layout [turbine ti1 vs1; turbine ti2 vs2; turbine ti3 vs3]
          [u0] [v0] [w0] wl)
  = Ok (locals layout)
       (farm tm layout [turbine 0 [0]; turbine 0 [0]; turbine 0 [0]]
             [u0] [0] [0]
             (if track then Some [0; 0; 0]%nat else wl)).
Proof.
  destruct track; run; repeat (decide_one; run); state_eq.
Qed.

Lemma prepare_toy_twice tm ti1 ti2 vs1 vs2 (u0 v0 w0 : R) :
  prepare_wake None false
    (farm tm layout_twice [turbine ti1 vs1; turbine ti2 vs2]
          [u0] [v0] [w0] None)
  = Ok (locals layout_twice)
       (farm tm layout_twice [turbine 0 [0]; turbine 0 [0]]
             [u0] [0] [0] None).
Proof.
  run; repeat (decide_one; run); state_eq.
Qed.

Lemma second_wake_step :
  propagate_turbulence_to false (locals layout) [0] [0]
    (Vec3_new 500 0 90) 1 [1] (Vec3_new 1000 0 90, 2%nat) before_second_wake
  = Ok tt after_second_wake.
Proof.
  run; repeat (decide_one; run); state_eq.
Qed.

(** [before_second_wake] is where [calculate_wake()] stands on the
    small farm when it propagates the wake of the second turbine to the
    third: the first turbine has been processed, the second has its new
    velocities, and the inner loop has passed the first two entries. *)
Lemma second_wake_reached :
  prepare_wake None false start = Ok (locals layout) start
  /\ (u_wake ← for_each (wake_loop_body false false (locals layout)) [0]
                       [(Vec3_new 0 0 90, 0%nat)];
      update_velocities 1 u_wake (Vec3_new 500 0 90) [0] [0] [90];;
      for_each (fun _ entry =>
          propagate_turbulence_to false (locals layout) [0] [0]
            (Vec3_new 500 0 90) 1 [1] entry)
        tt [(Vec3_new 0 0 90, 0%nat); (Vec3_new 500 0 90, 1%nat)]) start
     = Ok tt before_second_wake.
Proof.
  split; [apply prepare_toy|].
  run; repeat (decide_one; run); state_eq.
Qed.

Lemma second_wake_overlap :
  area_overlap_on before_second_wake [0] [0] [90] [1]
                  (turbine 0.02 [7]) (Vec3_new 1000 0 90) (turbine 0.02 [0])
  = Some 1.
Proof.
  run; repeat (decide_one; run); state_eq.
Qed.

Lemma second_wake_whole_step :
  propagate_turbulence false (locals layout) [0] [0]
    (Vec3_new 500 0 90) 1 [1] before_second_wake
  = Ok tt after_second_wake.
Proof.
  run; repeat (decide_one; run); state_eq.
Qed.

Lemma second_wake_first_entries :
  for_each (fun _ entry =>
      propagate_turbulence_to false (locals layout) [0] [0]
        (Vec3_new 500 0 90) 1 [1] entry)
    tt [(Vec3_new 0 0 90, 0%nat); (Vec3_new 500 0 90, 1%nat)]
    before_second_wake
  = Ok tt before_second_wake.
Proof.
  run; repeat (decide_one; run); state_eq.
Qed.

(** ** The claims on the small farm *)





(** C4, counterexample: inside [calculate_wake()] on the small farm,
    the third turbine has a turbulence intensity of 0.02, from the wake
    of the first turbine, when the wake of the second reaches it with
    an area overlap of 1 and an added turbulence of 0.03. The source
    combines the added turbulence with the ambient value of the wind
    map, 0, and leaves the turbine at 0.03, as at the end of the call;
    the root-sum-of-squares with the turbine's existing intensity is
    larger. *)
Lemma turbulence_update_ignores_existing_intensity :
  calculate_wake false None false start = Ok tt after_wake
  /\ propagate_turbulence_to false (locals layout) [0] [0]
       (Vec3_new 500 0 90) 1 [1] (Vec3_new 1000 0 90, 2%nat)
       before_second_wake
     = Ok tt after_second_wake
  /\ turbulence_intensity <$> turbines before_second_wake !! 2%nat = Some 0.02
  /\ turbulence_intensity <$> turbines after_second_wake !! 2%nat = Some 0.03
  /\ turbulence_intensity <$> turbines after_wake !! 2%nat = Some 0.03
  /\ area_overlap_on before_second_wake [0] [0] [90] [1]
       (turbine 0.02 [7]) (Vec3_new 1000 0 90) (turbine 0.02 [0])
     = Some 1
  /\ 1 * turbulence_function (wake before_second_wake) 0
          (Vec3_new 1000 0 90) (Vec3_new 500 0 90) (turbine 0.02 [7])
     = 0.03
  /\ claimed_turbulence_intensity 0.03 0.02 <> 0.03.
Proof.
  split; [apply run_with_wakes|].
  split; [apply second_wake_step|]. do 3 (split; [reflexivity|]).
  split; [apply second_wake_overlap|]. split; [run; lra|].
  unfold claimed_turbulence_intensity. intros Heq.
  assert (Hlt : 0.03 < sqrt (0.03 ^ 2 + 0.02 ^ 2)).
  { rewrite <- (sqrt_pow2 0.03) at 1 by lra. apply sqrt_lt_1_alt. lra. }
  pose proof (Rmax_r 0.02 (sqrt (0.03 ^ 2 + 0.02 ^ 2))). lra.
Qed.

(** The amended C4 on the wake of the second turbine reaching the
    third. *)
Lemma turbulence_update_uses_ambient_witness :
  turbines before_second_wake !! 1%nat = Some (turbine 0.02 [7])
  /\ turbines before_second_wake !! 2%nat = Some (turbine 0.02 [0])
  /\ in_influence_zone (Vec3_new 500 0 90) (Vec3_new 1000 0 90)
                       (rotor_diameter (turbine 0.02 [7]))
  /\ area_overlap_on before_second_wake [0] [0] [90] [1]
       (turbine 0.02 [7]) (Vec3_new 1000 0 90) (turbine 0.02 [0]) = Some 1
  /\ 1 > 0
  /\ exists idx ambient,
       np_where_both 0 (rx (locals layout)) (ry (locals layout))
                     (x1 (Vec3_new 1000 0 90)) (x2 (Vec3_new 1000 0 90))
       = [idx]
       /\ turbine_turbulence_intensity (wind_map before_second_wake) !! idx
          = Some ambient
       /\ turbulence_intensity <$> turbines after_second_wake !! 2%nat
          = Some (Rmax (sqrt ((1 * turbulence_function
                                     (wake before_second_wake) ambient
                                     (Vec3_new 1000 0 90) (Vec3_new 500 0 90)
                                     (turbine 0.02 [7])) ^ 2
                              + ambient ^ 2))
                       (turbulence_intensity (turbine 0.02 [0]))).
Proof.
  assert (Hzone : in_influence_zone (Vec3_new 500 0 90) (Vec3_new 1000 0 90)
                    (rotor_diameter (turbine 0.02 [7]))) by (run; cond).
  assert (Hpos : 1 > 0) by lra.
  do 2 (split; [reflexivity|]). split; [exact Hzone|].
  split; [exact second_wake_overlap|]. split; [exact Hpos|].
  exact (proj2 (turbulence_update_uses_ambient false (locals layout) [0] [0]
                  (Vec3_new 500 0 90) 1 [1] (Vec3_new 1000 0 90) 2
                  before_second_wake)
               (turbine 0.02 [7]) (turbine 0.02 [0]) 1 after_second_wake
               eq_refl eq_refl Hzone second_wake_overlap Hpos
               second_wake_step).
Defined.


(** C6 on two turbulence steps of the small farm: that of the second
    turbine, which raises the turbulence intensity of the third, and
    that of the last turbine of the row, which has no turbine
    downstream. *)
Lemma turbulence_step_writes_only_the_wake_witness :
  (turbine_changed 2 before_second_wake
     (state_of (propagate_turbulence false (locals layout) [0] [0]
                  (Vec3_new 500 0 90) 1 [1] before_second_wake))
   /\ exists pre coord_ti post turbine0 turbine turbine_ti area_overlap,
        sorted_map (locals layout) = pre ++ (coord_ti, 2%nat) :: post
        /\ turbines before_second_wake !! 1%nat = Some turbine0
        /\ x1 coord_ti > x1 (Vec3_new 500 0 90)
        /\ Rabs (x2 (Vec3_new 500 0 90) - x2 coord_ti)
           < 2 * rotor_diameter turbine0
        /\ x1 coord_ti
           <= 15 * rotor_diameter turbine0 + x1 (Vec3_new 500 0 90)
        /\ let s := turbulence_step_at false (locals layout) [0] [0]
                      (Vec3_new 500 0 90) 1 [1] pre before_second_wake in
           turbines s !! 1%nat = Some turbine
           /\ turbines s !! 2%nat = Some turbine_ti
           /\ area_overlap_on s [0] [0] (rotated_z (locals layout)) [1]
                              turbine coord_ti turbine_ti
              = Some area_overlap
           /\ area_overlap > 0)
  /\ (forall coord_ti k_ti turbine,
        (coord_ti, k_ti) ∈ sorted_map (locals layout) ->
        turbines after_wake !! 2%nat = Some turbine ->
        ~ in_influence_zone (Vec3_new 1000 0 90) coord_ti
                            (rotor_diameter turbine))
  /\ state_of (propagate_turbulence true (locals layout) [0] [0]
                 (Vec3_new 1000 0 90) 2 [1] after_wake)
     = after_wake.
Proof.
  assert (Hch : turbine_changed 2 before_second_wake
     (state_of (propagate_turbulence false (locals layout) [0] [0]
                  (Vec3_new 500 0 90) 1 [1] before_second_wake))).
  { rewrite second_wake_whole_step. left. simpl. intros [= Heq]. lra. }
  assert (Hiso : forall coord_ti k_ti turbine,
     (coord_ti, k_ti) ∈ sorted_map (locals layout) ->
     turbines after_wake !! 2%nat = Some turbine ->
     ~ in_influence_zone (Vec3_new 1000 0 90) coord_ti
                         (rotor_diameter turbine)).
  { intros coord_ti k_ti t Hin [= <-].
    cbv [locals sorted_map layout zip zip_with length seq] in Hin.
    repeat (apply elem_of_cons in Hin as [[= -> ->]|Hin]); [run; cond..|].
    by apply elem_of_nil in Hin. }
  split; [split; [exact Hch|]|split; [exact Hiso|]].
  - exact (proj1 (turbulence_step_writes_only_the_wake false
                    (locals layout) [0] [0] (Vec3_new 500 0 90) 1 [1]
                    before_second_wake) 2%nat Hch).
  - exact (proj1 (proj2 (turbulence_step_writes_only_the_wake true
                           (locals layout) [0] [0] (Vec3_new 1000 0 90) 2 [1]
                           after_wake)) Hiso).
Defined.

(** C7 on the small farm with a turbulence model named "jensen". *)
Lemma turbulence_propagation_is_gated_witness :
  let ff := farm "jensen" layout
                 [turbine 0.1 [5]; turbine 0.2 [5]; turbine 0.3 [5]]
                 [8] [0] [0] None in
  let ff0 := farm "jensen" layout
                  [turbine 0 [0]; turbine 0 [0]; turbine 0 [0]]
                  [8] [0] [0] None in
  prepare_wake None false ff = Ok (locals layout) ff0
  /\ turbulence_model_string (wake ff0) <> "crespo_hernandez"%string
  /\ turbulence_model_string (wake ff0) <> "ishihara_qian"%string
  /\ (forall rotated_x rotated_y coord k turb_u_wake (s : @FlowField unit),
        wake s = wake ff0 ->
        propagate_turbulence false (locals layout) rotated_x rotated_y
                             coord k turb_u_wake s
        = Ok tt s)
  /\ (let ff' := state_of (calculate_wake false None false ff) in
      forall i t, turbines ff' !! i = Some t ->
        turbine_turbulence_intensity (wind_map ff') !! i
        = Some (turbulence_intensity t)).
Proof.
  intros ff ff0.
  assert (Hprep : prepare_wake None false ff = Ok (locals layout) ff0)
    by apply prepare_toy.
  assert (H1 : turbulence_model_string (wake ff0)
               <> "crespo_hernandez"%string) by done.
  assert (H2 : turbulence_model_string (wake ff0)
               <> "ishihara_qian"%string) by done.
  do 3 (split; [done|]).
  exact (turbulence_propagation_is_gated false None false ff (locals layout)
           ff0 Hprep H1 H2).
Defined.

(** C8 on a farm of two turbines at one place: both positions match
    the coordinate of either. *)
Lemma coordinate_lookup_is_unique_or_fatal_witness :
  let ff := farm "crespo_hernandez" layout_twice
                 [turbine 0 [0]; turbine 0 [0]] [8] [0] [0] None in
  let ff0 := farm "crespo_hernandez" layout_twice
                  [turbine 0 [0]; turbine 0 [0]] [8] [0] [0] None in
  prepare_wake None false ff = Ok (locals layout_twice) ff0
  /\ (Vec3_new 0 0 90, 0%nat) ∈ sorted_map (locals layout_twice)
  /\ length (np_where_both 0 (rx (locals layout_twice))
                           (ry (locals layout_twice))
                           (x1 (Vec3_new 0 0 90)) (x2 (Vec3_new 0 0 90)))
     <> 1%nat
  /\ exists e s, calculate_wake false None false ff = Raise e s.
Proof.
  intros ff ff0.
  assert (Hprep : prepare_wake None false ff = Ok (locals layout_twice) ff0)
    by apply prepare_toy_twice.
  assert (Hin : (Vec3_new 0 0 90, 0%nat) ∈ sorted_map (locals layout_twice))
    by (cbv [locals sorted_map layout_twice zip zip_with length seq]; left).
  assert (Hlen : length (np_where_both 0 (rx (locals layout_twice))
                           (ry (locals layout_twice))
                           (x1 (Vec3_new 0 0 90)) (x2 (Vec3_new 0 0 90)))
                 <> 1%nat)
    by (run; repeat (decide_one; run); done).
  do 3 (split; [done|]).
  exact (proj2 (proj2 (coordinate_lookup_is_unique_or_fatal [] []
                         (Vec3_new 0 0 90) ff))
               false None false (locals layout_twice) ff0 0%nat
               Hprep Hin Hlen).
Defined.

(** C9 on the farm with grid points at three heights, for a shear
    exponent of 0.12. *)
Lemma initialize_velocities_follows_shear_profile_witness :
  (forall b (s : @FlowField unit), wind_shear (set_bounds b s) = wind_shear s)
  /\ (forall r p (s : @FlowField unit),
        wind_shear (_compute_initialized_domain r p s) = wind_shear s)
  /\ let ff1 :=
       state_of (reinitialize_flow_field (Some 0.12) None None None None
                   None None None tall) in
     wind_shear ff1 = 0.12
     /\ z ff1 = [45; 90; 180]
     /\ grid_wind_speed (wind_map ff1) = [8; 9; 10]
     /\ exists ff2,
          initialize_velocities ff1 = Ok tt ff2
          /\ length (u_initial ff2) = length (z ff1)
          /\ (forall i zi, z ff1 !! i = Some zi ->
                exists speed,
                  grid_wind_speed (wind_map ff1) !! i = Some speed
                  /\ u_initial ff2 !! i
                     = Some (speed
                             * np_power (zi / reference_wind_height ff1)
                                        0.12))
          /\ ambient_initialized ff2.
Proof.
  assert (Hbounds : forall b (s : @FlowField unit),
            wind_shear (set_bounds b s) = wind_shear s) by reflexivity.
  assert (Hdomain : forall r p (s : @FlowField unit),
            wind_shear (_compute_initialized_domain r p s) = wind_shear s)
    by reflexivity.
  do 2 (split; [done|]).
  destruct (initialize_velocities_follows_shear_profile 0.12 None None None
              None None None None tall Hbounds Hdomain)
    as (Hshear & Hsame & _).
  split; [exact Hshear|]. do 2 (split; [reflexivity|]).
  apply Hsame. reflexivity.
Defined.

(** C10, counterexample: on the farm whose wind map holds the turbulence
    intensity of two of the three turbines, [calculate_wake] raises
    [IndexError] before it has overwritten the third turbine: the
    turbulence intensity that an earlier call has left there, 0.5, is
    still there after the call, where the farm as built has 0. *)
Lemma calculate_wake_keeps_stale_turbine_state :
  same_engine short_of_intensities short_of_intensities_stale
  /\ exists s s',
       calculate_wake false None false short_of_intensities
       = Raise IndexError s
       /\ calculate_wake false None false short_of_intensities_stale
          = Raise IndexError s'
       /\ turbulence_intensity <$> turbines s !! 2%nat = Some 0
       /\ turbulence_intensity <$> turbines s' !! 2%nat = Some 0.5
       /\ velocities <$> turbines s' !! 2%nat = Some [6]
       /\ calculate_wake false None false short_of_intensities
          <> calculate_wake false None false short_of_intensities_stale.
Proof.
  split.
  { exists (turbines short_of_intensities_stale). split; [reflexivity|].
    repeat constructor. }
  assert (H1 : calculate_wake false None false short_of_intensities
               = Raise IndexError short_of_intensities)
    by (unfold short_of_intensities; run; repeat (decide_one; run);
        state_eq).
  assert (H2 : calculate_wake false None false short_of_intensities_stale
               = Raise IndexError short_of_intensities_stale)
    by (unfold short_of_intensities_stale; run; repeat (decide_one; run);
        state_eq).
  exists short_of_intensities, short_of_intensities_stale.
  do 5 (split; [done|]).
  rewrite H1, H2. intros [= Heq]. lra.
Qed.

(** The amended C10 on the small farm as built and as a call left it:
    both calls return the same flow field. *)
Lemma calculate_wake_forgets_turbine_state_witness :
  (is_Some (@None (list R * list R * list R)) ->
   forall s s' : @FlowField unit,
     same_engine s s' ->
     same_engine (_compute_initialized_domain None None s)
                 (_compute_initialized_domain None None s'))
  /\ same_engine start after_second_wake
  /\ (length (turbines (before_refresh None false start))
      <= length (turbine_turbulence_intensity
                   (wind_map (before_refresh None false start))))%nat
  /\ calculate_wake false None false start = Ok tt after_wake
  /\ calculate_wake false None false after_second_wake = Ok tt after_wake
  /\ (exists s1,
        begin_wake None false start = Ok tt s1
        /\ length (turbines s1)
           = length (turbines (before_refresh None false start))
        /\ forall i t, turbines s1 !! i = Some t ->
             turbine_turbulence_intensity (wind_map s1) !! i
               = Some (turbulence_intensity t)
             /\ velocities t = replicate (Z.to_nat (grid_point_count t)) 0)
  /\ calculate_wake false None false start
     = calculate_wake false None false after_second_wake.
Proof.
  assert (Hdom : is_Some (@None (list R * list R * list R)) ->
   forall s s' : @FlowField unit,
     same_engine s s' ->
     same_engine (_compute_initialized_domain None None s)
                 (_compute_initialized_domain None None s'))
    by (by intros [? ?]).
  assert (Hsame : same_engine start after_second_wake).
  { exists (turbines after_second_wake). split; [reflexivity|].
    repeat constructor. }
  assert (Hlen : (length (turbines (before_refresh None false start))
      <= length (turbine_turbulence_intensity
                   (wind_map (before_refresh None false start))))%nat)
    by (simpl; lia).
  do 3 (split; [done|]).
  split; [apply run_with_wakes|]. split; [apply run_with_wakes|].
  exact (calculate_wake_forgets_turbine_state false None false start
           after_second_wake Hdom Hsame Hlen).
Defined.


(** ** The further properties on the small farm *)

Lemma run_counting_wakes ti1 ti2 ti3 vs1 vs2 vs3 (u0 v0 w0 : R) wl :
  calculate_wake false None true
    (farm "crespo_hernandez" layout
          [turbine ti1 vs1; turbine ti2 vs2; turbine ti3 vs3]
          [u0] [v0] [w0] wl)
  = Ok tt after_counted_wake.
Proof.
  unfold after_counted_wake. run. repeat (decide_one; run). state_eq.
Qed.

Lemma sorted_map_toy (coord : Vec3) (k : nat) :
  (coord, k) ∈ sorted_map (locals layout) ->
  (coord, k) = (Vec3_new 0 0 90, 0%nat)
  \/ (coord, k) = (Vec3_new 500 0 90, 1%nat)
  \/ (coord, k) = (Vec3_new 1000 0 90, 2%nat).
Proof.
  cbv [locals sorted_map layout zip zip_with length seq].
  rewrite !elem_of_cons, elem_of_nil. tauto.
Qed.


(** X4 on the small farm, which a call with wakes left with [u] at 5. *)
Lemma no_wake_leaves_vw_empty_witness :
  calculate_wake true None false after_wake = Ok tt after_no_wake
  /\ v after_no_wake = np_zeros_like (u after_no_wake)
  /\ w after_no_wake = np_zeros_like (u after_no_wake).
Proof.
  assert (Hrun : calculate_wake true None false after_wake
                 = Ok tt after_no_wake) by apply run_no_wake.
  split; [done|].
  exact (no_wake_leaves_vw_empty None false after_wake after_no_wake Hrun).
Defined.

(** X5 on the farm whose wind map holds two turbulence intensities. *)
Lemma calculate_wake_raises_on_short_wind_map_witness :
  (length (turbine_turbulence_intensity (wind_map short_of_intensities))
   < length (turbines short_of_intensities))%nat
  /\ exists s,
       calculate_wake false None false short_of_intensities
       = Raise IndexError s
       /\ (forall i a t,
             turbine_turbulence_intensity (wind_map short_of_intensities) !! i
               = Some a ->
             turbines short_of_intensities !! i = Some t ->
             turbines s !! i
             = Some (reset_velocities (set_turbulence_intensity a t)))
       /\ (forall i,
             (length (turbine_turbulence_intensity
                        (wind_map short_of_intensities)) <= i)%nat ->
             turbines s !! i = turbines short_of_intensities !! i).
Proof.
  assert (Hlen :
    (length (turbine_turbulence_intensity (wind_map short_of_intensities))
     < length (turbines short_of_intensities))%nat) by (simpl; lia).
  split; [done|].
  exact (calculate_wake_raises_on_short_wind_map false false
           short_of_intensities Hlen).
Defined.

(** X6 on the farm without a grid. *)
Lemma calculate_wake_raises_on_empty_grid_witness :
  (length (turbines without_grid)
   <= length (turbine_turbulence_intensity (wind_map without_grid)))%nat
  /\ (x without_grid = [] \/ y without_grid = [])
  /\ exists s,
       calculate_wake false None true without_grid = Raise ValueError s
       /\ (forall i t, turbines s !! i = Some t ->
             turbine_turbulence_intensity (wind_map s) !! i
               = Some (turbulence_intensity t)
             /\ velocities t = replicate (Z.to_nat (grid_point_count t)) 0)
       /\ (true = true ->
           wake_list s = Some (replicate (length (turbines s)) 0%nat)).
Proof.
  assert (Hlen : (length (turbines without_grid)
    <= length (turbine_turbulence_intensity (wind_map without_grid)))%nat)
    by (simpl; lia).
  assert (Hgrid : x without_grid = [] \/ y without_grid = [])
    by (left; reflexivity).
  do 2 (split; [done|]).
  exact (calculate_wake_raises_on_empty_grid false true without_grid
           Hlen Hgrid).
Defined.

(** X7 on the farm with a gridded velocity model. *)
Lemma calculate_wake_forgets_velocities_witness :
  is_Some (velocity_model_grid_resolution (wake gridded))
  /\ calculate_wake false None false (set_uvw [5] [1] [1] gridded)
     = calculate_wake false None false gridded.
Proof.
  assert (Hres : is_Some (velocity_model_grid_resolution (wake gridded)))
    by (eexists; reflexivity).
  split; [done|].
  exact (calculate_wake_forgets_velocities false None false gridded
           [5] [1] [1] Hres).
Defined.

(** X9 on a turbine of two sample points, one of which a wake slows
    down from 8 to 7 m/s. *)
Lemma area_overlap_counts_points_above_threshold_witness :
  Z.lt 0 (grid_point_count turbine_of_two)
  /\ np_sub [8; 8] [7; 8] = Some [8 - 7; 8 - 8]
  /\ Z.of_nat (length [8 - 7; 8 - 8]) = grid_point_count turbine_of_two
  /\ exists area_overlap,
       _calculate_area_overlap [7; 8] [8; 8] turbine_of_two
       = Some area_overlap
       /\ area_overlap
          = INR (length (filter (fun d => d > 0.05) [8 - 7; 8 - 8]))
            / IZR (grid_point_count turbine_of_two)
       /\ (area_overlap > 0 <-> Exists (fun d => d > 0.05) [8 - 7; 8 - 8]).
Proof.
  assert (Hpos : Z.lt 0 (grid_point_count turbine_of_two)) by reflexivity.
  assert (Hsub : np_sub [8; 8] [7; 8] = Some [8 - 7; 8 - 8]) by reflexivity.
  assert (Hlen : Z.of_nat (length [8 - 7; 8 - 8])
                 = grid_point_count turbine_of_two) by reflexivity.
  do 3 (split; [done|]).
  exact (area_overlap_counts_points_above_threshold [7; 8] [8; 8] _
           turbine_of_two Hpos Hsub Hlen).
Defined.

(** X10 on the first turbine of the row. *)
Lemma front_turbine_keeps_ambient_intensity_witness :
  prepare_wake None true start
  = Ok (locals layout)
       (farm "crespo_hernandez" layout
             [turbine 0 [0]; turbine 0 [0]; turbine 0 [0]] [8] [0] [0]
             (Some [0; 0; 0]%nat))
  /\ (forall coord_j coord k,
        (coord_j, 0%nat) ∈ sorted_map (locals layout) ->
        (coord, k) ∈ sorted_map (locals layout) ->
        x1 coord_j <= x1 coord)
  /\ calculate_wake false None true start = Ok tt after_counted_wake
  /\ (forall t, turbines after_counted_wake !! 0%nat = Some t ->
        turbine_turbulence_intensity (wind_map after_counted_wake) !! 0%nat
        = Some (turbulence_intensity t))
  /\ (true = true -> (0 < length (turbines after_counted_wake))%nat ->
      wake_list after_counted_wake ≫= (fun wl => wl !! 0%nat)
      = Some 0%nat).
Proof.
  assert (Hprep : prepare_wake None true start
    = Ok (locals layout)
         (farm "crespo_hernandez" layout
               [turbine 0 [0]; turbine 0 [0]; turbine 0 [0]] [8] [0] [0]
               (Some [0; 0; 0]%nat))) by apply (prepare_toy _ true).
  assert (Hfront : forall coord_j coord k,
        (coord_j, 0%nat) ∈ sorted_map (locals layout) ->
        (coord, k) ∈ sorted_map (locals layout) ->
        x1 coord_j <= x1 coord).
  { intros coord_j coord k
      [[= -> ]|[[= -> ?]|[= -> ?]]]%sorted_map_toy
      [[= -> ->]|[[= -> ->]|[= -> ->]]]%sorted_map_toy;
      try done; simpl; lra. }
  assert (Hrun : calculate_wake false None true start
                 = Ok tt after_counted_wake) by apply run_counting_wakes.
  do 3 (split; [done|]).
  exact (front_turbine_keeps_ambient_intensity false None true start
           after_counted_wake (locals layout) _ 0%nat Hprep Hfront Hrun).
Defined.

(** X11 on the farm with a veering wind, seen from the second turbine:
    the first grid point, where the wind direction is the one at the
    turbine, stays where it is. *)
Lemma rotated_grid_keeps_aligned_points_witness :
  exists rotated_x rotated_y,
    rotated_grid_for (center_of_rotation (locals layout))
      (rx (locals layout)) (ry (locals layout)) [0; 100] [0; 0] 1 veering
    = Ok (rotated_x, rotated_y) veering
    /\ veering = veering
    /\ forall i twd a b,
         turbine_wind_direction (wind_map veering) !! 1%nat = Some twd ->
         grid_wind_direction (wind_map veering) !! i = Some twd ->
         [0; 100] !! i = Some a -> [0; 0] !! i = Some b ->
         rotated_x !! i = Some a /\ rotated_y !! i = Some b.
Proof.
  assert (Hrun : { r | rotated_grid_for (center_of_rotation (locals layout))
      (rx (locals layout)) (ry (locals layout)) [0; 100] [0; 0] 1 veering
      = Ok r veering }).
  { eexists. unfold veering. run. repeat (decide_one; run). reflexivity. }
  destruct Hrun as [[rotated_x rotated_y] Hrun].
  exists rotated_x, rotated_y. split; [done|].
  exact (rotated_grid_keeps_aligned_points
           (center_of_rotation (locals layout))
           (rx (locals layout)) (ry (locals layout)) [0; 100] [0; 0] 1
           veering veering rotated_x rotated_y Hrun).
Defined.

(** X12 on the small farm, whose grid is one point. *)
Lemma center_of_rotation_is_the_middle_of_the_grid_witness :
  x start <> [] /\ y start <> []
  /\ exists c xmin xmax ymin ymax,
       center_of_rotation_of start = Ok c start
       /\ xmin ∈ x start /\ xmax ∈ x start
       /\ ymin ∈ y start /\ ymax ∈ y start
       /\ x1 c = (xmin + xmax) / 2 /\ x2 c = (ymin + ymax) / 2 /\ x3 c = 0
       /\ (forall a, a ∈ x start -> Rabs (a - x1 c) <= (xmax - xmin) / 2)
       /\ (forall b, b ∈ y start -> Rabs (b - x2 c) <= (ymax - ymin) / 2).
Proof.
  assert (Hx : x start <> []) by done.
  assert (Hy : y start <> []) by done.
  do 2 (split; [done|]).
  exact (center_of_rotation_is_the_middle_of_the_grid start Hx Hy).
Defined.

(** X13 on the small farm. *)
Lemma vw_are_the_stored_deficits_witness :
  calculate_wake false None false start = Ok tt after_wake
  /\ exists lc ff0 deficits ff1,
       prepare_wake None false start = Ok lc ff0
       /\ sorted_turbine_vw_deficits false lc ff0 = Ok deficits ff1
       /\ length deficits = length (sorted_map lc)
       /\ (velocity_model_string (wake after_wake) = "curl"%string ->
           v after_wake = default (np_zeros_like (u ff0)) (last deficits.*1)
           /\ w after_wake
              = default (np_zeros_like (u ff0)) (last deficits.*2))
       /\ (velocity_model_string (wake after_wake) <> "curl"%string ->
           np_add_all (np_zeros_like (u ff0)) deficits.*1
           = Some (v after_wake)
           /\ np_add_all (np_zeros_like (u ff0)) deficits.*2
              = Some (w after_wake)).
Proof.
  assert (Hrun : calculate_wake false None false start = Ok tt after_wake)
    by apply run_with_wakes.
  split; [done|].
  exact (vw_are_the_stored_deficits None false start after_wake Hrun).
Defined.

Lemma Rpower_0_r (a : R) : Rpower a 0 = 1.
Proof. unfold Rpower. rewrite Rmult_0_l. apply exp_0. Qed.

Lemma Rpower_1_l (e : R) : Rpower 1 e = 1.
Proof. unfold Rpower. rewrite ln_1, Rmult_0_r. apply exp_0. Qed.

(** X16 on the farm with grid points at three heights and no shear:
    each grid point starts at the wind speed that the wind map holds for
    it. *)
Lemma ambient_profile_at_reference_height_witness :
  (forall a, np_power a 0 = 1)
  /\ (forall e, np_power 1 e = 1)
  /\ reference_wind_height tall <> 0
  /\ length (grid_wind_speed (wind_map tall)) = length (z tall)
  /\ exists ff',
       initialize_velocities tall = Ok tt ff'
       /\ length (u_initial ff') = 3%nat
       /\ u_initial ff' !! 0%nat = Some 8 /\ u ff' !! 0%nat = Some 8
       /\ u_initial ff' !! 1%nat = Some 9 /\ u ff' !! 1%nat = Some 9
       /\ u_initial ff' !! 2%nat = Some 10 /\ u ff' !! 2%nat = Some 10.
Proof.
  assert (Hzero : forall a, np_power a 0 = 1) by exact Rpower_0_r.
  assert (Hone : forall e, np_power 1 e = 1) by exact Rpower_1_l.
  assert (Hh : reference_wind_height tall <> 0) by (simpl; lra).
  assert (Hlen : length (grid_wind_speed (wind_map tall)) = length (z tall))
    by reflexivity.
  do 4 (split; [done|]).
  destruct (proj1 (ambient_profile_at_reference_height tall Hzero Hone Hh)
              Hlen) as (ff' & Hrun & Hsize & Hall).
  exists ff'. split; [done|]. split; [done|].
  destruct (Hall 0%nat 45 eq_refl (or_introl eq_refl))
    as (s0 & [= <-] & H0 & H0').
  destruct (Hall 1%nat 90 eq_refl (or_introl eq_refl))
    as (s1 & [= <-] & H1 & H1').
  destruct (Hall 2%nat 180 eq_refl (or_introl eq_refl))
    as (s2 & [= <-] & H2 & H2').
  done.
Defined.

(** X17 on the small farm. *)
Lemma uncounted_turbine_has_ambient_intensity_witness :
  calculate_wake false None true start = Ok tt after_counted_wake
  /\ exists wl,
       wake_list after_counted_wake = Some wl
       /\ length wl = length (turbines after_counted_wake)
       /\ forall j t, turbines after_counted_wake !! j = Some t ->
            wl !! j = Some 0%nat ->
            turbine_turbulence_intensity (wind_map after_counted_wake) !! j
            = Some (turbulence_intensity t).
Proof.
  assert (Hrun : calculate_wake false None true start
                 = Ok tt after_counted_wake) by apply run_counting_wakes.
  split; [done|].
  exact (uncounted_turbine_has_ambient_intensity false None start
           after_counted_wake Hrun).
Defined.

(** X18 on the small farm, reinitialized without a new parameter. *)
Lemma turbine_reset_is_idempotent_witness :
  reinitialize_flow_field None None None None None None None None after_wake
  = Ok tt (farm "crespo_hernandez" layout
                [turbine 0 [0]; turbine 0 [0]; turbine 0 [0]] [5] [0] [0]
                None)
  /\ exists s,
       begin_wake None false
         (farm "crespo_hernandez" layout
               [turbine 0 [0]; turbine 0 [0]; turbine 0 [0]] [5] [0] [0]
               None)
       = Ok tt s
       /\ turbines s
          = turbines (farm "crespo_hernandez" layout
                           [turbine 0 [0]; turbine 0 [0]; turbine 0 [0]]
                           [5] [0] [0] None).
Proof.
  assert (Hrun :
    reinitialize_flow_field None None None None None None None None after_wake
    = Ok tt (farm "crespo_hernandez" layout
                  [turbine 0 [0]; turbine 0 [0]; turbine 0 [0]] [5] [0] [0]
                  None))
    by (run; repeat (decide_one; run); state_eq).
  split; [done|].
  exact (turbine_reset_is_idempotent None None None None None None None None
           false after_wake _ Hrun).
Defined.

End ToyRuns.
